(** * Cardless: withdrawal-token service, risk engine and rate limiter

    A shallow embedding of the backend services of the Cardless repository
    (services/riskEngine.js, services/tokenService.js in its salted and
    peppered variant, middleware/rateLimiter.js, with the logger of
    utils/logger.js as they call it) and the properties the system
    specification states about them.

    JavaScript numbers are IEEE 754 binary64 values and are embedded as the
    primitive floats of the kernel, so that every comparison and every sum
    below is the one the program computes. *)

From Stdlib Require Import ZArith List Bool String Ascii Lia Arith.
From Stdlib Require Import Strings.Byte.
From Stdlib Require Import Floats.
From Stdlib Require Uint63.
Import ListNotations.

Set Warnings "-inexact-float,-register-all".

(* ================================================================== *)
(** ** JavaScript values used by the services *)
(* ================================================================== *)

Module Js.

(** Truthiness of a value that is either null/undefined or a string:
    the empty string is falsy. *)
Definition truthy (v : option string) : bool :=
  match v with
  | None => false
  | Some s => negb (s =? "")%string
  end.

(** [a || d] for such a value and a string default. *)
Definition or_default (v : option string) (d : string) : string :=
  match v with
  | Some s => if (s =? "")%string then d else s
  | None => d
  end.

(** [a !== b] on strings. *)
Definition strict_neq (a b : string) : bool := negb (a =? b)%string.

Open Scope float_scope.

(** [Math.min(a, b)]: NaN if either argument is NaN, and -0 is smaller
    than +0. *)
Definition Math_min (a b : float) : float :=
  if is_nan a || is_nan b then nan
  else if a <? b then a
  else if b <? a then b
  else if is_zero a && get_sign a then a else b.

(** The result of [Number.prototype.toFixed(2)]. The decimal numeral is
    kept as its sign and its count of hundredths [n], which the method
    prints as the digits of [n] with a point before the last two. *)
Inductive fixed2 : Type :=
| FixedNaN
| FixedInfinity (neg : bool)
| FixedDecimal (neg : bool) (n : Z)
| FixedShortest (x : float).

(** For a finite [x = m * 2^e] the method picks the integer [n] for which
    [n / 100 - x] is as close to zero as possible and the larger one of
    two: the floor of [100 * x + 1/2], computed here on integers. *)
Definition hundredths (m : positive) (e : Z) : Z :=
  if (0 <=? e)%Z then Z.pos m * 2 ^ e * 100
  else (Z.pos m * 200 + 2 ^ (- e)) / 2 ^ (1 - e).

Definition toFixed2 (x : float) : fixed2 :=
  match Prim2SF x with
  | S754_nan => FixedNaN
  | S754_infinity s => FixedInfinity s
  | S754_zero _ => FixedDecimal false 0
  | S754_finite s m e =>
      if 1e21 <=? abs x then FixedShortest x
      else FixedDecimal s (hundredths m e)
  end.

Definition float_of_Z (n : Z) : float := of_uint63 (Uint63.of_Z n).

(** [parseFloat] of such a numeral: the binary64 value nearest to
    [n / 100]. Below 2^53 hundredths both [n] and 100 are binary64
    values, and the correctly rounded quotient is that nearest value. *)
Definition parseFloat (s : fixed2) : float :=
  match s with
  | FixedNaN => nan
  | FixedInfinity neg => if neg then neg_infinity else infinity
  | FixedDecimal neg n =>
      let v := float_of_Z n / 100 in if neg then - v else v
  | FixedShortest x => x
  end.

End Js.

(* ================================================================== *)
(** ** services/riskEngine.js *)
(* ================================================================== *)

Module RiskEngine.

Open Scope float_scope.

(** The historical context gathered by [getRiskContext]. [lastIp] is
    [None] for null or undefined. *)
Record Context : Type := {
  velocity10m : float;
  avgAmount : float;
  failedAttempts24h : float;
  lastIp : option string;
  currentAmount : float
}.

(** The request metadata; only [ip] is read by the engine. *)
Record Metadata : Type := { ip : option string }.

(** [metadata = {}] *)
Definition no_metadata : Metadata := {| ip := None |}.

Inductive Decision : Type := APPROVE | CHALLENGE | REJECT.

(** The reason strings. The two deviation reasons are templates over
    [Math.round(deviation * 100)]; the deviation they print is kept. *)
Inductive Reason : Type :=
| HighVelocity
| ElevatedVelocity
| SignificantDeviation (deviation : float)
| ModerateDeviation (deviation : float)
| ExcessiveFailedAttempts
| ElevatedFailedAttempts
| IpMismatch.

Record Evaluation : Type := {
  score : float;
  decision : Decision;
  reasons : list Reason
}.

(** The running pair [(score, reasons)] of the function body. *)
Definition Acc : Type := (float * list Reason)%type.

Definition bump (a : Acc) (w : float) (r : Reason) : Acc :=
  (fst a + w, snd a ++ [r]).

(** 1. Velocity signal. *)
Definition velocity_signal (context : Context) (a : Acc) : Acc :=
  if 3 <? velocity10m context then bump a 0.4 HighVelocity
  else if 1 <? velocity10m context then bump a 0.15 ElevatedVelocity
  else a.

Definition deviation_of (context : Context) : float :=
  abs (currentAmount context - avgAmount context) / avgAmount context.

(** 2. Behaviour signal. *)
Definition behavior_signal (context : Context) (a : Acc) : Acc :=
  if 0 <? avgAmount context then
    let deviation := deviation_of context in
    if 2.0 <? deviation then bump a 0.3 (SignificantDeviation deviation)
    else if 1.0 <? deviation then bump a 0.15 (ModerateDeviation deviation)
    else a
  else a.

(** 3. Abuse signal. *)
Definition abuse_signal (context : Context) (a : Acc) : Acc :=
  if 5 <? failedAttempts24h context then bump a 0.5 ExcessiveFailedAttempts
  else if 2 <? failedAttempts24h context then bump a 0.25 ElevatedFailedAttempts
  else a.

Definition default_ip : string := "127.0.0.1".

Definition currentIp (metadata : Metadata) : string :=
  Js.or_default (ip metadata) default_ip.

Definition ip_mismatch (context : Context) (metadata : Metadata) : bool :=
  match lastIp context with
  | Some l => Js.truthy (Some l) && Js.strict_neq l (currentIp metadata)
  | None => false
  end.

(** 4. Geo/IP signal. *)
Definition ip_signal (context : Context) (metadata : Metadata) (a : Acc) : Acc :=
  if ip_mismatch context metadata then bump a 0.2 IpMismatch else a.

(** The score before the cap. *)
Definition raw_signals (context : Context) (metadata : Metadata) : Acc :=
  ip_signal context metadata
    (abuse_signal context
       (behavior_signal context
          (velocity_signal context (0, [])))).

(** [Math.min(1.0, parseFloat(score.toFixed(2)))] *)
Definition cap (s : float) : float :=
  Js.Math_min 1.0 (Js.parseFloat (Js.toFixed2 s)).

Definition decide (s : float) : Decision :=
  if 0.7 <? s then REJECT
  else if 0.3 <=? s then CHALLENGE
  else APPROVE.

(** [RiskEngine.evaluateRedemption(context, metadata)]. The call of the
    logger before the return does not touch the result. *)
Definition evaluateRedemption (context : Context) (metadata : Metadata)
  : Evaluation :=
  let a := raw_signals context metadata in
  let s := cap (fst a) in
  {| score := s; decision := decide s; reasons := snd a |}.

(** *** The table of the specification, in hundredths *)

(** More than 3 tokens minted in ten minutes add 0.40, more than 1
    add 0.15. *)
Definition spec_velocity (context : Context) : Z :=
  if 3 <? velocity10m context then 40
  else if 1 <? velocity10m context then 15 else 0.

(** A deviation |cur - avg| / avg above 2.0 adds 0.30, above 1.0 adds
    0.15; nothing is added when the average is 0. *)
Definition spec_deviation (context : Context) : Z :=
  if avgAmount context =? 0 then 0
  else
    let ratio :=
      abs (currentAmount context - avgAmount context) / avgAmount context in
    if 2.0 <? ratio then 30 else if 1.0 <? ratio then 15 else 0.

(** More than 5 failed attempts in a day add 0.50, more than 2 add
    0.25. *)
Definition spec_failed (context : Context) : Z :=
  if 5 <? failedAttempts24h context then 50
  else if 2 <? failedAttempts24h context then 25 else 0.

(** The current IP is the one of the metadata, 127.0.0.1 without one. *)
Definition spec_current_ip (metadata : Metadata) : string :=
  match ip metadata with
  | Some i => if (i =? "")%string then "127.0.0.1"%string else i
  | None => "127.0.0.1"%string
  end.

(** A last IP that is present and differs from the current one adds
    0.20. *)
Definition spec_ip (context : Context) (metadata : Metadata) : Z :=
  match lastIp context with
  | Some l =>
      if (l =? "")%string then 0
      else if (l =? spec_current_ip metadata)%string then 0 else 20
  | None => 0
  end.

Definition spec_sum (context : Context) (metadata : Metadata) : Z :=
  spec_velocity context + spec_deviation context
  + spec_failed context + spec_ip context metadata.

(** The sum capped at 1.0, as the binary64 value of its two decimals. *)
Definition spec_score (context : Context) (metadata : Metadata) : float :=
  Js.float_of_Z (Z.min 100 (spec_sum context metadata)) / 100.

(** *** Notions used to state the properties of the engine *)

(** The hundredths that the branches of the code add. *)
Definition code_velocity (context : Context) : Z :=
  if 3 <? velocity10m context then 40
  else if 1 <? velocity10m context then 15 else 0.

Definition code_deviation (context : Context) : Z :=
  if 0 <? avgAmount context then
    if 2.0 <? deviation_of context then 30
    else if 1.0 <? deviation_of context then 15 else 0
  else 0.

Definition code_failed (context : Context) : Z :=
  if 5 <? failedAttempts24h context then 50
  else if 2 <? failedAttempts24h context then 25 else 0.

Definition code_ip (context : Context) (metadata : Metadata) : Z :=
  if ip_mismatch context metadata then 20 else 0.

Definition code_sum (context : Context) (metadata : Metadata) : Z :=
  code_velocity context + code_deviation context
  + code_failed context + code_ip context metadata.

(** The three thresholds, checked on a score [s]. *)
Definition thresholds_on (s : float) : bool :=
  match decide s with
  | REJECT => (0.7 <? s) && negb ((0.3 <=? s) && (s <=? 0.7)) && negb (s <? 0.3)
  | CHALLENGE => negb (0.7 <? s) && ((0.3 <=? s) && (s <=? 0.7)) && negb (s <? 0.3)
  | APPROVE => negb (0.7 <? s) && negb ((0.3 <=? s) && (s <=? 0.7)) && (s <? 0.3)
  end.

Definition thresholds_hold (k : Z) : bool :=
  thresholds_on (Js.float_of_Z k / 100).

Definition boundary_03 : Context :=
  {| velocity10m := 0; avgAmount := 100; failedAttempts24h := 0;
     lastIp := Some "127.0.0.1"%string; currentAmount := 350 |}.

Definition boundary_07 : Context :=
  {| velocity10m := 0; avgAmount := 100; failedAttempts24h := 6;
     lastIp := Some "127.0.0.1"%string; currentAmount := 100 |}.

Definition scenario_context : Context :=
  {| velocity10m := 4; avgAmount := 100; failedAttempts24h := 6;
     lastIp := Some "1.1.1.1"%string; currentAmount := 100 |}.

Definition scenario_metadata : Metadata := {| ip := Some "2.2.2.2"%string |}.

(** The signals accumulated before the IP check. *)
Definition before_ip (context : Context) : Acc :=
  abuse_signal context
    (behavior_signal context (velocity_signal context (0, []))).

Definition empty_last_ip : Context :=
  {| velocity10m := 0; avgAmount := 0; failedAttempts24h := 0;
     lastIp := Some ""%string; currentAmount := 100 |}.

Definition roaming : Context :=
  {| velocity10m := 0; avgAmount := 0; failedAttempts24h := 0;
     lastIp := Some "1.2.3.4"%string; currentAmount := 100 |}.

End RiskEngine.

(* ================================================================== *)
(** ** Effects: results, exceptions and state *)
(* ================================================================== *)

(** A JavaScript exception as the services inspect it: the [code] of a
    database or Redis driver error, if any, and the message. *)
Record JsError : Type := { code : option string; message : string }.

Inductive Outcome (A : Type) : Type :=
| Return (a : A)
| Throw (e : JsError).
Arguments Return {A} a.
Arguments Throw {A} e.

(** A computation of an [async] function over a world [S]: it ends with a
    value or with an exception, and leaves a world behind in both cases. *)
Definition Eff (S A : Type) : Type := S -> Outcome A * S.

Definition ret {S A : Type} (a : A) : Eff S A := fun w => (Return a, w).

Definition throw {S A : Type} (e : JsError) : Eff S A := fun w => (Throw e, w).

Definition bind {S A B : Type} (m : Eff S A) (k : A -> Eff S B) : Eff S B :=
  fun w =>
    match m w with
    | (Return a, w') => k a w'
    | (Throw e, w') => (Throw e, w')
    end.

(** [try { m } catch (err) { h err }] *)
Definition try_catch {S A : Type} (m : Eff S A) (h : JsError -> Eff S A)
  : Eff S A :=
  fun w =>
    match m w with
    | (Return a, w') => (Return a, w')
    | (Throw e, w') => h e w'
    end.

Declare Scope eff_scope.
Delimit Scope eff_scope with eff.
Notation "x <- m ;; k" := (bind m (fun x => k))
  (at level 61, m at next level, right associativity) : eff_scope.
Notation "m ;; k" := (bind m (fun _ => k))
  (at level 61, right associativity) : eff_scope.

(** A statement sent to a store, with the error it came back with. *)
Record Issued (Stmt : Type) : Type := {
  stmt : Stmt;
  failed : option JsError
}.
Arguments stmt {Stmt} _.
Arguments failed {Stmt} _.

(* ================================================================== *)
(** ** Buffers, strings and SHA-256 (the crypto module of Node.js) *)
(* ================================================================== *)

Module Bytes.

Local Open Scope Z_scope.

Definition of_Z (z : Z) : byte :=
  match Byte.of_N (Z.to_N (z mod 256)) with
  | Some b => b
  | None => Byte.x00
  end.

Definition to_Z (b : byte) : Z := Z.of_N (Byte.to_N b).

Fixpoint eqb (a b : list byte) : bool :=
  match a, b with
  | [], [] => true
  | x :: a', y :: b' => Byte.eqb x y && eqb a' b'
  | _, _ => false
  end.

(** The UTF-8 bytes of a string, as [hash.update(string)] takes them.
    A string is the sequence of its code units; the model holds the
    strings whose code units are below 256, and a unit from 128 on is
    two bytes in UTF-8. *)
Definition utf8_char (c : ascii) : list byte :=
  let n := Z.of_N (N_of_ascii c) in
  if n <? 128 then [of_Z n]
  else [of_Z (Z.lor 192 (Z.shiftr n 6)); of_Z (Z.lor 128 (Z.land n 63))].

Fixpoint utf8 (s : string) : list byte :=
  match s with
  | EmptyString => []
  | String c rest => utf8_char c ++ utf8 rest
  end.

End Bytes.

(** SHA-256 of FIPS 180-4 on 32-bit words kept in [Z]. *)
Module Sha256.

Local Open Scope Z_scope.

Definition mask : Z := 0xffffffff.
Definition w32 (x : Z) : Z := Z.land x mask.
Definition add32 (x y : Z) : Z := w32 (x + y).
Definition rotr (n x : Z) : Z :=
  w32 (Z.lor (Z.shiftr x n) (Z.shiftl x (32 - n))).
Definition shr (n x : Z) : Z := Z.shiftr x n.
Definition xor3 (a b c : Z) : Z := Z.lxor (Z.lxor a b) c.

Definition Ch (x y z : Z) : Z :=
  Z.lxor (Z.land x y) (Z.land (Z.lxor x mask) z).
Definition Maj (x y z : Z) : Z :=
  xor3 (Z.land x y) (Z.land x z) (Z.land y z).
Definition Sigma0 (x : Z) : Z := xor3 (rotr 2 x) (rotr 13 x) (rotr 22 x).
Definition Sigma1 (x : Z) : Z := xor3 (rotr 6 x) (rotr 11 x) (rotr 25 x).
Definition sigma0 (x : Z) : Z := xor3 (rotr 7 x) (rotr 18 x) (shr 3 x).
Definition sigma1 (x : Z) : Z := xor3 (rotr 17 x) (rotr 19 x) (shr 10 x).

(** The first 64 primes. *)
Definition primes : list Z :=
  [2; 3; 5; 7; 11; 13; 17; 19; 23; 29; 31; 37; 41; 43; 47; 53;
   59; 61; 67; 71; 73; 79; 83; 89; 97; 101; 103; 107; 109; 113; 127; 131;
   137; 139; 149; 151; 157; 163; 167; 173; 179; 181; 191; 193; 197; 199;
   211; 223; 227; 229; 233; 239; 241; 251; 257; 263; 269; 271; 277; 281;
   283; 293; 307; 311].

(** The integer cube root, one bit at a time from the top. *)
Definition cube_root (n : Z) : Z :=
  fold_left
    (fun r bit =>
       let r' := r + 2 ^ bit in
       if r' * r' * r' <=? n then r' else r)
    (rev (map Z.of_nat (seq 0 40))) 0.

(** The first 32 bits of the fractional part of the cube root and of
    the square root of a prime. *)
Definition cube_root_bits (p : Z) : Z := w32 (cube_root (p * 2 ^ 96)).
Definition square_root_bits (p : Z) : Z := w32 (Z.sqrt (p * 2 ^ 64)).

(** The round constants: the cube roots of the first 64 primes. *)
Definition K : list Z := Eval vm_compute in map cube_root_bits primes.

(** The eight working variables, and the chaining value. *)
Record Regs : Type := {
  ra : Z; rb : Z; rc : Z; rd : Z; re : Z; rf : Z; rg : Z; rh : Z
}.

(** The initial chaining value: the square roots of the first 8
    primes. *)
Definition H0 : Regs :=
  Eval vm_compute in
    {| ra := square_root_bits 2; rb := square_root_bits 3;
       rc := square_root_bits 5; rd := square_root_bits 7;
       re := square_root_bits 11; rf := square_root_bits 13;
       rg := square_root_bits 17; rh := square_root_bits 19 |}.

(** Padding: a one bit, zeros up to 56 modulo 64, the bit length on
    eight bytes. *)
Definition be_bytes (count : nat) (x : Z) : list Z :=
  map (fun i => Z.land (Z.shiftr x (8 * Z.of_nat (count - 1 - i)%nat)) 255)
      (seq 0 count).

Definition pad (msg : list Z) : list Z :=
  let len := Z.of_nat (List.length msg) in
  let zeros := Z.to_nat ((55 - len) mod 64) in
  msg ++ [128] ++ repeat 0 zeros ++ be_bytes 8 (8 * len).

Fixpoint be_word (bs : list Z) (acc : Z) : Z :=
  match bs with
  | [] => acc
  | b :: rest => be_word rest (Z.lor (Z.shiftl acc 8) b)
  end.

(** The list cut in pieces of [size] elements. *)
Fixpoint chunks {A : Type} (fuel size : nat) (l : list A) : list (list A) :=
  match fuel, l with
  | _, [] => []
  | O, _ => []
  | S fuel', _ => firstn size l :: chunks fuel' size (skipn size l)
  end.

Definition words_of_block (block : list Z) : list Z :=
  map (fun four => be_word four 0) (chunks 16 4 block).

(** The message schedule, latest word first. *)
Fixpoint extend (count : nat) (rev_w : list Z) : list Z :=
  match count with
  | O => rev_w
  | S count' =>
      let next :=
        add32 (add32 (sigma1 (nth 1 rev_w 0)) (nth 6 rev_w 0))
              (add32 (sigma0 (nth 14 rev_w 0)) (nth 15 rev_w 0)) in
      extend count' (next :: rev_w)
  end.

Definition schedule (block : list Z) : list Z :=
  rev (extend 48 (rev (words_of_block block))).

Definition round (r : Regs) (kw : Z * Z) : Regs :=
  let t1 := add32 (add32 (add32 (rh r) (Sigma1 (re r)))
                          (add32 (Ch (re r) (rf r) (rg r)) (fst kw)))
                  (snd kw) in
  let t2 := add32 (Sigma0 (ra r)) (Maj (ra r) (rb r) (rc r)) in
  {| ra := add32 t1 t2; rb := ra r; rc := rb r; rd := rc r;
     re := add32 (rd r) t1; rf := re r; rg := rf r; rh := rg r |}.

Definition compress (h : Regs) (block : list Z) : Regs :=
  let r := fold_left round (combine K (schedule block)) h in
  {| ra := add32 (ra h) (ra r); rb := add32 (rb h) (rb r);
     rc := add32 (rc h) (rc r); rd := add32 (rd h) (rd r);
     re := add32 (re h) (re r); rf := add32 (rf h) (rf r);
     rg := add32 (rg h) (rg r); rh := add32 (rh h) (rh r) |}.

Definition word_bytes (x : Z) : list byte := map Bytes.of_Z (be_bytes 4 x).

Definition digest (msg : list byte) : list byte :=
  let padded := pad (map Bytes.to_Z msg) in
  let h := fold_left compress (chunks (List.length padded) 64 padded) H0 in
  word_bytes (ra h) ++ word_bytes (rb h) ++ word_bytes (rc h)
  ++ word_bytes (rd h) ++ word_bytes (re h) ++ word_bytes (rf h)
  ++ word_bytes (rg h) ++ word_bytes (rh h).

End Sha256.

(** The [Hash] object of [crypto.createHash('sha256')]: the data fed to it
    is hashed as one message when the digest is asked for. *)
Module Hash.

Definition t : Type := list byte.
Definition createHash : t := [].
Definition update (h : t) (data : list byte) : t := h ++ data.
Definition update_string (h : t) (data : string) : t := update h (Bytes.utf8 data).
Definition digest (h : t) : list byte := Sha256.digest h.

End Hash.

(* ================================================================== *)
(** ** services/tokenService.js (per-token salt, pepper, prefix lookup) *)
(* ================================================================== *)

Module TokenService.

Local Open Scope Z_scope.

(** *** The store *)

(** Row identifiers are opaque and unique (uuids on the wire); each one
    is a truthy value. *)
Definition Id : Type := positive.

Inductive Status : Type := ACTIVE | USED | EXPIRED.

Definition Status_eqb (a b : Status) : bool :=
  match a, b with
  | ACTIVE, ACTIVE | USED, USED | EXPIRED, EXPIRED => true
  | _, _ => false
  end.

(** A row of [tokens]. Instants are milliseconds since the epoch; the
    column [created_at], which the database fills and neither operation
    reads, is left out. *)
Record Token : Type := {
  id : Id;
  account_id : string;
  amount : Z;
  token_hash : list byte;
  salt : list byte;
  prefix : string;
  status : Status;
  expires_at : Z;
  used_at : option Z
}.

(** A row of [transactions], the ledger. *)
Record Transaction : Type := {
  tx_id : Id;
  tx_account_id : string;
  tx_token_id : Id;
  tx_type : string;
  tx_amount : Z;
  tx_status : string
}.

(** A row of [redemption_attempts]; [ra_metadata] is the metadata the
    row keeps as JSON text. *)
Record RedemptionAttempt : Type := {
  ra_token_id : Id;
  ra_agent_id : string;
  ra_result : string;
  ra_metadata : RiskEngine.Metadata
}.

Record Db : Type := {
  tokens : list Token;
  transactions : list Transaction;
  redemption_attempts : list RedemptionAttempt
}.

(** The statements the service sends through knex. *)
Inductive Statement : Type :=
| BEGIN
| COMMIT
| ROLLBACK
| InsertToken (hash salt_ : list byte) (prefix_ : string)
| SelectCandidates (prefix_ : string) (now : Z)
| SelectForUpdate (id_ : Id)
| UpdateUsed (id_ : Id) (now : Z)
| InsertTransaction (token_id : Id)
| InsertAttempt (token_id : Id).

Inductive Level : Type := info | warn | error.

Record LogLine : Type := { level : Level; msg : string }.

(** What the service runs in: the database, the statements issued so far
    with their outcome, the infrastructure failure (connection lost,
    timeout, ...) that the n-th statement meets, the successive readings
    of the clock, the successive outputs of the CSPRNG, and the log. *)
Record World : Type := {
  db : Db;
  issued : list (Issued Statement);
  fault : nat -> option JsError;
  clock : nat -> Z;
  clock_reads : nat;
  random : nat -> nat;
  random_draws : nat;
  log : list LogLine
}.

Definition with_db (d : Db) (w : World) : World :=
  {| db := d; issued := issued w; fault := fault w; clock := clock w;
     clock_reads := clock_reads w; random := random w;
     random_draws := random_draws w; log := log w |}.

Definition record_statement (s : Statement) (e : option JsError) (w : World)
  : World :=
  {| db := db w; issued := issued w ++ [{| stmt := s; failed := e |}];
     fault := fault w; clock := clock w; clock_reads := clock_reads w;
     random := random w; random_draws := random_draws w; log := log w |}.

(** One statement: it fails with the fault the infrastructure has for
    it, or runs on the database. *)
Definition execute {A : Type} (s : Statement) (run : Db -> Outcome A * Db)
  : Eff World A :=
  fun w =>
    match fault w (List.length (issued w)) with
    | Some e => (Throw e, record_statement s (Some e) w)
    | None =>
        match run (db w) with
        | (Return a, d) => (Return a, with_db d (record_statement s None w))
        | (Throw e, d) => (Throw e, with_db d (record_statement s (Some e) w))
        end
    end.

(** [db.transaction(body)]: the effects of [body] on the database are
    kept if it returns and the commit succeeds, dropped otherwise. *)
Definition transaction {A : Type} (body : Eff World A) : Eff World A :=
  fun w =>
    let snapshot := db w in
    match execute BEGIN (fun d => (Return tt, d)) w with
    | (Throw e, w1) => (Throw e, w1)
    | (Return _, w1) =>
        match body w1 with
        | (Return a, w2) =>
            match execute COMMIT (fun d => (Return tt, d)) w2 with
            | (Return _, w3) => (Return a, w3)
            | (Throw e, w3) => (Throw e, with_db snapshot w3)
            end
        | (Throw e, w2) =>
            (Throw e,
             with_db snapshot
               (snd (execute ROLLBACK (fun d => (Return tt, d)) w2)))
        end
    end.

(** [new Date()] and [Date.now()] *)
Definition new_Date : Eff World Z :=
  fun w =>
    (Return (clock w (clock_reads w)),
     {| db := db w; issued := issued w; fault := fault w; clock := clock w;
        clock_reads := S (clock_reads w); random := random w;
        random_draws := random_draws w; log := log w |}).

(** [crypto.randomInt(0, max)] *)
Definition randomInt (max : nat) : Eff World nat :=
  fun w =>
    (Return (Nat.modulo (random w (random_draws w)) max),
     {| db := db w; issued := issued w; fault := fault w; clock := clock w;
        clock_reads := clock_reads w; random := random w;
        random_draws := S (random_draws w); log := log w |}).

(** [crypto.randomBytes(size)] *)
Fixpoint randomBytes (size : nat) : Eff World (list byte) :=
  match size with
  | O => ret []
  | S size' =>
      (b <- randomInt 256 ;;
       rest <- randomBytes size' ;;
       ret (Bytes.of_Z (Z.of_nat b) :: rest))%eff
  end.

Definition logger (l : Level) (m : string) : Eff World unit :=
  fun w =>
    (Return tt,
     {| db := db w; issued := issued w; fault := fault w; clock := clock w;
        clock_reads := clock_reads w; random := random w;
        random_draws := random_draws w;
        log := log w ++ [{| level := l; msg := m |}] |}).

(** [crypto.timingSafeEqual(a, b)] throws on buffers of different
    lengths. *)
Definition timingSafeEqual (a b : list byte) : Eff World bool :=
  if Nat.eqb (List.length a) (List.length b) then ret (Bytes.eqb a b)
  else throw {| code := Some "ERR_CRYPTO_TIMING_SAFE_EQUAL_LENGTH"%string;
                message := "Input buffers must have the same byte length"%string |}.

(** *** The tables *)

Definition fresh_id (ids : list Id) : Id :=
  Pos.succ (fold_right Pos.max 1%positive ids).

(** Postgres reports a violated unique index with code 23505. *)
Definition unique_violation : JsError :=
  {| code := Some "23505"%string;
     message := "duplicate key value violates unique constraint"%string |}.

(** Modelled from the spec: the migration that creates the tables of
    this variant of the service is not among the sources. The
    specification gives [token_hash] a unique index (invariant I3); an
    insert of a hash that a row already holds violates it. *)
Definition token_hash_taken (tokenHash : list byte) (d : Db) : bool :=
  existsb (fun t => Bytes.eqb (token_hash t) tokenHash) (tokens d).

(** [db('tokens').insert({...}).returning('*')]: the row comes back with
    the identifier the database gave it. *)
Definition insert_token (accountId : string) (amount_ : Z)
    (tokenHash salt_ : list byte) (prefix_ : string) (expiresAt : Z)
  : Eff World Token :=
  execute (InsertToken tokenHash salt_ prefix_)
    (fun d =>
       if token_hash_taken tokenHash d
       then (Throw unique_violation, d)
       else
         let row :=
           {| id := fresh_id (map id (tokens d)); account_id := accountId;
              amount := amount_; token_hash := tokenHash; salt := salt_;
              prefix := prefix_; status := ACTIVE; expires_at := expiresAt;
              used_at := None |} in
         (Return row,
          {| tokens := tokens d ++ [row]; transactions := transactions d;
             redemption_attempts := redemption_attempts d |})).

(** [trx('tokens').where({ prefix, status: 'ACTIVE' })
      .andWhere('expires_at', '>', now)] *)
Definition is_candidate (prefix_ : string) (now : Z) (t : Token) : bool :=
  (prefix t =? prefix_)%string && Status_eqb (status t) ACTIVE
  && (now <? expires_at t).

Definition select_candidates (prefix_ : string) (now : Z)
  : Eff World (list Token) :=
  execute (SelectCandidates prefix_ now)
    (fun d => (Return (filter (is_candidate prefix_ now) (tokens d)), d)).

(** [trx('tokens').where({ id }).forUpdate().first()] *)
Definition select_for_update (id_ : Id) : Eff World (option Token) :=
  execute (SelectForUpdate id_)
    (fun d => (Return (find (fun t => Pos.eqb (id t) id_) (tokens d)), d)).

Definition mark_used (id_ : Id) (now : Z) (t : Token) : Token :=
  if Pos.eqb (id t) id_ && Status_eqb (status t) ACTIVE then
    {| id := id t; account_id := account_id t; amount := amount t;
       token_hash := token_hash t; salt := salt t; prefix := prefix t;
       status := USED; expires_at := expires_at t; used_at := Some now |}
  else t.

(** [trx('tokens').where({ id, status: 'ACTIVE' })
      .update({ status: 'USED', used_at: now })] *)
Definition update_used (id_ : Id) (now : Z) : Eff World unit :=
  execute (UpdateUsed id_ now)
    (fun d =>
       (Return tt,
        {| tokens := map (mark_used id_ now) (tokens d);
           transactions := transactions d;
           redemption_attempts := redemption_attempts d |})).

(** [trx('transactions').insert({...}).returning('id')] *)
Definition insert_transaction (t : Token) : Eff World Id :=
  execute (InsertTransaction (id t))
    (fun d =>
       let row :=
         {| tx_id := fresh_id (map tx_id (transactions d));
            tx_account_id := account_id t; tx_token_id := id t;
            tx_type := "WITHDRAWAL"%string; tx_amount := amount t;
            tx_status := "SUCCESS"%string |} in
       (Return (tx_id row),
        {| tokens := tokens d; transactions := transactions d ++ [row];
           redemption_attempts := redemption_attempts d |})).

(** [trx('redemption_attempts').insert({...})] *)
Definition insert_attempt (token_id : Id) (agentId result_ : string)
    (metadata : RiskEngine.Metadata) : Eff World unit :=
  execute (InsertAttempt token_id)
    (fun d =>
       (Return tt,
        {| tokens := tokens d; transactions := transactions d;
           redemption_attempts :=
             redemption_attempts d
             ++ [{| ra_token_id := token_id; ra_agent_id := agentId;
                    ra_result := result_; ra_metadata := metadata |}] |})).

(** *** The service *)

(** [config.token] and the uuid test of Joi, which is the library's. *)
Record Env : Type := {
  pepper : string;
  expirySeconds : Z;
  joi_uuid : string -> bool
}.

Definition charset : string := "ABCDEFGHIJKLMNOPQRSTUVWXYZ0123456789".

Definition MAX_RETRIES : nat := 3.

(** [generateRandomToken(length)] *)
Fixpoint generateRandomToken (length : nat) : Eff World string :=
  match length with
  | O => ret ""%string
  | S length' =>
      (randomIndex <- randomInt (String.length charset) ;;
       rest <- generateRandomToken length' ;;
       ret (match String.get randomIndex charset with
            | Some c => String c rest
            | None => rest
            end))%eff
  end.

(** [hashToken(plaintextToken, salt)] *)
Definition hashToken (env : Env) (plaintextToken : string) (salt_ : list byte)
  : list byte :=
  Hash.digest
    (Hash.update
       (Hash.update_string
          (Hash.update_string Hash.createHash (pepper env))
          plaintextToken)
       salt_).

(** [validateGenerationParams(accountId, amount)]: the message of the
    error, if any. The amount is an integer by its type. *)
Definition validateGenerationParams (env : Env) (accountId : string)
    (amount_ : Z) : option string :=
  if negb (joi_uuid env accountId) then
    Some "accountId must be a valid GUID"%string
  else if amount_ <=? 0 then
    Some "amount must be a positive number"%string
  else None.

Record Minted : Type := {
  minted_id : Id;
  token : string;
  minted_amount : Z;
  expiresAt : Z
}.

Definition is_unique_violation (err : JsError) : bool :=
  match code err with
  | Some c => (c =? "23505")%string
  | None => false
  end.

Definition exhausted : JsError :=
  {| code := None;
     message := "Failed to generate unique token after maximum retries"%string |}.

(** The body of the [try] block of the minting loop. *)
Definition attempt (env : Env) (accountId : string) (amount_ : Z)
  : Eff World (option Minted) :=
  (coreToken <- generateRandomToken 8 ;;
   tokenIdPrefix <- generateRandomToken 4 ;;
   let plaintextToken := (tokenIdPrefix ++ "-" ++ coreToken)%string in
   salt_ <- randomBytes 16 ;;
   let tokenHash := hashToken env plaintextToken salt_ in
   now <- new_Date ;;
   let expiresAt_ := now + expirySeconds env * 1000 in
   tokenRecord <- insert_token accountId amount_ tokenHash salt_
                               tokenIdPrefix expiresAt_ ;;
   logger info "Withdrawal token generated successfully" ;;
   ret (Some {| minted_id := id tokenRecord; token := plaintextToken;
                minted_amount := amount_; expiresAt := expiresAt_ |}))%eff.

(** [while (retries < this.MAX_RETRIES) { try {...} catch (err) {...} }];
    a function that leaves the loop returns undefined. Every turn that
    does not leave raises [retries], so [MAX_RETRIES] turns are all the
    loop can take. *)
Fixpoint retry_loop (env : Env) (accountId : string) (amount_ : Z)
    (turns retries : nat) : Eff World (option Minted) :=
  match turns with
  | O => ret None
  | S turns' =>
      if Nat.ltb retries MAX_RETRIES then
        try_catch (attempt env accountId amount_)
          (fun err =>
             if is_unique_violation err then
               (logger warn "Token Hash Collision detected, retrying" ;;
                if Nat.leb MAX_RETRIES (S retries) then throw exhausted
                else retry_loop env accountId amount_ turns' (S retries))%eff
             else
               (logger error "Error generating withdrawal token" ;;
                throw err)%eff)
      else ret None
  end.

(** [generateWithdrawalToken(accountId, amount)] *)
Definition generateWithdrawalToken (env : Env) (accountId : string)
    (amount_ : Z) : Eff World (option Minted) :=
  match validateGenerationParams env accountId amount_ with
  | Some m =>
      let msg_ := ("Invalid token generation params: " ++ m)%string in
      (logger warn msg_ ;; throw {| code := None; message := msg_ |})%eff
  | None => retry_loop env accountId amount_ MAX_RETRIES 0
  end.

Inductive ResultTag : Type := SUCCESS | INVALID | EXPIRED_OR_USED.

Record Redemption : Type := {
  result : ResultTag;
  tokenId : option Id;
  transactionId : option Id
}.

Definition only (r : ResultTag) : Redemption :=
  {| result := r; tokenId := None; transactionId := None |}.

Definition dash : ascii := "-"%char.

(** [s.includes('-')] *)
Fixpoint includes_dash (s : string) : bool :=
  match s with
  | EmptyString => false
  | String c rest => Ascii.eqb c dash || includes_dash rest
  end.

(** [s.split('-')] *)
Fixpoint split_dash (s : string) : list string :=
  match s with
  | EmptyString => [EmptyString]
  | String c rest =>
      if Ascii.eqb c dash then EmptyString :: split_dash rest
      else match split_dash rest with
           | piece :: pieces => String c piece :: pieces
           | [] => [String c EmptyString]
           end
  end.

(** The two guards that open [redeemWithdrawalToken]: a truthy token
    that includes a dash, a truthy agent, and the first two pieces of
    the token of 4 and 8 characters. *)
Definition well_shaped (fullToken agentId : string) : bool :=
  negb (fullToken =? "")%string && includes_dash fullToken
  && negb (agentId =? "")%string
  && match split_dash fullToken with
     | prefix_ :: coreToken :: _ =>
         Nat.eqb (String.length prefix_) 4
         && Nat.eqb (String.length coreToken) 8
     | _ => false
     end.

(** The loop over the candidates, left at the first match. *)
Fixpoint first_match (env : Env) (fullToken : string)
    (candidateTokens : list Token) : Eff World (option Id) :=
  match candidateTokens with
  | [] => ret None
  | t :: rest =>
      (same <- timingSafeEqual (hashToken env fullToken (salt t))
                               (token_hash t) ;;
       if same then ret (Some (id t))
       else first_match env fullToken rest)%eff
  end.

(** The re-check under the row lock; the clock is read only for a row
    that is there and ACTIVE. *)
Definition still_redeemable (found : option Token) : Eff World (option Token) :=
  match found with
  | None => ret None
  | Some t =>
      if negb (Status_eqb (status t) ACTIVE) then ret None
      else (now <- new_Date ;;
            if expires_at t <=? now then ret None else ret (Some t))%eff
  end.

(** The callback of the transaction of [redeemWithdrawalToken]. *)
Definition redeem_in_transaction (env : Env) (fullToken prefix_ agentId : string)
    (metadata : RiskEngine.Metadata) : Eff World Redemption :=
  (now <- new_Date ;;
   candidateTokens <- select_candidates prefix_ now ;;
   matchedTokenId <- first_match env fullToken candidateTokens ;;
   match matchedTokenId with
   | None =>
       logger warn "Failed redemption attempt: INVALID token / hash mismatch" ;;
       ret (only INVALID)
   | Some matched =>
       found <- select_for_update matched ;;
       live <- still_redeemable found ;;
       match live with
       | None => ret (only EXPIRED_OR_USED)
       | Some t =>
           usedAt <- new_Date ;;
           update_used (id t) usedAt ;;
           transaction_id <- insert_transaction t ;;
           insert_attempt (id t) agentId "SUCCESS" metadata ;;
           logger info "Token successfully redeemed" ;;
           ret {| result := SUCCESS; tokenId := Some (id t);
                  transactionId := Some transaction_id |}
       end
   end)%eff.

(** [redeemWithdrawalToken(fullToken, agentId, metadata)]. A null or
    undefined argument is falsy like the empty string. *)
Definition redeemWithdrawalToken (env : Env) (fullToken agentId : string)
    (metadata : RiskEngine.Metadata) : Eff World Redemption :=
  if negb (fullToken =? "")%string && includes_dash fullToken
     && negb (agentId =? "")%string
  then
    match split_dash fullToken with
    | prefix_ :: coreToken :: _ =>
        if Nat.eqb (String.length prefix_) 4
           && Nat.eqb (String.length coreToken) 8
        then transaction
               (redeem_in_transaction env fullToken prefix_ agentId metadata)
        else ret (only INVALID)
    | _ => throw {| code := None;
                    message := "Cannot read properties of undefined"%string |}
    end
  else ret (only INVALID).

(** The pattern [^[A-Z0-9]{4}-[A-Z0-9]{8}$] of the redeem route. *)
Definition upper_or_digit (c : ascii) : bool :=
  let n := N_of_ascii c in
  ((65 <=? n) && (n <=? 90) || (48 <=? n) && (n <=? 57))%N.

Definition all_upper_or_digit (s : string) : bool :=
  forallb upper_or_digit (list_ascii_of_string s).

Definition matches_token_pattern (s : string) : bool :=
  Nat.eqb (String.length s) 13
  && all_upper_or_digit (substring 0 4 s)
  && match String.get 4 s with
     | Some c => Ascii.eqb c dash
     | None => false
     end
  && all_upper_or_digit (substring 5 8 s).

(** *** Notions used to state the properties of the service *)

Definition verifies (env : Env) (fullToken : string) (t : Token) : bool :=
  Bytes.eqb (hashToken env fullToken (salt t)) (token_hash t).

Definition ledger_row (d : Db) (t : Token) : Transaction :=
  {| tx_id := fresh_id (map tx_id (transactions d));
     tx_account_id := account_id t; tx_token_id := id t;
     tx_type := "WITHDRAWAL"%string; tx_amount := amount t;
     tx_status := "SUCCESS"%string |}.

Definition evidence_row (t : Token) (agentId : string)
    (metadata : RiskEngine.Metadata) : RedemptionAttempt :=
  {| ra_token_id := id t; ra_agent_id := agentId;
     ra_result := "SUCCESS"%string; ra_metadata := metadata |}.

(** The database after the three writes of a successful redemption of
    the row [t] at the instant [now]. *)
Definition redeemed (d : Db) (t : Token) (now : Z) (agentId : string)
    (metadata : RiskEngine.Metadata) : Db :=
  {| tokens := map (mark_used (id t) now) (tokens d);
     transactions := transactions d ++ [ledger_row d t];
     redemption_attempts :=
       redemption_attempts d ++ [evidence_row t agentId metadata] |}.

Definition scan_time (w : World) : Z := clock w (clock_reads w).
Definition lock_time (w : World) : Z := clock w (S (clock_reads w)).
Definition use_time (w : World) : Z := clock w (S (S (clock_reads w))).

Inductive redeem_case (env : Env) (fullToken prefix_ agentId : string)
    (metadata : RiskEngine.Metadata) (w : World) (r : Redemption) (d' : Db)
  : Prop :=
| case_invalid :
    r = only INVALID -> d' = db w ->
    redeem_case env fullToken prefix_ agentId metadata w r d'
| case_expired_or_used :
    r = only EXPIRED_OR_USED -> d' = db w ->
    redeem_case env fullToken prefix_ agentId metadata w r d'
| case_success (c t : Token) :
    In c (tokens (db w)) ->
    is_candidate prefix_ (scan_time w) c = true ->
    verifies env fullToken c = true ->
    find (fun x => Pos.eqb (id x) (id c)) (tokens (db w)) = Some t ->
    status t = ACTIVE ->
    lock_time w < expires_at t ->
    r = {| result := SUCCESS; tokenId := Some (id t);
           transactionId := Some (tx_id (ledger_row (db w) t)) |} ->
    d' = redeemed (db w) t (use_time w) agentId metadata ->
    redeem_case env fullToken prefix_ agentId metadata w r d'.

Definition no_faults (w : World) : Prop := forall n, fault w n = None.

(** Every stored hash is a SHA-256 digest of 32 bytes. *)
Definition hashes_ok (d : Db) : Prop :=
  Forall (fun t => List.length (token_hash t) = 32%nat) (tokens d).

(** The result and the database of a redemption, from the database it
    starts on and the three readings of the clock. *)
Definition redeem_outcome (env : Env) (d : Db) (fullToken prefix_ agentId : string)
    (metadata : RiskEngine.Metadata) (now1 now2 now3 : Z)
  : Redemption * Db :=
  match find (verifies env fullToken)
             (filter (is_candidate prefix_ now1) (tokens d)) with
  | None => (only INVALID, d)
  | Some c =>
      match find (fun x => Pos.eqb (id x) (id c)) (tokens d) with
      | None => (only EXPIRED_OR_USED, d)
      | Some t =>
          if Status_eqb (status t) ACTIVE && negb (expires_at t <=? now2)
          then ({| result := SUCCESS; tokenId := Some (id t);
                   transactionId := Some (tx_id (ledger_row d t)) |},
                redeemed d t now3 agentId metadata)
          else (only EXPIRED_OR_USED, d)
      end
  end.

(** The string and the bytes that [generateRandomToken] and
    [randomBytes] read off the stream [rnd] from the position [pos]. *)
Fixpoint drawn_token (rnd : nat -> nat) (pos len : nat) : string :=
  match len with
  | O => EmptyString
  | S len' =>
      match String.get (Nat.modulo (rnd pos) (String.length charset)) charset with
      | Some c => String c (drawn_token rnd (S pos) len')
      | None => drawn_token rnd (S pos) len'
      end
  end.

Fixpoint drawn_bytes (rnd : nat -> nat) (pos len : nat) : list byte :=
  match len with
  | O => []
  | S len' =>
      Bytes.of_Z (Z.of_nat (Nat.modulo (rnd pos) 256))
      :: drawn_bytes rnd (S pos) len'
  end.

Definition core_at (rnd : nat -> nat) (pos : nat) : string :=
  drawn_token rnd pos 8.
Definition prefix_at (rnd : nat -> nat) (pos : nat) : string :=
  drawn_token rnd (8 + pos) 4.
Definition salt_at (rnd : nat -> nat) (pos : nat) : list byte :=
  drawn_bytes rnd (12 + pos) 16.
Definition plaintext_at (rnd : nat -> nat) (pos : nat) : string :=
  (prefix_at rnd pos ++ "-" ++ core_at rnd pos)%string.
Definition hash_at (env : Env) (rnd : nat -> nat) (pos : nat) : list byte :=
  hashToken env (plaintext_at rnd pos) (salt_at rnd pos).

(** The insert of an attempt that starts at the position [pos] of the
    stream: 8 draws for the core, 4 for the prefix, 16 for the salt. *)
Definition fresh_insert (env : Env) (rnd : nat -> nat) (pos : nat) : Statement :=
  InsertToken (hash_at env rnd pos) (salt_at rnd pos) (prefix_at rnd pos).

Definition draws_per_attempt : nat := 28.

(** The world after [n] more draws. *)
Definition drew (n : nat) (w : World) : World :=
  {| db := db w; issued := issued w; fault := fault w; clock := clock w;
     clock_reads := clock_reads w; random := random w;
     random_draws := n + random_draws w; log := log w |}.

(** The world of an attempt when its insert is sent. *)
Definition drawn (w : World) : World :=
  {| db := db w; issued := issued w; fault := fault w; clock := clock w;
     clock_reads := S (clock_reads w); random := random w;
     random_draws := draws_per_attempt + random_draws w; log := log w |}.

Definition expiry_at (env : Env) (w : World) : Z :=
  clock w (clock_reads w) + expirySeconds env * 1000.

(** The row and the answer of an attempt of [w] whose insert succeeds. *)
Definition row_of (env : Env) (accountId : string) (amount_ : Z) (w : World)
  : Token :=
  {| id := fresh_id (map id (tokens (db w))); account_id := accountId;
     amount := amount_;
     token_hash := hash_at env (random w) (random_draws w);
     salt := salt_at (random w) (random_draws w);
     prefix := prefix_at (random w) (random_draws w);
     status := ACTIVE; expires_at := expiry_at env w; used_at := None |}.

Definition minted_of (env : Env) (amount_ : Z) (w : World) : Minted :=
  {| minted_id := fresh_id (map id (tokens (db w)));
     token := plaintext_at (random w) (random_draws w);
     minted_amount := amount_; expiresAt := expiry_at env w |}.

Definition add_token (d : Db) (row : Token) : Db :=
  {| tokens := tokens d ++ [row]; transactions := transactions d;
     redemption_attempts := redemption_attempts d |}.

(** An attempt that was retried: its insert came back with the code of a
    unique violation. *)
Definition collided (i : Issued Statement) : Prop :=
  exists e, failed i = Some e /\ is_unique_violation e = true.

End TokenService.

(* ================================================================== *)
(** ** middleware/rateLimiter.js *)
(* ================================================================== *)

Module RateLimiter.

Local Open Scope Z_scope.

(** *** Redis: sorted sets and expirations *)

(** A sorted set is the list of its members with their scores. *)
Record Redis : Type := {
  zsets : list (string * list (string * Z));
  expirations : list (string * Z)
}.

Inductive Command : Type :=
| ZREMRANGEBYSCORE (key : string) (min max : Z)
| ZCARD (key : string)
| TTL (key : string)
| ZADD (key : string) (score : Z) (member : string)
| EXPIRE (key : string) (seconds : Z)
| ZREM (key : string) (member : string).

Fixpoint lookup {A : Type} (key : string) (l : list (string * A)) : option A :=
  match l with
  | [] => None
  | (k, v) :: rest => if (k =? key)%string then Some v else lookup key rest
  end.

Fixpoint store {A : Type} (key : string) (v : A) (l : list (string * A))
  : list (string * A) :=
  match l with
  | [] => [(key, v)]
  | (k, v') :: rest =>
      if (k =? key)%string then (key, v) :: rest
      else (k, v') :: store key v rest
  end.

Definition members (r : Redis) (key : string) : list (string * Z) :=
  match lookup key (zsets r) with
  | Some s => s
  | None => []
  end.

Fixpoint remove {A : Type} (key : string) (l : list (string * A))
  : list (string * A) :=
  match l with
  | [] => []
  | (k, v) :: rest =>
      if (k =? key)%string then remove key rest
      else (k, v) :: remove key rest
  end.

(** The sorted set of a key is given new members; a sorted set that is
    left without a member is removed, and its expiration with it. *)
Definition set_members (r : Redis) (key : string) (s : list (string * Z))
  : Redis :=
  match s with
  | [] => {| zsets := remove key (zsets r);
             expirations := remove key (expirations r) |}
  | _ :: _ => {| zsets := store key s (zsets r);
                 expirations := expirations r |}
  end.

Definition in_range (min max : Z) (m : string * Z) : bool :=
  (min <=? snd m) && (snd m <=? max).

(** The answer and the effect of a command. Redis keeps no clock of
    its own here: TTL answers the seconds that EXPIRE has set, and no
    key is removed for its age; the entries that an expiration would
    take away are older than the window, and the middleware removes
    those itself. *)
Definition run (c : Command) (r : Redis) : Z * Redis :=
  match c with
  | ZREMRANGEBYSCORE key min max =>
      (Z.of_nat (List.length (filter (in_range min max) (members r key))),
       set_members r key
         (filter (fun m => negb (in_range min max m)) (members r key)))
  | ZCARD key => (Z.of_nat (List.length (members r key)), r)
  | TTL key =>
      (match lookup key (zsets r) with
       | None => -2
       | Some _ =>
           match lookup key (expirations r) with
           | Some seconds => seconds
           | None => -1
           end
       end, r)
  | ZADD key score member =>
      let others :=
        filter (fun m => negb (fst m =? member)%string) (members r key) in
      ((if existsb (fun m => (fst m =? member)%string) (members r key)
        then 0 else 1),
       set_members r key (others ++ [(member, score)]))
  | EXPIRE key seconds =>
      match lookup key (zsets r) with
      | None => (0, r)
      | Some _ =>
          (1, {| zsets := zsets r;
                 expirations := store key seconds (expirations r) |})
      end
  | ZREM key member =>
      (Z.of_nat (List.length
                   (filter (fun m => (fst m =? member)%string) (members r key))),
       set_members r key
         (filter (fun m => negb (fst m =? member)%string) (members r key)))
  end.

(** *** Request, reply and log *)

Record Request : Type := {
  request_id : option string;
  ip : string;
  routerPath : option string;
  url : string;
  method : string
}.

(** The body of the 429 answer. *)
Record TooManyRequests : Type := {
  retryAfter : Z;
  limit : Z;
  window : Z
}.

Inductive HeaderValue : Type :=
| Number (n : Z)
| IsoDate (instant : Z).

(** The reply: its status code, what was sent if anything, its headers,
    and the entries that the wrapped [send] is to remove from Redis. *)
Record Reply : Type := {
  statusCode : Z;
  sent : option TooManyRequests;
  headers : list (string * HeaderValue);
  remove_on_success : list (string * string)
}.

(** The levels of pino: those of its methods, and [silent]. *)
Inductive Level : Type := trace | debug | info | warn | error | fatal | silent.
Inductive EventType : Type := SYSTEM | SECURITY | BUSINESS | ERROR.

Record LogLine : Type := {
  level : Level;
  event_type : EventType;
  msg : string
}.

(** What the middleware runs in: Redis, the commands sent so far with
    their outcome, the failure that the n-th command meets if Redis is
    unreachable then, the reading of [Date.now()], the next
    [crypto.randomUUID()], the level of the logger of utils/logger.js
    ([process.env.LOG_LEVEL || 'info']), the lines that the logger has
    written, and the reply. *)
Record World : Type := {
  redis : Redis;
  issued : list (Issued Command);
  fault : nat -> option JsError;
  now : Z;
  randomUUID : string;
  logger_level : Level;
  log : list LogLine;
  reply : Reply
}.

(** One command on the Redis client. *)
Definition command (c : Command) : Eff World Z :=
  fun w =>
    match fault w (List.length (issued w)) with
    | Some e =>
        (Throw e,
         {| redis := redis w;
            issued := issued w ++ [{| stmt := c; failed := Some e |}];
            fault := fault w; now := now w; randomUUID := randomUUID w;
            logger_level := logger_level w; log := log w;
            reply := reply w |})
    | None =>
        (Return (fst (run c (redis w))),
         {| redis := snd (run c (redis w));
            issued := issued w ++ [{| stmt := c; failed := None |}];
            fault := fault w; now := now w; randomUUID := randomUUID w;
            logger_level := logger_level w; log := log w;
            reply := reply w |})
    end.

(** The value of a level in pino; [None] is the [Infinity] of [silent]. *)
Definition level_value (l : Level) : option Z :=
  match l with
  | trace => Some 10
  | debug => Some 20
  | info => Some 30
  | warn => Some 40
  | error => Some 50
  | fatal => Some 60
  | silent => None
  end.

(** Whether the method [logger[l]] of a pino logger of level [threshold]
    is pino's [noop]: that is the method of every level below the level
    of the logger, and [logger.silent] at every level. *)
Definition is_noop (threshold l : Level) : bool :=
  match level_value l with
  | None => true
  | Some v =>
      match level_value threshold with
      | None => true
      | Some t => v <? t
      end
  end.

(** The TypeError of a method of pino that is called as a plain
    function: a method that is not [noop] reads its logger through
    [this], which is undefined in such a call. *)
Definition detached_call : JsError :=
  {| code := None; message := "Cannot read properties of undefined" |}.

(** [logSecurity(level, message, context)] of utils/logger.js:
    [const logFn = logger[level] || logger.warn; logFn({...}, message)].
    The method is taken off the logger and called without it, so it
    writes no line: it does nothing when it is [noop] and throws
    otherwise. *)
Definition logSecurity (l : Level) (message_ : string) : Eff World unit :=
  fun w =>
    if is_noop (logger_level w) l then (Return tt, w)
    else (Throw detached_call, w).

(** The instants that a [Date] holds: 100 million days on either side
    of the epoch. *)
Definition latest_date : Z := 8640000000000000.

(** [Number.MAX_SAFE_INTEGER]: up to it, the sums and differences of
    whole numbers are exact. *)
Definition max_safe_integer : Z := 9007199254740991.

Definition is_date (instant : Z) : bool :=
  (- latest_date <=? instant) && (instant <=? latest_date).

(** The RangeError of [toISOString] on a [Date] that holds no instant. *)
Definition invalid_time : JsError :=
  {| code := None; message := "Invalid time value" |}.

(** [new Date(instant).toISOString()] *)
Definition toISOString (instant : Z) : Eff World HeaderValue :=
  fun w =>
    if is_date instant then (Return (IsoDate instant), w)
    else (Throw invalid_time, w).

Definition with_reply (f : Reply -> Reply) : Eff World unit :=
  fun w =>
    (Return tt,
     {| redis := redis w; issued := issued w; fault := fault w; now := now w;
        randomUUID := randomUUID w; logger_level := logger_level w;
        log := log w; reply := f (reply w) |}).

(** [reply.status(code)] *)
Definition reply_status (code_ : Z) : Eff World unit :=
  with_reply (fun r => {| statusCode := code_; sent := sent r;
                          headers := headers r;
                          remove_on_success := remove_on_success r |}).

(** [reply.send(payload)] with the payload of the 429 answer. *)
Definition reply_send (payload : TooManyRequests) : Eff World unit :=
  with_reply (fun r => {| statusCode := statusCode r; sent := Some payload;
                          headers := headers r;
                          remove_on_success := remove_on_success r |}).

(** [reply.header(name, value)] *)
Definition reply_header (name : string) (v : HeaderValue) : Eff World unit :=
  with_reply (fun r => {| statusCode := statusCode r; sent := sent r;
                          headers := headers r ++ [(name, v)];
                          remove_on_success := remove_on_success r |}).

(** The replacement of [reply.send] by a function that first removes the
    entry of the request when the status is below 400. *)
Definition wrap_send (key requestId : string) : Eff World unit :=
  with_reply (fun r => {| statusCode := statusCode r; sent := sent r;
                          headers := headers r;
                          remove_on_success :=
                            remove_on_success r ++ [(key, requestId)] |}).

(** *** Async functions over Redis *)

(** An [async] function that has run as far as it can: to its end, or
    to an [await] of a Redis command, from whose outcome it goes on.
    Between the two, other requests may run. *)
Inductive Async (A : Type) : Type :=
| Settled (o : Outcome A)
| Awaiting (c : Command) (k : Outcome Z -> World -> Async A * World).
Arguments Settled {A} o.
Arguments Awaiting {A} c k.

Definition Run (A : Type) : Type := World -> Async A * World.

(** [await redis.c(...)] inside a [try] block whose [catch] block is
    [caught]. *)
Definition await {A : Type} (c : Command) (caught : JsError -> Run A)
    (k : Z -> Run A) : Run A :=
  fun w =>
    (Awaiting c (fun r => match r with
                          | Return z => k z
                          | Throw e => caught e
                          end),
     w).

(** The statements without an [await] that end that [try] block. *)
Definition closing {A : Type} (caught : JsError -> Run A) (m : Eff World A)
  : Run A :=
  fun w =>
    match m w with
    | (Return a, w') => (Settled (Return a), w')
    | (Throw e, w') => caught e w'
    end.

(** The statements without an [await] that end the function. *)
Definition settle {A : Type} (m : Eff World A) : Run A :=
  fun w => let (o, w') := m w in (Settled o, w').

(** The function from an [await] on, when nothing else runs before it
    has ended. *)
Fixpoint finish {A : Type} (a : Async A) (w : World) : Outcome A * World :=
  match a with
  | Settled o => (o, w)
  | Awaiting c k =>
      let (r, w1) := command c w in
      let (a', w2) := k r w1 in
      finish a' w2
  end.

(** An [async] function run from its call to its end with nothing in
    between. *)
Definition alone {A : Type} (f : Run A) : Eff World A :=
  fun w => let (a, w1) := f w in finish a w1.

(** *** The middleware *)

(** [config.rateLimit] *)
Record Config : Type := {
  config_windowMs : Z;
  config_maxRequests : Z;
  config_skipSuccessfulRequests : bool
}.

(** The options of [createRateLimiter]; a missing one takes its
    default. *)
Record Options : Type := {
  windowMs : option Z;
  maxRequests : option Z;
  keyGenerator : option (Request -> string);
  skipSuccessfulRequests : option bool
}.

Definition or_else {A : Type} (o : option A) (d : A) : A :=
  match o with
  | Some a => a
  | None => d
  end.

(** [request.routerPath || request.url] *)
Definition path_of (request : Request) : string :=
  Js.or_default (routerPath request) (url request).

Definition default_key (request : Request) : string :=
  ("rate_limit:" ++ ip request ++ ":" ++ path_of request)%string.

(** [Math.ceil(ms / 1000)] on whole milliseconds. *)
Definition ceil_seconds (ms : Z) : Z := (ms + 999) / 1000.

(** [createRateLimiter(options)]: the middleware it returns, on a
    request. Whatever is thrown in the [try] block, by a command of
    Redis, by [toISOString] or by [logSecurity], is caught; what the
    [catch] block throws is thrown by the middleware. *)
Definition createRateLimiter (config : Config) (options : Options)
    (request : Request) : Run unit :=
  let window_ := or_else (windowMs options) (config_windowMs config) in
  let max_ := or_else (maxRequests options) (config_maxRequests config) in
  let generate := or_else (keyGenerator options) default_key in
  let skip := or_else (skipSuccessfulRequests options)
                      (config_skipSuccessfulRequests config) in
  fun w =>
    let key := generate request in
    let now_ := now w in
    let windowStart := now_ - window_ in
    let caught := fun _ : JsError =>
      settle (logSecurity error "Rate limiter Redis error") in
    await (ZREMRANGEBYSCORE key 0 windowStart) caught (fun _ =>
    await (ZCARD key) caught (fun currentCount =>
      if max_ <=? currentCount then
        await (TTL key) caught (fun ttl =>
          let resetTime := now_ + (if 0 <? ttl then ttl * 1000 else window_) in
          closing caught
            (_ <- toISOString resetTime ;;
             logSecurity warn "Rate limit exceeded" ;;
             reply_status 429 ;;
             reply_send {| retryAfter := ceil_seconds (resetTime - now_);
                           limit := max_; window := window_ |})%eff)
      else
        fun w' =>
          let requestId :=
            Js.or_default (request_id request) (randomUUID w') in
          await (ZADD key now_ requestId) caught (fun _ =>
          await (EXPIRE key (ceil_seconds window_)) caught (fun _ =>
            closing caught
              (reply_header "X-RateLimit-Limit" (Number max_) ;;
               reply_header "X-RateLimit-Remaining"
                 (Number (Z.max 0 (max_ - currentCount - 1))) ;;
               reset <- toISOString (now_ + window_) ;;
               reply_header "X-RateLimit-Reset" reset ;;
               if skip then wrap_send key requestId else ret tt)%eff))
          w')) w.

(** [strictRateLimiter] *)
Definition strict_options : Options :=
  {| windowMs := Some 60000; maxRequests := Some 10; keyGenerator := None;
     skipSuccessfulRequests := None |}.

(** The wrapped [reply.send] that the handler calls: the removals are
    sent for a status below 400, and their failures are ignored. *)
Fixpoint remove_entries (entries : list (string * string)) : Eff World unit :=
  match entries with
  | [] => ret tt
  | (key, requestId) :: rest =>
      (try_catch (_ <- command (ZREM key requestId) ;; ret tt)
                 (fun _ => ret tt) ;;
       remove_entries rest)%eff
  end.

Definition wrapped_send : Eff World unit :=
  fun w =>
    if statusCode (reply w) <? 400
    then remove_entries (remove_on_success (reply w)) w
    else (Return tt, w).

(** An [onRequest] hook of Fastify, as server.js registers the limiter:
    when the hook has returned, the request goes on to its handler
    unless the hook has sent the reply; when the hook has thrown, the
    request does not reach its handler. *)
Definition onRequest (hook handler : Eff World unit) : Eff World unit :=
  (hook ;;
   fun w => match sent (reply w) with
            | Some _ => (Return tt, w)
            | None => handler w
            end)%eff.

(** *** Notions used to state the properties of the middleware *)

(** The commands sent between two worlds. *)
Definition commands_since (w w' : World) : list (Issued Command) :=
  skipn (List.length (issued w)) (issued w').

Definition has_failed (i : Issued Command) : Prop := failed i <> None.

Definition fresh_reply : Reply :=
  {| statusCode := 200; sent := None; headers := [];
     remove_on_success := [] |}.

Definition unreachable : JsError :=
  {| code := Some "ECONNREFUSED"%string;
     message := "connect ECONNREFUSED 127.0.0.1:6379"%string |}.

(** A run on which Redis is down from the second command on, with the
    logger at its default level. *)
Definition outage : World :=
  {| redis := {| zsets := []; expirations := [] |}; issued := [];
     fault := fun n => match n with
                       | O => None
                       | _ => Some unreachable
                       end;
     now := 1700000000000; randomUUID := "2f1c0f0e-0000-4000-8000-000000000001";
     logger_level := info; log := []; reply := fresh_reply |}.

Definition a_request : Request :=
  {| request_id := Some "req-1"%string; ip := "203.0.113.7";
     routerPath := Some "/tokens/redeem"%string; url := "/tokens/redeem";
     method := "POST" |}.

Definition the_config : Config :=
  {| config_windowMs := 60000; config_maxRequests := 100;
     config_skipSuccessfulRequests := false |}.

End RateLimiter.

(* ================================================================== *)
(** ** A concrete run: one account, an empty database *)
(* ================================================================== *)

Module Scenario.

Import TokenService.
Local Open Scope Z_scope.

(** The canonical form of a uuid: 36 characters with dashes after the
    8th, 13th, 18th and 23rd. *)
Definition canonical_uuid (s : string) : bool :=
  Nat.eqb (String.length s) 36
  && forallb (fun i => match String.get i s with
                       | Some c => Ascii.eqb c dash
                       | None => false
                       end) [8; 13; 18; 23]%nat.

Definition env0 : Env :=
  {| pepper := "process-wide-pepper"; expirySeconds := 300;
     joi_uuid := canonical_uuid |}.

Definition account : string := "a1111111-1111-1111-1111-111111111111".

Definition empty_db : Db :=
  {| tokens := []; transactions := []; redemption_attempts := [] |}.

(** The readings of a clock that advances by a second each time, and
    the outputs of the generator. *)
Definition readings : list Z :=
  map (fun n => 1700000000000 + 1000 * Z.of_nat n) (seq 0 16).

Definition outputs : list nat :=
  map (fun n => (7 * n + 3)%nat) (seq 0 96).

(** A world that meets no fault. *)
Definition w0 : World :=
  {| db := empty_db; issued := []; fault := fun _ => None;
     clock := fun n => nth n readings 1700000016000; clock_reads := 0;
     random := fun n => nth n outputs 0%nat; random_draws := 0; log := [] |}.

Definition minting : Outcome (option Minted) * World :=
  generateWithdrawalToken env0 account 200 w0.

Definition w1 : World := snd minting.

Definition minted0 : Minted := minted_of env0 200 w0.

Definition first_redeem : Outcome Redemption * World :=
  redeemWithdrawalToken env0 (token minted0) "atm-1" RiskEngine.no_metadata w1.

Definition second_redeem : Outcome Redemption * World :=
  redeemWithdrawalToken env0 (token minted0) "atm-1" RiskEngine.no_metadata
    (snd first_redeem).

(** The world after the minting, with a clock that stands at the instant
    [now] for the first [early] readings and at [later] from then on. *)
Definition at_instants (early : nat) (now later : Z) : World :=
  {| db := db w1; issued := issued w1; fault := fun _ => None;
     clock := fun n => if Nat.ltb n early then now else later;
     clock_reads := 0; random := random w1;
     random_draws := random_draws w1; log := log w1 |}.

(** Every reading is the instant of expiry itself. *)
Definition at_expiry : World :=
  at_instants 0 (expiresAt minted0) (expiresAt minted0).

(** The scan reads the last millisecond before expiry, the re-check
    under the lock the instant of expiry. *)
Definition across_expiry : World :=
  at_instants 1 (expiresAt minted0 - 1) (expiresAt minted0).

(** Three inserts that all come back with a unique violation, and one
    that loses its connection. *)
Definition colliding : World :=
  {| db := empty_db; issued := [];
     fault := fun _ => Some unique_violation;
     clock := clock w0; clock_reads := 0; random := random w0;
     random_draws := 0; log := [] |}.

Definition connection_lost : JsError :=
  {| code := Some "ECONNRESET"%string; message := "read ECONNRESET"%string |}.

Definition disconnected : World :=
  {| db := empty_db; issued := [];
     fault := fun n => match n with
                       | O => Some unique_violation
                       | _ => Some connection_lost
                       end;
     clock := clock w0; clock_reads := 0; random := random w0;
     random_draws := 0; log := [] |}.

(** The row of the minted token. *)
Definition row0 : Token := row_of env0 account 200 w0.

End Scenario.

(* ================================================================== *)
(** ** Histories of the token service and what they keep *)
(* ================================================================== *)

Module History.

Import TokenService.
Local Open Scope Z_scope.

(** A ledger entry of the amount and of the account of a token. *)
Definition backs (tx : Transaction) (t : Token) : Prop :=
tx_token_id tx = id t /\ tx_amount tx = amount t
/\ tx_account_id tx = account_id t /\ tx_type tx = "WITHDRAWAL"%string
/\ tx_status tx = "SUCCESS"%string.

(** The shape that the two operations keep the database in: identifiers
  and hashes of tokens are unique, so are the identifiers of the ledger
  entries, the ledger holds at most one entry per token, every entry is
  for a token that is there and USED, every USED token has its entry,
  [used_at] is set on the USED tokens only, and the attempts recorded
  are those of the ledger entries, in the same order. *)
Record consistent (d : Db) : Prop := {
unique_ids : NoDup (map id (tokens d));
unique_hashes : NoDup (map token_hash (tokens d));
unique_entry_ids : NoDup (map tx_id (transactions d));
one_entry_per_token : NoDup (map tx_token_id (transactions d));
entries_of_used_tokens :
  forall tx, In tx (transactions d) ->
    exists t, In t (tokens d) /\ id t = tx_token_id tx /\ status t = USED;
used_tokens_backed :
  forall t, In t (tokens d) -> status t = USED ->
    exists tx, In tx (transactions d) /\ backs tx t;
used_at_iff_used :
  forall t, In t (tokens d) -> (used_at t <> None <-> status t = USED);
one_attempt_per_entry :
  map ra_token_id (redemption_attempts d) = map tx_token_id (transactions d)
}.

(** One call of the service. *)
Inductive Call : Type :=
| Mint (accountId : string) (amount_ : Z)
| Redeem (fullToken agentId : string) (metadata : RiskEngine.Metadata).

(** What a call answers: the token of a minting, the result of a
  redemption, or nothing for a call that threw. *)
Inductive Answer : Type :=
| Minted_ (m : option Minted)
| Redeemed (r : Redemption)
| Failed (e : JsError).

Definition call (env : Env) (c : Call) (w : World) : Answer * World :=
match c with
| Mint accountId amount_ =>
    match generateWithdrawalToken env accountId amount_ w with
    | (Return m, w') => (Minted_ m, w')
    | (Throw e, w') => (Failed e, w')
    end
| Redeem fullToken agentId metadata =>
    match redeemWithdrawalToken env fullToken agentId metadata w with
    | (Return r, w') => (Redeemed r, w')
    | (Throw e, w') => (Failed e, w')
    end
end.

(** The calls of a history, one after the other. *)
Fixpoint replay (env : Env) (calls : list Call) (w : World)
: list Answer * World :=
match calls with
| [] => ([], w)
| c :: rest =>
    let (a, w1) := call env c w in
    let (answers, w2) := replay env rest w1 in
    (a :: answers, w2)
end.

(** The tokens that the answers report as redeemed. *)
Fixpoint redeemed_ids (answers : list Answer) : list Id :=
match answers with
| [] => []
| Redeemed {| result := SUCCESS; tokenId := Some i |} :: rest =>
    i :: redeemed_ids rest
| _ :: rest => redeemed_ids rest
end.

(** The token row [t] after its redemption at the instant [now]. *)
Definition used_row (t : Token) (now : Z) : Token :=
{| id := id t; account_id := account_id t; amount := amount t;
   token_hash := token_hash t; salt := salt t; prefix := prefix t;
   status := USED; expires_at := expires_at t; used_at := Some now |}.

(** A statement that was sent and met no failure. *)
Definition sent_ok (s : Statement) : Issued Statement :=
{| stmt := s; failed := None |}.

(** The world in which the attempt of a minting that succeeded started:
  the one of the call after [k] failed attempts, each of which read the
  clock once and drew 28 times. *)
Definition after_attempts (k : nat) (w w0 : World) : Prop :=
db w0 = db w /\ clock w0 = clock w
/\ clock_reads w0 = (k + clock_reads w)%nat
/\ random w0 = random w
/\ random_draws w0 = (draws_per_attempt * k + random_draws w)%nat.

End History.

(** ** Further worlds and histories *)

Module Episodes.

Import TokenService History Scenario.
Local Open Scope Z_scope.

(** The world after the minting of the scenario, in which the statement
  of rank [k] loses its connection. *)
Definition fails_at (k : nat) : World :=
{| db := db w1; issued := issued w1;
   fault := fun n => if Nat.eqb n k then Some connection_lost else None;
   clock := clock w1; clock_reads := clock_reads w1; random := random w1;
   random_draws := random_draws w1; log := log w1 |}.

(** A history on the empty database: a minting, three redemptions of the
  minted token by two agents, a minting for an account that is no uuid,
  a redemption of a token that was never minted, a second minting. *)
Definition history0 : list Call :=
[Mint account 200;
 Redeem (token minted0) "atm-1" RiskEngine.no_metadata;
 Redeem (token minted0) "atm-2" RiskEngine.no_metadata;
 Mint "nobody" 50;
 Redeem "ABCD-EFGH1234" "atm-1" RiskEngine.no_metadata;
 Redeem (token minted0) "atm-1" RiskEngine.no_metadata;
 Mint account 75].

End Episodes.

(** ** Requests one after the other through the rate limiter *)

Module Traffic.

Import RateLimiter.
Local Open Scope Z_scope.

Definition redis_up (w : World) : Prop := forall n, fault w n = None.

(** What [createRateLimiter] makes of its options. *)
Definition window_of (config : Config) (options : Options) : Z :=
or_else (windowMs options) (config_windowMs config).

Definition max_of (config : Config) (options : Options) : Z :=
or_else (maxRequests options) (config_maxRequests config).

Definition key_of (options : Options) (request : Request) : string :=
or_else (keyGenerator options) default_key request.

Definition skip_of (config : Config) (options : Options) : bool :=
or_else (skipSuccessfulRequests options)
        (config_skipSuccessfulRequests config).

(** [request.id || require('crypto').randomUUID()] *)
Definition id_of (request : Request) (w : World) : string :=
Js.or_default (request_id request) (randomUUID w).

(** The entries that the removal of the scores from 0 to [t - windowMs]
  leaves in place. *)
Definition recent (window_ t : Z) (m : string * Z) : bool :=
negb (in_range 0 (t - window_) m).

(** The entries of a key that the first command of the middleware, that
  removal at the instant of the request, leaves in place. *)
Definition live (window_ : Z) (key : string) (w : World)
: list (string * Z) :=
filter (recent window_ (now w)) (members (redis w) key).

(** Redis after that removal. *)
Definition swept (window_ : Z) (key : string) (w : World) : Redis :=
snd (run (ZREMRANGEBYSCORE key 0 (now w - window_)) (redis w)).

(** Redis after the entry of a request was added to the swept key and
  the expiration of the key set. *)
Definition entered (window_ : Z) (key member : string) (w : World) : Redis :=
snd (run (EXPIRE key (ceil_seconds window_))
       (snd (run (ZADD key (now w) member) (swept window_ key w)))).

Definition answered (c : Command) : Issued Command :=
{| stmt := c; failed := None |}.

(** The milliseconds from the request to the reset that the middleware
  computes from the answer of TTL, and the seconds that the 429 answer
  tells to wait. *)
Definition reset_delay (window_ ttl : Z) : Z :=
if 0 <? ttl then ttl * 1000 else window_.

Definition retry_after (window_ ttl : Z) : Z :=
ceil_seconds (reset_delay window_ ttl).

(** The answer of TTL for the key of the request, after the removal. *)
Definition ttl_of (window_ : Z) (key : string) (w : World) : Z :=
fst (run (TTL key) (swept window_ key w)).

(** A request comes in at the instant [t]: the clock reads [t] and the
  reply is a new one. *)
Definition arrive (t : Z) (w : World) : World :=
{| redis := redis w; issued := issued w; fault := fault w; now := t;
   randomUUID := randomUUID w; logger_level := logger_level w;
   log := log w; reply := fresh_reply |}.

(** *** Requests in flight *)

(** A request that the server has received: its reply, where its hook
  stands, and the status that its handler has answered with, if it
  has. *)
Record Flight : Type := {
its_request : Request;
its_reply : Reply;
its_hook : Async unit;
its_answer : option Z
}.

Record Server : Type := {
world : World;
flights : list Flight
}.

(** What happens on the server: a request arrives at an instant and its
  hook runs to its first [await]; the hook of the request of rank [i]
  gets the answer of the command it awaits and runs to its next [await]
  or to its end; the handler of the request of rank [i] sets a status
  and sends the reply. *)
Inductive Event : Type :=
| Arrives (t : Z) (request : Request)
| GoesOn (i : nat)
| Answers (i : nat) (status : Z).

(** The world with the reply of a request in place. *)
Definition with_its_reply (f : Flight) (w : World) : World :=
{| redis := redis w; issued := issued w; fault := fault w; now := now w;
   randomUUID := randomUUID w; logger_level := logger_level w;
   log := log w; reply := its_reply f |}.

Fixpoint replace {A : Type} (i : nat) (x : A) (l : list A) : list A :=
match l, i with
| [], _ => []
| _ :: rest, O => x :: rest
| y :: rest, S i' => y :: replace i' x rest
end.

(** Whether the request has reached its handler: its hook has returned
  and has not sent the reply. *)
Definition let_through (f : Flight) : bool :=
match its_hook f, sent (its_reply f) with
| Settled (Return _), None => true
| _, _ => false
end.

Definition unanswered (f : Flight) : bool :=
match its_answer f with
| None => true
| Some _ => false
end.

(** One event. An event for a request that is not there, a turn for a
  hook that has ended, and an answer to a request that has not reached
  its handler or has been answered change nothing. *)
Definition handle (hook : Request -> Run unit) (e : Event) (s : Server)
: Server :=
match e with
| Arrives t request =>
    let (a, w1) := hook request (arrive t (world s)) in
    {| world := w1;
       flights := flights s
                  ++ [{| its_request := request; its_reply := reply w1;
                         its_hook := a; its_answer := None |}] |}
| GoesOn i =>
    match nth_error (flights s) i with
    | Some f =>
        match its_hook f with
        | Awaiting c k =>
            let (r, w1) := command c (with_its_reply f (world s)) in
            let (a, w2) := k r w1 in
            {| world := w2;
               flights :=
                 replace i {| its_request := its_request f;
                              its_reply := reply w2; its_hook := a;
                              its_answer := its_answer f |}
                         (flights s) |}
        | Settled _ => s
        end
    | None => s
    end
| Answers i status =>
    match nth_error (flights s) i with
    | Some f =>
        if let_through f && unanswered f then
          let w1 := snd ((reply_status status ;; wrapped_send)%eff
                           (with_its_reply f (world s))) in
          {| world := w1;
             flights :=
               replace i {| its_request := its_request f;
                            its_reply := reply w1; its_hook := its_hook f;
                            its_answer := Some status |}
                       (flights s) |}
        else s
    | None => s
    end
end.

Definition after (hook : Request -> Run unit) (events : list Event)
  (s : Server) : Server :=
fold_left (fun s' e => handle hook e s') events s.


(** *** Requests one after the other *)

(** A request to come: its instant, the request, and the status that its
  handler answers with if the request reaches it. *)
Definition Arrival : Type := (Z * Request * Z)%type.

Definition instant_of (a : Arrival) : Z := fst (fst a).
Definition request_of (a : Arrival) : Request := snd (fst a).
Definition status_of (a : Arrival) : Z := snd a.

(** The events of requests that the server takes one at a time: each
  request arrives, its hook gets the four turns that its awaits can
  take, and its handler answers, before the next request arrives. The
  first request is of rank [i]. *)
Fixpoint one_by_one (i : nat) (arrivals : list Arrival) : list Event :=
match arrivals with
| [] => []
| a :: rest =>
    Arrives (instant_of a) (request_of a)
    :: repeat (GoesOn i) 4
    ++ Answers i (status_of a)
    :: one_by_one (S i) rest
end.

(** The hook on requests one after the other, from a server that has
  none in flight: whether each has reached its handler, and the world
  at the end. *)
Definition serve (hook : Request -> Run unit) (arrivals : list Arrival)
  (w : World) : list bool * World :=
let s := after hook (one_by_one 0 arrivals) {| world := w; flights := [] |} in
(map let_through (flights s), world s).

(** Whether a request of the past, with what became of it, has left an
  entry: it has reached its handler, and its entry was not removed at
  the send of a status below 400. *)
Definition counts (skip : bool) (p : Arrival * bool) : bool :=
snd p && negb (skip && (status_of (fst p) <? 400)).


(** The entries that the requests of [past] have left under the key,
  [u] being the identifier of a request that has none. *)
Definition entries (options : Options) (skip : bool) (u key : string)
  (past : list (Arrival * bool)) : list (string * Z) :=
map (fun p => (Js.or_default (request_id (request_of (fst p))) u,
               instant_of (fst p)))
    (filter (fun p => counts skip p
                      && (key_of options (request_of (fst p)) =? key)%string)
            past).




(** The key that a command is about. *)
Definition command_key (c : Command) : string :=
match c with
| ZREMRANGEBYSCORE key _ _ | ZCARD key | TTL key | ZADD key _ _
| EXPIRE key _ | ZREM key _ => key
end.

(** Redis holds for every key but [key] what it held. *)
Definition elsewhere (key : string) (r r' : Redis) : Prop :=
forall k, k <> key ->
  lookup k (zsets r') = lookup k (zsets r)
  /\ lookup k (expirations r') = lookup k (expirations r).

(** *** Two requests in flight together *)

(** Two requests arrive one behind the other, and their hooks go on in
  turn, each by one [await] at a time. *)
Definition together (t1 : Z) (request1 : Request) (t2 : Z)
  (request2 : Request) : list Event :=
[Arrives t1 request1; Arrives t2 request2;
 GoesOn 0; GoesOn 1; GoesOn 0; GoesOn 1;
 GoesOn 0; GoesOn 1; GoesOn 0; GoesOn 1].

(** *** A burst *)

(** A world with an empty Redis that meets no fault, the logger at its
  default level. *)
Definition quiet : World :=
{| redis := {| zsets := []; expirations := [] |}; issued := [];
   fault := fun _ => None; now := 1700000000000;
   randomUUID := "2f1c0f0e-0000-4000-8000-000000000001";
   logger_level := info; log := []; reply := fresh_reply |}.

(** The same with the logger at the level [error], at which a warning
  is not written. *)
Definition hushed : World :=
{| redis := redis quiet; issued := []; fault := fun _ => None;
   now := now quiet; randomUUID := randomUUID quiet;
   logger_level := error; log := []; reply := fresh_reply |}.

Definition numbered (n address : string) : Request :=
{| request_id := Some ("req-" ++ n)%string; ip := address;
   routerPath := Some "/tokens/redeem"%string; url := "/tokens/redeem";
   method := "POST" |}.

(** Two requests a second, successful ones not counted. *)
Definition tight : Options :=
{| windowMs := Some 1000; maxRequests := Some 2; keyGenerator := None;
   skipSuccessfulRequests := Some true |}.

(** Three requests of one address within 200 ms, the first two answered
  with 401, one of another address, and a fourth of the first address
  1050 ms after its first. *)
Definition burst : list Arrival :=
[(1700000000000, numbered "1" "203.0.113.7", 401);
 (1700000000100, numbered "2" "203.0.113.7", 401);
 (1700000000200, numbered "3" "203.0.113.7", 200);
 (1700000000300, numbered "4" "198.51.100.2", 200);
 (1700000001050, numbered "5" "203.0.113.7", 200)].


(** The world after the first request of the burst. *)
Definition after_one : World :=
snd (serve (createRateLimiter the_config tight) (firstn 1 burst) quiet).

(** The world in which the third request of the burst arrives. *)
Definition crowded : World :=
arrive 1700000000200
  (snd (serve (createRateLimiter the_config tight) (firstn 2 burst) quiet)).

(** The same, from the world in which a warning is not written. *)
Definition crowded_hushed : World :=
arrive 1700000000200
  (snd (serve (createRateLimiter the_config tight) (firstn 2 burst) hushed)).

(** The world in which the handler of the first request of the burst
  sends its reply, of status 200, when Redis has gone down. *)
Definition answering : World :=
{| redis := redis crowded; issued := issued crowded;
   fault := fun _ => Some unreachable; now := now crowded;
   randomUUID := randomUUID crowded; logger_level := logger_level crowded;
   log := log crowded;
   reply := {| statusCode := 200; sent := None; headers := [];
               remove_on_success :=
                 [(key_of tight (numbered "1" "203.0.113.7"),
                   "req-1"%string)] |} |}.

End Traffic.

(** ** The reasons of the risk engine *)

Module Explain.

Import RiskEngine.
Local Open Scope Z_scope.

(** The hundredths that the engine adds to the score where it pushes the
  reason. *)
Definition weight (r : Reason) : Z :=
match r with
| HighVelocity => 40
| ElevatedVelocity => 15
| SignificantDeviation _ => 30
| ModerateDeviation _ => 15
| ExcessiveFailedAttempts => 50
| ElevatedFailedAttempts => 25
| IpMismatch => 20
end.

Fixpoint total_weight (rs : list Reason) : Z :=
match rs with
| [] => 0
| r :: rest => weight r + total_weight rest
end.

(** The decision on a score of [k] hundredths. *)
Definition decision_of_hundredths (k : Z) : Decision :=
if 70 <? k then REJECT else if 30 <=? k then CHALLENGE else APPROVE.

(** On the score of [k] hundredths: the decision of the engine is the
  one above, and the score is a number from 0 to 1. *)
Definition hundredths_ok (k : Z) : bool :=
let s := (Js.float_of_Z k / 100)%float in
match decide s, decision_of_hundredths k with
| REJECT, REJECT | CHALLENGE, CHALLENGE | APPROVE, APPROVE => true
| _, _ => false
end
&& (0 <=? s)%float && (s <=? 1)%float.

(** A context whose numbers are all NaN. *)
Definition unknown : Context :=
{| velocity10m := nan; avgAmount := nan; failedAttempts24h := nan;
   lastIp := None; currentAmount := nan |}.

End Explain.

(* ================================================================== *)
(** ** The token service with the global salt *)
(* ================================================================== *)

(** The earlier [TokenService]: an eight-character token over a
    58-character alphabet, hashed with one salt for all tokens, looked up
    by its hash. *)
Module Legacy.

Local Open Scope Z_scope.

Definition Id : Type := TokenService.Id.

(** A row of [tokens] as this service writes and reads it. The status is
  the string of the column. An amount counts hundredths, the two
  decimals that the schema of the service asks for; an amount of more
  decimals is outside the model. *)
Record Token : Type := {
id : Id;
account_id : string;
amount : Z;
token_hash : list byte;
status : string;
expires_at : Z;
used_at : option Z
}.

(** A row of [transactions]. *)
Record Transaction : Type := {
tx_id : Id;
tx_account_id : string;
tx_token_id : Id;
tx_type : string;
tx_amount : Z;
tx_status : string
}.

(** A row of [redemption_attempts]. *)
Record RedemptionAttempt : Type := {
ra_token_id : Id;
ra_agent_id : string;
ra_result : string;
ra_metadata : RiskEngine.Metadata
}.

Record Db : Type := {
tokens : list Token;
transactions : list Transaction;
redemption_attempts : list RedemptionAttempt
}.

Inductive Statement : Type :=
| BEGIN
| COMMIT
| ROLLBACK
| InsertToken (hash : list byte)
| SelectByHashForUpdate (hash : list byte)
| UpdateExpired (id_ : Id)
| UpdateUsed (id_ : Id) (now : Z)
| InsertTransaction (token_id : Id)
| InsertAttempt (token_id : Id) (result_ : string).

Inductive Level : Type := info | warn | error.

Record LogLine : Type := { level : Level; msg : string }.

(** What the service runs in, as for the later service: the database,
  the statements issued with their outcome, the failure that the n-th
  statement meets, the readings of the clock, the bytes of the CSPRNG,
  the log. *)
Record World : Type := {
db : Db;
issued : list (Issued Statement);
fault : nat -> option JsError;
clock : nat -> Z;
clock_reads : nat;
random : nat -> nat;
random_draws : nat;
log : list LogLine
}.

Definition with_db (d : Db) (w : World) : World :=
{| db := d; issued := issued w; fault := fault w; clock := clock w;
   clock_reads := clock_reads w; random := random w;
   random_draws := random_draws w; log := log w |}.

Definition record_statement (s : Statement) (e : option JsError) (w : World)
: World :=
{| db := db w; issued := issued w ++ [{| stmt := s; failed := e |}];
   fault := fault w; clock := clock w; clock_reads := clock_reads w;
   random := random w; random_draws := random_draws w; log := log w |}.

Definition execute {A : Type} (s : Statement) (run : Db -> A * Db)
: Eff World A :=
fun w =>
  match fault w (List.length (issued w)) with
  | Some e => (Throw e, record_statement s (Some e) w)
  | None =>
      let (a, d) := run (db w) in
      (Return a, with_db d (record_statement s None w))
  end.

(** [db.transaction(body)] *)
Definition transaction {A : Type} (body : Eff World A) : Eff World A :=
fun w =>
  let snapshot := db w in
  match execute BEGIN (fun d => (tt, d)) w with
  | (Throw e, w1) => (Throw e, w1)
  | (Return _, w1) =>
      match body w1 with
      | (Return a, w2) =>
          match execute COMMIT (fun d => (tt, d)) w2 with
          | (Return _, w3) => (Return a, w3)
          | (Throw e, w3) => (Throw e, with_db snapshot w3)
          end
      | (Throw e, w2) =>
          (Throw e,
           with_db snapshot (snd (execute ROLLBACK (fun d => (tt, d)) w2)))
      end
  end.

(** [new Date()] and [Date.now()] *)
Definition new_Date : Eff World Z :=
fun w =>
  (Return (clock w (clock_reads w)),
   {| db := db w; issued := issued w; fault := fault w; clock := clock w;
      clock_reads := S (clock_reads w); random := random w;
      random_draws := random_draws w; log := log w |}).

(** One byte of the CSPRNG, as its number. *)
Definition randomByte : Eff World nat :=
fun w =>
  (Return (Nat.modulo (random w (random_draws w)) 256),
   {| db := db w; issued := issued w; fault := fault w; clock := clock w;
      clock_reads := clock_reads w; random := random w;
      random_draws := S (random_draws w); log := log w |}).

(** [crypto.randomBytes(size)] *)
Fixpoint randomBytes (size : nat) : Eff World (list nat) :=
match size with
| O => ret []
| S size' =>
    (b <- randomByte ;;
     rest <- randomBytes size' ;;
     ret (b :: rest))%eff
end.

(** The name of the method of the logger for a level. *)
Definition method_name (l : Level) : string :=
match l with
| info => "info"
| warn => "warn"
| error => "error"
end.

(** The TypeError of a call of what is undefined. *)
Definition not_a_function (l : Level) : JsError :=
{| code := None;
   message := ("logger." ++ method_name l ++ " is not a function")%string |}.

(** [logger.info(...)], [logger.warn(...)] and [logger.error(...)]. This
  service binds [logger] to what [require('../utils/logger')] gives,
  the exports of that module, which hold the pino logger under the
  name [logger] and no [info], [warn] or [error]: the method is
  undefined, its call throws, and no line is written. *)
Definition logger (l : Level) (m : string) : Eff World unit :=
throw (not_a_function l).

(** *** The tables *)

(** [db('tokens').insert({...}).returning('*')]: the row comes back with
  the identifier the database gave it. A constraint that the insert
  would violate is among the failures of the statement. *)
Definition insert_token (accountId : string) (amount_ : Z)
  (tokenHash : list byte) (expiresAt : Z) : Eff World Token :=
execute (InsertToken tokenHash)
  (fun d =>
     let row :=
       {| id := TokenService.fresh_id (map id (tokens d));
          account_id := accountId; amount := amount_;
          token_hash := tokenHash; status := "ACTIVE";
          expires_at := expiresAt; used_at := None |} in
     (row,
      {| tokens := tokens d ++ [row]; transactions := transactions d;
         redemption_attempts := redemption_attempts d |})).

(** [trx('tokens').where({ token_hash }).forUpdate().first()] *)
Definition select_by_hash (tokenHash : list byte) : Eff World (option Token) :=
execute (SelectByHashForUpdate tokenHash)
  (fun d =>
     (find (fun t => Bytes.eqb (token_hash t) tokenHash) (tokens d), d)).

Definition set_status (s : string) (u : option Z) (t : Token) : Token :=
{| id := id t; account_id := account_id t; amount := amount t;
   token_hash := token_hash t; status := s; expires_at := expires_at t;
   used_at := u |}.

(** [trx('tokens').where({ id }).update({ status: 'EXPIRED' })] *)
Definition update_expired (id_ : Id) : Eff World unit :=
execute (UpdateExpired id_)
  (fun d =>
     (tt,
      {| tokens :=
           map (fun t => if Pos.eqb (id t) id_
                         then set_status "EXPIRED" (used_at t) t else t)
               (tokens d);
         transactions := transactions d;
         redemption_attempts := redemption_attempts d |})).

(** [trx('tokens').where({ id, status: 'ACTIVE' })
    .update({ status: 'USED', used_at: now })] *)
Definition update_used (id_ : Id) (now : Z) : Eff World unit :=
execute (UpdateUsed id_ now)
  (fun d =>
     (tt,
      {| tokens :=
           map (fun t => if Pos.eqb (id t) id_ && (status t =? "ACTIVE")%string
                         then set_status "USED" (Some now) t else t)
               (tokens d);
         transactions := transactions d;
         redemption_attempts := redemption_attempts d |})).

(** [trx('transactions').insert({...}).returning('id')] *)
Definition insert_transaction (t : Token) : Eff World Id :=
execute (InsertTransaction (id t))
  (fun d =>
     let row :=
       {| tx_id := TokenService.fresh_id (map tx_id (transactions d));
          tx_account_id := account_id t; tx_token_id := id t;
          tx_type := "WITHDRAWAL"; tx_amount := amount t;
          tx_status := "SUCCESS" |} in
     (tx_id row,
      {| tokens := tokens d; transactions := transactions d ++ [row];
         redemption_attempts := redemption_attempts d |})).

(** [trx('redemption_attempts').insert({...})] *)
Definition insert_attempt (token_id : Id) (agentId result_ : string)
  (metadata : RiskEngine.Metadata) : Eff World unit :=
execute (InsertAttempt token_id result_)
  (fun d =>
     (tt,
      {| tokens := tokens d; transactions := transactions d;
         redemption_attempts :=
           redemption_attempts d
           ++ [{| ra_token_id := token_id; ra_agent_id := agentId;
                  ra_result := result_; ra_metadata := metadata |}] |})).

(** *** The service *)

(** [config.token] and the uuid test of Joi. *)
Record Env : Type := {
salt : string;
expirySeconds : Z;
joi_uuid : string -> bool
}.

Definition charset : string :=
"123456789ABCDEFGHJKLMNPQRSTUVWXYZabcdefghijkmnopqrstuvwxyz".

(** [this.charset[b % this.charset.length]], appended to a string. *)
Definition pick (b : nat) (rest : string) : string :=
match String.get (Nat.modulo b (String.length charset)) charset with
| Some c => String c rest
| None => ("undefined" ++ rest)%string
end.

(** [generateRandomToken(length)] *)
Definition generateRandomToken (length : nat) : Eff World string :=
(randomBytes_ <- randomBytes length ;;
 ret (fold_right pick ""%string randomBytes_))%eff.

(** [hashToken(plaintextToken)] *)
Definition hashToken (env : Env) (plaintextToken : string) : list byte :=
Hash.digest
  (Hash.update_string
     (Hash.update_string Hash.createHash plaintextToken)
     (salt env)).

(** [validateGenerationParams(accountId, amount)]: the message of the
  error, if any. *)
Definition validateGenerationParams (env : Env) (accountId : string)
  (amount_ : Z) : option string :=
if negb (joi_uuid env accountId) then
  Some "accountId must be a valid GUID"%string
else if amount_ <=? 0 then
  Some "amount must be a positive number"%string
else None.

Record Minted : Type := {
minted_id : Id;
token : string;
minted_amount : Z;
expiresAt : Z
}.

(** [generateWithdrawalToken(accountId, amount)] *)
Definition generateWithdrawalToken (env : Env) (accountId : string)
  (amount_ : Z) : Eff World Minted :=
match validateGenerationParams env accountId amount_ with
| Some m =>
    let msg_ := ("Invalid token generation params: " ++ m)%string in
    (logger warn msg_ ;; throw {| code := None; message := msg_ |})%eff
| None =>
    try_catch
      (plaintextToken <- generateRandomToken 8 ;;
       let tokenHash := hashToken env plaintextToken in
       now <- new_Date ;;
       let expiresAt_ := now + expirySeconds env * 1000 in
       tokenRecord <- insert_token accountId amount_ tokenHash expiresAt_ ;;
       logger info "Withdrawal token generated successfully" ;;
       ret {| minted_id := id tokenRecord; token := plaintextToken;
              minted_amount := amount_; expiresAt := expiresAt_ |})%eff
      (fun err =>
         (logger error "Error generating withdrawal token" ;;
          throw err)%eff)
end.

Inductive ResultTag : Type := SUCCESS | INVALID | USED | EXPIRED.

Record Redemption : Type := {
result : ResultTag;
tokenId : option Id;
transactionId : option Id
}.

(** The callback of the transaction of [redeemWithdrawalToken]. *)
Definition redeem_in_transaction (tokenHash : list byte) (agentId : string)
  (metadata : RiskEngine.Metadata) : Eff World Redemption :=
(found <- select_by_hash tokenHash ;;
 match found with
 | None =>
     logger warn "Failed redemption attempt: INVALID hash" ;;
     ret {| result := INVALID; tokenId := None; transactionId := None |}
 | Some t =>
     if (status t =? "USED")%string then
       logger warn "Failed redemption attempt: Already USED" ;;
       insert_attempt (id t) agentId "USED" metadata ;;
       ret {| result := USED; tokenId := Some (id t);
              transactionId := None |}
     else
       expired <- (if (status t =? "EXPIRED")%string then ret true
                   else now <- new_Date ;; ret (expires_at t <=? now)) ;;
       if (expired : bool) then
         logger info "Failed redemption attempt: EXPIRED" ;;
         (if negb (status t =? "EXPIRED")%string
          then update_expired (id t) else ret tt) ;;
         insert_attempt (id t) agentId "EXPIRED" metadata ;;
         ret {| result := EXPIRED; tokenId := Some (id t);
                transactionId := None |}
       else
         usedAt <- new_Date ;;
         update_used (id t) usedAt ;;
         transaction_id <- insert_transaction t ;;
         insert_attempt (id t) agentId "SUCCESS" metadata ;;
         logger info "Token successfully redeemed" ;;
         ret {| result := SUCCESS; tokenId := Some (id t);
                transactionId := Some transaction_id |}
 end)%eff.

Definition missing_parameters : JsError :=
{| code := None; message := "Missing required redemption parameters" |}.

(** [redeemWithdrawalToken(plaintextToken, agentId, metadata)]. A null or
  undefined argument is falsy like the empty string. *)
Definition redeemWithdrawalToken (env : Env) (plaintextToken agentId : string)
  (metadata : RiskEngine.Metadata) : Eff World Redemption :=
if (plaintextToken =? "")%string || (agentId =? "")%string
then throw missing_parameters
else transaction
       (redeem_in_transaction (hashToken env plaintextToken) agentId
          metadata).

End Legacy.

(** *** Notions used to state the properties of that service *)

Module LegacyFacts.

Import Legacy.
Local Open Scope Z_scope.

Definition no_faults (w : World) : Prop := forall n, fault w n = None.

(** The statements sent between two worlds. *)
Definition statements_since (w w' : World) : list Statement :=
map stmt (skipn (List.length (issued w)) (issued w')).

(** The statements that write a row. *)
Definition is_write (s : Statement) : bool :=
match s with
| InsertToken _ | UpdateExpired _ | UpdateUsed _ _ | InsertTransaction _
| InsertAttempt _ _ => true
| BEGIN | COMMIT | ROLLBACK | SelectByHashForUpdate _ => false
end.

(** The bytes that a call of [generateRandomToken] draws in [w]. *)
Fixpoint drawn_bytes (rnd : nat -> nat) (pos len : nat) : list nat :=
match len with
| O => []
| S len' => Nat.modulo (rnd pos) 256 :: drawn_bytes rnd (S pos) len'
end.

(** The row that a minting stores in [w]. *)
Definition minted_row (env : Env) (accountId : string) (amount_ : Z)
  (w : World) : Token :=
{| id := TokenService.fresh_id (map id (tokens (db w)));
   account_id := accountId; amount := amount_;
   token_hash :=
     hashToken env
       (fold_right pick ""%string
          (drawn_bytes (random w) (random_draws w) 8));
   status := "ACTIVE";
   expires_at := clock w (clock_reads w) + expirySeconds env * 1000;
   used_at := None |}.

(** *** A scenario *)

Definition env0 : Env :=
{| salt := "global-salt"; expirySeconds := 300;
   joi_uuid := Scenario.canonical_uuid |}.

Definition empty_db : Db :=
{| tokens := []; transactions := []; redemption_attempts := [] |}.

Definition w0 : World :=
{| db := empty_db; issued := []; fault := fun _ => None;
   clock := fun n => nth n Scenario.readings 1700000016000;
   clock_reads := 0;
   random := fun n => nth n Scenario.outputs 0%nat; random_draws := 0;
   log := [] |}.

(** *** Histories *)

Inductive Call : Type :=
| Mint (accountId : string) (amount_ : Z)
| Redeem (plaintextToken agentId : string) (metadata : RiskEngine.Metadata).

Inductive Answer : Type :=
| Minted_ (m : Minted)
| Redeemed (r : Redemption)
| Failed (e : JsError).

Definition call (env : Env) (c : Call) (w : World) : Answer * World :=
match c with
| Mint accountId amount_ =>
    match generateWithdrawalToken env accountId amount_ w with
    | (Return m, w') => (Minted_ m, w')
    | (Throw e, w') => (Failed e, w')
    end
| Redeem plaintextToken agentId metadata =>
    match redeemWithdrawalToken env plaintextToken agentId metadata w with
    | (Return r, w') => (Redeemed r, w')
    | (Throw e, w') => (Failed e, w')
    end
end.

Fixpoint replay (env : Env) (calls : list Call) (w : World)
: list Answer * World :=
match calls with
| [] => ([], w)
| c :: rest =>
    let (a, w1) := call env c w in
    let (answers, w2) := replay env rest w1 in
    (a :: answers, w2)
end.

Definition has_failed (a : Answer) : bool :=
match a with
| Failed _ => true
| _ => false
end.

Definition is_mint (c : Call) : bool :=
match c with
| Mint _ _ => true
| Redeem _ _ _ => false
end.

(** The bytes that [generateRandomToken] turns into the character of
  index [i] of the alphabet. *)
Definition preimages (i : nat) : list nat :=
filter (fun b => Nat.eqb (Nat.modulo b (String.length charset)) i)
       (seq 0 256).

Definition in_charset (c : ascii) : bool :=
existsb (Ascii.eqb c) (list_ascii_of_string charset).

(** A history: a minting, two redemptions of the token it has drawn, one
  of a token that was never minted. *)
Definition history0 : list Call :=
[Mint Scenario.account 1050;
 Redeem "4BJRYfnu" "atm-1" RiskEngine.no_metadata;
 Redeem "4BJRYfnu" "atm-2" RiskEngine.no_metadata;
 Redeem "zzzzzzzz" "atm-1" RiskEngine.no_metadata].

End LegacyFacts.

(* ================================================================== *)
(** ** The risk context (getRiskContext of the token service) *)
(* ================================================================== *)

Module RiskContext.

Import TokenService.
Local Open Scope Z_scope.

(** The columns [created_at] of [tokens] and of [redemption_attempts],
  which the database fills and only [getRiskContext] reads: the instant
  of a token by its identifier, and of an attempt by its rank in the
  table. *)
Record Stamps : Type := {
token_created_at : Id -> Z;
attempt_created_at : nat -> Z
}.

(** The four queries. *)
Inductive Query : Type :=
| CountRecentTokens (accountId : string) (since : Z)
| AverageAmount (accountId : string)
| CountFailedAttempts (accountId : string) (since : Z)
| LastSuccessAttempt (accountId : string).

Record World : Type := {
db : Db;
stamps : Stamps;
issued : list (Issued Query);
fault : nat -> option JsError;
clock : nat -> Z;
clock_reads : nat
}.

(** One query: it fails with the fault the infrastructure has for it, or
  is answered from the database, which it leaves as it is. *)
Definition query {A : Type} (q : Query) (answer : Db -> Stamps -> A)
: Eff World A :=
fun w =>
  match fault w (List.length (issued w)) with
  | Some e =>
      (Throw e,
       {| db := db w; stamps := stamps w;
          issued := issued w ++ [{| stmt := q; failed := Some e |}];
          fault := fault w; clock := clock w;
          clock_reads := clock_reads w |})
  | None =>
      (Return (answer (db w) (stamps w)),
       {| db := db w; stamps := stamps w;
          issued := issued w ++ [{| stmt := q; failed := None |}];
          fault := fault w; clock := clock w;
          clock_reads := clock_reads w |})
  end.

Definition new_Date : Eff World Z :=
fun w =>
  (Return (clock w (clock_reads w)),
   {| db := db w; stamps := stamps w; issued := issued w; fault := fault w;
      clock := clock w; clock_reads := S (clock_reads w) |}).

(** The rows of [redemption_attempts as ra] joined with [tokens as t] on
  [ra.token_id = t.id], for the tokens of an account: each attempt with
  its rank, once for every such token of its identifier. *)
Definition ranked {A : Type} (l : list A) : list (nat * A) :=
combine (seq 0 (List.length l)) l.

Definition joined (d : Db) (accountId : string)
: list (nat * RedemptionAttempt) :=
flat_map
  (fun ra =>
     map (fun _ => ra)
         (filter (fun t => Pos.eqb (id t) (ra_token_id (snd ra))
                           && (account_id t =? accountId)%string)
                 (tokens d)))
  (ranked (redemption_attempts d)).

(** 1. The tokens of the account created after [since]. *)
Definition recent_tokens (accountId : string) (since : Z) (d : Db)
  (s : Stamps) : nat :=
List.length
  (filter (fun t => (account_id t =? accountId)%string
                    && (since <? token_created_at s (id t)))
          (tokens d)).

(** 2. The amounts of the successful withdrawals of the account. *)
Definition withdrawn_amounts (accountId : string) (d : Db) (_ : Stamps)
: list Z :=
map tx_amount
    (filter (fun tx => (tx_account_id tx =? accountId)%string
                       && (tx_type tx =? "WITHDRAWAL")%string
                       && (tx_status tx =? "SUCCESS")%string)
            (transactions d)).

(** 3. The attempts on tokens of the account that did not succeed, made
  after [since]. *)
Definition failed_attempts (accountId : string) (since : Z) (d : Db)
  (s : Stamps) : nat :=
List.length
  (filter (fun ra => negb (ra_result (snd ra) =? "SUCCESS")%string
                     && (since <? attempt_created_at s (fst ra)))
          (joined d accountId)).

(** 4. The successful attempt on a token of the account that was created
  last; of two created at the same instant, for which the order of the
  query is open, the one of the higher rank. *)
Definition later (s : Stamps) (best : option (nat * RedemptionAttempt))
  (ra : nat * RedemptionAttempt) : option (nat * RedemptionAttempt) :=
match best with
| None => Some ra
| Some b =>
    if attempt_created_at s (fst b) <=? attempt_created_at s (fst ra)
    then Some ra else Some b
end.

Definition last_success (accountId : string) (d : Db) (s : Stamps)
: option RedemptionAttempt :=
option_map snd
  (fold_left (later s)
     (filter (fun ra => (ra_result (snd ra) =? "SUCCESS")%string)
             (joined d accountId))
     None).

(** What [parseFloat] makes of the average that Postgres returns for
  amounts, which are the driver's and the database's to print. *)
Record Env : Type := { parsed_average : list Z -> float }.

(** [getRiskContext(accountId, agentId, currentAmount)] *)
Definition getRiskContext (env : Env) (accountId agentId : string)
  (currentAmount : float) : Eff World RiskEngine.Context :=
(now <- new_Date ;;
 let tenMinutesAgo := now - 10 * 60 * 1000 in
 let twentyFourHoursAgo := now - 24 * 60 * 60 * 1000 in
 recentTokensCount <-
   query (CountRecentTokens accountId tenMinutesAgo)
         (recent_tokens accountId tenMinutesAgo) ;;
 amounts <- query (AverageAmount accountId) (withdrawn_amounts accountId) ;;
 failedAttemptsCount <-
   query (CountFailedAttempts accountId twentyFourHoursAgo)
         (failed_attempts accountId twentyFourHoursAgo) ;;
 lastSuccessAttempt <-
   query (LastSuccessAttempt accountId) (last_success accountId) ;;
 let lastIp_ :=
   match lastSuccessAttempt with
   | Some ra => RiskEngine.ip (ra_metadata ra)
   | None => None
   end in
 ret {| RiskEngine.velocity10m :=
          Js.float_of_Z (Z.of_nat recentTokensCount);
        RiskEngine.avgAmount :=
          match amounts with
          | [] => Js.float_of_Z 0
          | _ => parsed_average env amounts
          end;
        RiskEngine.failedAttempts24h :=
          Js.float_of_Z (Z.of_nat failedAttemptsCount);
        RiskEngine.lastIp := lastIp_;
        RiskEngine.currentAmount := currentAmount |})%eff.

(** *** Notions used to state the properties *)

Definition succeeded (ra : RedemptionAttempt) : Prop :=
ra_result ra = "SUCCESS"%string.

Definition abuse_reason (r : RiskEngine.Reason) : bool :=
match r with
| RiskEngine.ExcessiveFailedAttempts
| RiskEngine.ElevatedFailedAttempts => true
| _ => false
end.

(** The world in which the context is gathered after the history of the
  scenario, every row created at the epoch of the scenario. *)
Definition after_history : World :=
{| db := TokenService.db
           (snd (History.replay Scenario.env0 Episodes.history0
                   Scenario.w0));
   stamps := {| token_created_at := fun _ => 1700000000000;
                attempt_created_at := fun _ => 1700000000000 |};
   issued := []; fault := fun _ => None;
   clock := fun _ => 1700000060000; clock_reads := 0 |}.

Definition env0 : Env := {| parsed_average := fun _ => 200%float |}.

End RiskContext.

(* ================================================================== *)
(** ** Properties of the risk engine *)
(* ================================================================== *)

Section RiskEngineFacts.

Import RiskEngine.
Open Scope float_scope.

(** Rounding keeps the sign it is given. *)
Lemma binary_round_aux_sign (prec emax : Z) (s : bool) (m e : Z) (l : location) :
  match binary_round_aux prec emax s m e l with
  | S754_zero s' | S754_infinity s' | S754_finite s' _ _ => s' = s
  | S754_nan => True
  end.
Proof.
  unfold binary_round_aux.
  destruct (shr_fexp prec emax m e l) as [r1 e1].
  destruct (shr_fexp prec emax _ e1 loc_Exact) as [r2 e2].
  destruct (shr_m r2); try exact I; try reflexivity.
  destruct (e2 <=? emax - prec)%Z; reflexivity.
Qed.

(** A quotient by a negative divisor, or by NaN, is never above a positive
    bound when the dividend is an absolute value. *)
Lemma quotient_of_abs_not_above (c x avg : float) :
  SFltb (S754_zero false) (Prim2SF c) = true ->
  (0 <? avg) = false -> (avg =? 0) = false ->
  (c <? abs x / avg) = false.
Proof.
  intros Hc Hpos Hzero.
  rewrite ltb_spec in *. rewrite eqb_spec in Hzero.
  rewrite div_spec, abs_spec.
  change (Prim2SF 0) with (S754_zero false) in *.
  destruct (Prim2SF c) as [sc|sc| |sc mc ec]; try discriminate Hc;
    (destruct sc; [discriminate Hc|]).
  all: destruct (Prim2SF avg) as [sa|sa| |sa ma ea]; try discriminate Hzero;
    try (destruct sa; [|discriminate Hpos]).
  all: destruct (Prim2SF x) as [sx|sx| |sx mx ex]; try reflexivity.
  all: unfold SF64div, SFdiv, SFabs.
  all: destruct (SFdiv_core_binary prec emax (Z.pos mx) ex (Z.pos ma) ea)
         as [[mz ez] lz].
  all: pose proof (binary_round_aux_sign prec emax (xorb false true) mz ez lz)
         as Hs.
  all: destruct (binary_round_aux prec emax (xorb false true) mz ez lz)
         as [s'|s'| |s' m' e']; try reflexivity; simpl in Hs; subst s';
       reflexivity.
Qed.

Lemma score_is_capped_sum (context : Context) (metadata : Metadata) :
  score (evaluateRedemption context metadata)
  = Js.float_of_Z (Z.min 100 (code_sum context metadata)) / 100.
Proof.
  unfold evaluateRedemption, raw_signals, code_sum, code_velocity,
    code_deviation, code_failed, code_ip, ip_signal, abuse_signal,
    behavior_signal, velocity_signal, score.
  destruct (3 <? velocity10m context);
    [| destruct (1 <? velocity10m context)];
  (destruct (0 <? avgAmount context);
    [ destruct (2.0 <? deviation_of context);
      [| destruct (1.0 <? deviation_of context)] |]);
  (destruct (5 <? failedAttempts24h context);
    [| destruct (2 <? failedAttempts24h context)]);
  destruct (ip_mismatch context metadata);
  vm_compute; reflexivity.
Qed.

Lemma positive_not_zero (a : float) : (0 <? a) = true -> (a =? 0) = false.
Proof.
  rewrite ltb_spec, eqb_spec.
  change (Prim2SF 0) with (S754_zero false).
  destruct (Prim2SF a) as [s|s| |s m e]; try discriminate;
    destruct s; try discriminate; reflexivity.
Qed.

Lemma zero_not_positive (a : float) : (a =? 0) = true -> (0 <? a) = false.
Proof.
  destruct (0 <? a) eqn:E; [| reflexivity].
  intros H. rewrite (positive_not_zero a E) in H. discriminate H.
Qed.

(** The guard [avgAmount > 0] of the code and the exclusion of a zero
    average of the table give the same contribution. *)
Lemma code_deviation_spec (context : Context) :
  code_deviation context = spec_deviation context.
Proof.
  unfold code_deviation, spec_deviation, deviation_of. cbv zeta.
  destruct (0 <? avgAmount context) eqn:Hpos.
  - rewrite (positive_not_zero _ Hpos). reflexivity.
  - destruct (avgAmount context =? 0) eqn:Hz; [reflexivity |].
    rewrite (quotient_of_abs_not_above 2.0 _ _ eq_refl Hpos Hz).
    rewrite (quotient_of_abs_not_above 1.0 _ _ eq_refl Hpos Hz).
    reflexivity.
Qed.

(** The truthiness test and the comparison of the code are the presence
    and the difference of the table. *)
Lemma code_ip_spec (context : Context) (metadata : Metadata) :
  code_ip context metadata = spec_ip context metadata.
Proof.
  unfold code_ip, spec_ip, ip_mismatch, currentIp, spec_current_ip,
    Js.truthy, Js.strict_neq, Js.or_default, default_ip.
  destruct (lastIp context) as [l |]; [| reflexivity].
  destruct (l =? "")%string; [reflexivity |]. cbn [negb andb].
  destruct (ip metadata) as [i |].
  - destruct (i =? "")%string;
      match goal with |- context [String.eqb l ?c] =>
        destruct (String.eqb l c) end; reflexivity.
  - destruct (l =? "127.0.0.1")%string; reflexivity.
Qed.

Lemma code_sum_range (context : Context) (metadata : Metadata) :
  (0 <= Z.min 100 (code_sum context metadata) <= 100)%Z.
Proof.
  unfold code_sum, code_velocity, code_deviation, code_failed, code_ip.
  destruct (3 <? velocity10m context); [| destruct (1 <? velocity10m context)];
  (destruct (0 <? avgAmount context);
    [ destruct (2.0 <? deviation_of context);
      [| destruct (1.0 <? deviation_of context)] |]);
  (destruct (5 <? failedAttempts24h context);
    [| destruct (2 <? failedAttempts24h context)]);
  destruct (ip_mismatch context metadata); lia.
Qed.

Lemma thresholds_on_sound (s : float) :
  thresholds_on s = true ->
  (decide s = REJECT <-> (0.7 <? s) = true)
  /\ (decide s = CHALLENGE <-> (0.3 <=? s) = true /\ (s <=? 0.7) = true)
  /\ (decide s = APPROVE <-> (s <? 0.3) = true).
Proof.
  unfold thresholds_on.
  generalize (decide s) (0.7 <? s) (0.3 <=? s) (s <=? 0.7) (s <? 0.3).
  intros d b1 b2 b3 b4.
  destruct d, b1, b2, b3, b4; cbn; intros H; try discriminate H;
    repeat split; intros; try reflexivity; try discriminate;
    try (destruct H0; discriminate).
Qed.

Lemma thresholds_hold_upto_100 (k : Z) :
  (0 <= k <= 100)%Z -> thresholds_hold k = true.
Proof.
  intros Hk.
  assert (Hall : forallb thresholds_hold (map Z.of_nat (seq 0 101)) = true)
    by (vm_compute; reflexivity).
  rewrite forallb_forall in Hall. apply Hall.
  apply in_map_iff. exists (Z.to_nat k). split; [lia |].
  apply in_seq. lia.
Qed.

End RiskEngineFacts.

Section RiskEngineProperties.

Import RiskEngine.
Open Scope float_scope.

(** C5. Whatever the context and the metadata, the decision is REJECT
    exactly when the score is above 0.7, CHALLENGE exactly when it lies
    between 0.3 and 0.7, both included, and APPROVE exactly when it is
    below 0.3; scores of exactly 0.3 and exactly 0.7 occur and are
    challenged. *)
Theorem decision_thresholds (context : Context) (metadata : Metadata) :
  let r := evaluateRedemption context metadata in
  (decision r = REJECT <-> (0.7 <? score r) = true)
  /\ (decision r = CHALLENGE
      <-> (0.3 <=? score r) = true /\ (score r <=? 0.7) = true)
  /\ (decision r = APPROVE <-> (score r <? 0.3) = true)
  /\ (score (evaluateRedemption boundary_03 {| ip := Some "127.0.0.1"%string |}) = 0.3
      /\ decision (evaluateRedemption boundary_03 {| ip := Some "127.0.0.1"%string |}) = CHALLENGE)
  /\ (score (evaluateRedemption boundary_07 {| ip := Some "10.0.0.9"%string |}) = 0.7
      /\ decision (evaluateRedemption boundary_07 {| ip := Some "10.0.0.9"%string |}) = CHALLENGE).
Proof.
  intros r.
  pose proof (thresholds_hold_upto_100 _ (code_sum_range context metadata)) as H.
  unfold thresholds_hold in H.
  rewrite <- (score_is_capped_sum context metadata) in H.
  apply thresholds_on_sound in H.
  change (decision r) with (decide (score r)).
  destruct H as (H1 & H2 & H3).
  split; [exact H1 |]. split; [exact H2 |]. split; [exact H3 |].
  split; split; vm_compute; reflexivity.
Qed.

(** C6. The score is the sum of the contributions of the table (velocity,
    amount deviation with nothing added for a zero average, failed
    attempts, IP change), capped at 1.0 and with two decimals; the
    scenario of the specification scores 1.0 and is rejected. *)
Theorem score_is_table_sum (context : Context) (metadata : Metadata) :
  score (evaluateRedemption context metadata) = spec_score context metadata
  /\ score (evaluateRedemption scenario_context scenario_metadata) = 1.0
  /\ decision (evaluateRedemption scenario_context scenario_metadata) = REJECT.
Proof.
  split; [| split; vm_compute; reflexivity].
  rewrite score_is_capped_sum. unfold spec_score, spec_sum, code_sum.
  rewrite code_deviation_spec, code_ip_spec. reflexivity.
Qed.

(** C10, counterexample. A last IP that is the empty string is not null
    and differs from the default, yet with no IP in the metadata nothing
    is added: the check is on truthiness. *)
Lemma default_ip_counterexample :
  ip no_metadata = None
  /\ lastIp empty_last_ip = Some ""%string
  /\ ""%string <> default_ip
  /\ ~ In IpMismatch (reasons (evaluateRedemption empty_last_ip no_metadata))
  /\ fst (raw_signals empty_last_ip no_metadata) = fst (before_ip empty_last_ip)
  /\ score (evaluateRedemption empty_last_ip no_metadata) = 0.
Proof.
  repeat split; try reflexivity; try discriminate.
  cbn. intros H. exact H.
Qed.

(** C10, amended. Without an IP in the metadata the current IP is the
    default 127.0.0.1, and for every context whose last IP is a non-empty
    string other than that default the mismatch contribution of 0.2 and
    its reason are added. *)
Theorem default_ip_mismatch (context : Context) (metadata : Metadata)
    (l : string) :
  ip metadata = None ->
  lastIp context = Some l ->
  l <> ""%string ->
  l <> default_ip ->
  currentIp metadata = default_ip
  /\ raw_signals context metadata
     = (fst (before_ip context) + 0.2, snd (before_ip context) ++ [IpMismatch])
  /\ score (evaluateRedemption context metadata)
     = cap (fst (before_ip context) + 0.2)
  /\ In IpMismatch (reasons (evaluateRedemption context metadata)).
Proof.
  intros Hip Hlast Hne Hdef.
  assert (Hcur : currentIp metadata = default_ip)
    by (unfold currentIp; rewrite Hip; reflexivity).
  assert (Hmis : ip_mismatch context metadata = true).
  { unfold ip_mismatch, Js.strict_neq. rewrite Hlast, Hcur. cbn.
    apply String.eqb_neq in Hne. apply String.eqb_neq in Hdef.
    rewrite Hne, Hdef. reflexivity. }
  assert (Hraw : raw_signals context metadata
                 = (fst (before_ip context) + 0.2,
                    snd (before_ip context) ++ [IpMismatch])).
  { unfold raw_signals, ip_signal. rewrite Hmis. reflexivity. }
  split; [exact Hcur |]. split; [exact Hraw |].
  unfold evaluateRedemption. cbn [score reasons]. rewrite Hraw.
  split; [reflexivity |].
  cbn [snd]. apply in_or_app. right. left. reflexivity.
Qed.

(** C10, on a context whose last IP is 1.2.3.4 and no metadata. *)
Lemma default_ip_mismatch_witness :
  score (evaluateRedemption roaming no_metadata) = cap (0 + 0.2)
  /\ In IpMismatch (reasons (evaluateRedemption roaming no_metadata)).
Proof.
  destruct (default_ip_mismatch roaming no_metadata "1.2.3.4"%string
              eq_refl eq_refl) as (_ & _ & Hs & Hr).
  - discriminate.
  - discriminate.
  - split; [exact Hs | exact Hr].
Defined.

End RiskEngineProperties.

(* ================================================================== *)
(** ** Properties of the token service *)
(* ================================================================== *)

Section TokenServiceFacts.

Import TokenService.
Local Open Scope Z_scope.

Variable env : Env.

(** The digest of the three letters abc, the first vector of the
    standard. *)
Example digest_of_abc :
  map Bytes.to_Z (Sha256.digest (Bytes.utf8 "abc"))
  = [186; 120; 22; 191; 143; 1; 207; 234; 65; 65; 64; 222; 93; 174; 34; 35;
     176; 3; 97; 163; 150; 23; 122; 156; 180; 16; 255; 97; 242; 0; 21; 173].
Proof. vm_compute. reflexivity. Qed.

Lemma digest_length (m : list byte) : List.length (Sha256.digest m) = 32%nat.
Proof.
  unfold Sha256.digest, Sha256.word_bytes, Sha256.be_bytes.
  repeat rewrite length_app. repeat rewrite length_map.
  reflexivity.
Qed.

Lemma hashToken_length (plaintextToken : string) (salt_ : list byte) :
  List.length (hashToken env plaintextToken salt_) = 32%nat.
Proof. apply digest_length. Qed.

Lemma hashToken_digest (plaintextToken : string) (salt_ : list byte) :
  hashToken env plaintextToken salt_
  = Sha256.digest (Bytes.utf8 (pepper env) ++ Bytes.utf8 plaintextToken
                   ++ salt_).
Proof.
  unfold hashToken, Hash.digest, Hash.update, Hash.update_string,
    Hash.createHash.
  cbn [app]. rewrite <- app_assoc. reflexivity.
Qed.

Lemma Bytes_eqb_refl (a : list byte) : Bytes.eqb a a = true.
Proof.
  induction a as [| x a IH]; [reflexivity |].
  cbn [Bytes.eqb]. rewrite IH.
  destruct (Byte.eqb x x) eqn:E; [reflexivity |].
  apply Byte.byte_dec_bl in E || idtac.
  destruct x; discriminate E.
Qed.

Local Opaque hashToken.

(** **** Inversion of the monadic steps *)

Lemma bind_returns {S A B : Type} (m : Eff S A) (k : A -> Eff S B)
    (w w' : S) (b : B) :
  bind m k w = (Return b, w') ->
  exists a w1, m w = (Return a, w1) /\ k a w1 = (Return b, w').
Proof.
  unfold bind. destruct (m w) as [[a|e] w1]; intros H.
  - exists a, w1. split; [reflexivity | exact H].
  - discriminate H.
Qed.

Lemma execute_returns {A : Type} (s : Statement) (run : Db -> Outcome A * Db)
    (w w' : World) (a : A) :
  execute s run w = (Return a, w') ->
  exists d, run (db w) = (Return a, d)
            /\ w' = with_db d (record_statement s None w).
Proof.
  unfold execute. destruct (fault w _); [discriminate |].
  destruct (run (db w)) as [[a'|e] d]; intros H; inversion H; subst.
  exists d. split; reflexivity.
Qed.

Lemma transaction_returns {A : Type} (body : Eff World A) (w w' : World)
    (a : A) :
  transaction body w = (Return a, w') ->
  exists w2, body (record_statement BEGIN None w) = (Return a, w2)
             /\ w' = record_statement COMMIT None w2.
Proof.
  unfold transaction, execute.
  destruct (fault w _); [discriminate |]. cbn.
  destruct (body _) as [[a'|e] w2] eqn:Hbody; [| discriminate].
  destruct (fault w2 _); [discriminate |].
  intros H. inversion H; subst. exists w2. split; [reflexivity |].
  destruct w2; reflexivity.
Qed.

(** **** The opening guards *)

Lemma redeem_unfold (fullToken agentId : string) (metadata : RiskEngine.Metadata)
    (w : World) :
  well_shaped fullToken agentId = true ->
  exists prefix_ coreToken rest,
    split_dash fullToken = prefix_ :: coreToken :: rest
    /\ redeemWithdrawalToken env fullToken agentId metadata w
       = transaction
           (redeem_in_transaction env fullToken prefix_ agentId metadata) w.
Proof.
  unfold well_shaped, redeemWithdrawalToken.
  destruct (negb (fullToken =? "")%string && includes_dash fullToken
            && negb (agentId =? "")%string); [| discriminate].
  destruct (split_dash fullToken) as [| prefix_ [| coreToken rest]];
    try discriminate.
  cbn. intros H. rewrite H. exists prefix_, coreToken, rest.
  split; reflexivity.
Qed.

Lemma split_dash_nonempty (s : string) :
  exists p ps, split_dash s = p :: ps.
Proof.
  destruct s as [| c s]; cbn; [eauto |].
  destruct (Ascii.eqb c dash); [eauto |].
  destruct (split_dash s); eauto.
Qed.

Lemma split_dash_two (s : string) :
  includes_dash s = true -> exists a b rest, split_dash s = a :: b :: rest.
Proof.
  induction s as [| c s IH]; [discriminate |].
  cbn [includes_dash split_dash].
  destruct (Ascii.eqb c dash); cbn [orb].
  - intros _. destruct (split_dash_nonempty s) as (p & ps & E).
    rewrite E. eauto.
  - intros H. destruct (IH H) as (a & b & rest & E). rewrite E. eauto.
Qed.

Lemma redeem_rejects (fullToken agentId : string)
    (metadata : RiskEngine.Metadata) (w : World) :
  well_shaped fullToken agentId = false ->
  redeemWithdrawalToken env fullToken agentId metadata w
  = (Return (only INVALID), w).
Proof.
  unfold well_shaped, redeemWithdrawalToken.
  destruct (negb (fullToken =? "")%string) eqn:E1; [| reflexivity].
  destruct (includes_dash fullToken) eqn:E2; [| reflexivity].
  destruct (negb (agentId =? "")%string) eqn:E3; [| reflexivity].
  destruct (split_dash_two fullToken E2) as (a & b & rest & E). rewrite E.
  cbn. intros H. rewrite H. reflexivity.
Qed.

(** **** The candidate loop *)

Lemma first_match_world (fullToken : string) (cs : list Token) (w w' : World)
    (o : Outcome (option Id)) :
  first_match env fullToken cs w = (o, w') -> w' = w.
Proof.
  induction cs as [| c cs IH]; cbn [first_match].
  - intros H. inversion H. reflexivity.
  - unfold bind, timingSafeEqual.
    match goal with |- context [Nat.eqb ?a ?b] => destruct (Nat.eqb a b) end;
      cbn.
    + match goal with |- context [Bytes.eqb ?a ?b] =>
        destruct (Bytes.eqb a b) end; [| exact IH].
      intros H. inversion H. reflexivity.
    + intros H. inversion H. reflexivity.
Qed.

Lemma first_match_some (fullToken : string) (cs : list Token) (w w' : World)
    (i : Id) :
  first_match env fullToken cs w = (Return (Some i), w') ->
  exists c, In c cs /\ id c = i /\ verifies env fullToken c = true.
Proof.
  induction cs as [| c cs IH]; cbn [first_match].
  - intros H. inversion H.
  - unfold bind, timingSafeEqual.
    match goal with |- context [Nat.eqb ?a ?b] => destruct (Nat.eqb a b) end;
      cbn; [| discriminate].
    fold (verifies env fullToken c). destruct (verifies env fullToken c) eqn:E.
    + intros H. inversion H. exists c. repeat split; [left; reflexivity | exact E].
    + intros H. destruct (IH H) as (c' & Hin & Hid & Hv).
      exists c'. repeat split; [right; exact Hin | exact Hid | exact Hv].
Qed.

(** **** What a redemption that returns has done *)

Ltac invert_execute H :=
  let d := fresh "d" in
  let Hrun := fresh "Hrun" in
  let Hw := fresh "Hw" in
  apply execute_returns in H; destruct H as (d & Hrun & Hw);
  inversion Hrun; subst; clear Hrun.

Lemma body_returns (fullToken prefix_ agentId : string)
    (metadata : RiskEngine.Metadata) (w w' : World) (r : Redemption) :
  redeem_in_transaction env fullToken prefix_ agentId metadata w
  = (Return r, w') ->
  redeem_case env fullToken prefix_ agentId metadata w r (db w').
Proof.
  unfold redeem_in_transaction. intros H.
  apply bind_returns in H. destruct H as (now & w1 & Hnow & H).
  inversion Hnow; subst now w1; clear Hnow.
  apply bind_returns in H. destruct H as (cands & w2 & Hsel & H).
  invert_execute Hsel.
  apply bind_returns in H. destruct H as (matched & w3 & Hm & H).
  pose proof (first_match_world _ _ _ _ _ Hm) as ->.
  destruct matched as [i |].
  - apply first_match_some in Hm. destruct Hm as (c & Hin & Hid & Hv).
    apply filter_In in Hin. destruct Hin as [Hin Hcand]. subst i.
    apply bind_returns in H. destruct H as (found & w4 & Hfound & H).
    invert_execute Hfound.
    apply bind_returns in H. destruct H as (live & w5 & Hlive & H).
    unfold still_redeemable in Hlive. cbn in Hlive.
    destruct (find _ (tokens (db w))) as [t |] eqn:Hfind.
    + destruct (Status_eqb (status t) ACTIVE) eqn:Hst; cbn in Hlive.
      * unfold bind in Hlive. cbn in Hlive.
        destruct (expires_at t <=? clock w (S (clock_reads w))) eqn:Hexp;
          inversion Hlive; subst; clear Hlive.
        -- inversion H; subst. apply case_expired_or_used; reflexivity.
        -- apply bind_returns in H. destruct H as (usedAt & w6 & Hu & H).
           inversion Hu; subst; clear Hu.
           apply bind_returns in H. destruct H as ([] & w7 & Hup & H).
           invert_execute Hup.
           apply bind_returns in H. destruct H as (txid & w8 & Htx & H).
           invert_execute Htx.
           apply bind_returns in H. destruct H as ([] & w9 & Hat & H).
           invert_execute Hat.
           apply bind_returns in H. destruct H as ([] & w10 & Hlog & H).
           inversion Hlog; subst; clear Hlog.
           inversion H; subst; clear H.
           apply (case_success _ _ _ _ _ _ _ _ c t); try assumption;
             try reflexivity.
           ++ destruct (status t); try discriminate Hst; reflexivity.
           ++ unfold lock_time. apply Z.leb_gt. exact Hexp.
      * inversion Hlive; subst. inversion H; subst.
        apply case_expired_or_used; reflexivity.
    + inversion Hlive; subst. inversion H; subst.
      apply case_expired_or_used; reflexivity.
  - apply bind_returns in H. destruct H as ([] & w4 & Hlog & H).
    inversion Hlog; subst; clear Hlog.
    inversion H; subst. apply case_invalid; reflexivity.
Qed.

(** **** A redemption that meets no fault *)

Lemma first_match_runs (fullToken : string) (cs : list Token) (w : World) :
  Forall (fun t => List.length (token_hash t) = 32%nat) cs ->
  first_match env fullToken cs w
  = (Return (option_map id (find (verifies env fullToken) cs)), w).
Proof.
  induction 1 as [| c cs Hc _ IH]; [reflexivity |].
  cbn [first_match find]. unfold bind, timingSafeEqual.
  rewrite hashToken_length, Hc. cbn.
  fold (verifies env fullToken c). destruct (verifies env fullToken c);
    [reflexivity | exact IH].
Qed.

Lemma execute_runs {A : Type} (s : Statement) (run : Db -> Outcome A * Db)
    (w : World) :
  no_faults w ->
  execute s run w
  = match run (db w) with
    | (Return a, d) => (Return a, with_db d (record_statement s None w))
    | (Throw e, d) => (Throw e, with_db d (record_statement s (Some e) w))
    end.
Proof. intros H. unfold execute. rewrite H. reflexivity. Qed.

Lemma body_runs (fullToken prefix_ agentId : string)
    (metadata : RiskEngine.Metadata) (w : World) :
  no_faults w -> hashes_ok (db w) ->
  exists w',
    redeem_in_transaction env fullToken prefix_ agentId metadata w
    = (Return (fst (redeem_outcome env (db w) fullToken prefix_ agentId metadata
                      (scan_time w) (lock_time w) (use_time w))), w')
    /\ db w'
       = snd (redeem_outcome env (db w) fullToken prefix_ agentId metadata
                (scan_time w) (lock_time w) (use_time w))
    /\ fault w' = fault w.
Proof.
  intros Hnf Hok.
  assert (Hcs : forall now,
             Forall (fun t => List.length (token_hash t) = 32%nat)
                    (filter (is_candidate prefix_ now) (tokens (db w)))).
  { intros now. apply Forall_forall. intros t Ht. apply filter_In in Ht.
    destruct Ht as [Ht _]. revert t Ht. apply Forall_forall. exact Hok. }
  unfold redeem_in_transaction, redeem_outcome, scan_time, lock_time, use_time,
    select_candidates, select_for_update, update_used, insert_transaction,
    insert_attempt, still_redeemable, execute, bind, new_Date, logger, ret.
  cbn. rewrite Hnf. cbn.
  rewrite first_match_runs by apply Hcs.
  destruct (find (verifies env fullToken) _) as [c |]; cbn.
  - rewrite Hnf. cbn.
    destruct (find (fun x => Pos.eqb (id x) (id c)) (tokens (db w))) as [t |];
      cbn.
    + destruct (Status_eqb (status t) ACTIVE); cbn.
      * destruct (expires_at t <=? clock w (S (clock_reads w))); cbn.
        -- eexists. split; [reflexivity |]. split; reflexivity.
        -- rewrite Hnf. cbn. rewrite Hnf. cbn. rewrite Hnf. cbn.
           eexists. split; [reflexivity |]. split; reflexivity.
      * eexists. split; [reflexivity |]. split; reflexivity.
    + eexists. split; [reflexivity |]. split; reflexivity.
  - eexists. split; [reflexivity |]. split; reflexivity.
Qed.

Lemma transaction_runs {A : Type} (body : Eff World A) (w w2 : World) (a : A) :
  no_faults w ->
  body (record_statement BEGIN None w) = (Return a, w2) ->
  fault w2 = fault w ->
  transaction body w
  = (Return a, with_db (db w2) (record_statement COMMIT None w2)).
Proof.
  intros Hnf Hbody Hfault. unfold transaction, execute.
  rewrite Hnf. cbv beta iota.
  change (with_db (db w) (record_statement BEGIN None w))
    with (record_statement BEGIN None w).
  rewrite Hbody. rewrite Hfault, Hnf. reflexivity.
Qed.

Lemma redeem_runs (fullToken agentId : string)
    (metadata : RiskEngine.Metadata) (w : World) :
  well_shaped fullToken agentId = true ->
  no_faults w -> hashes_ok (db w) ->
  exists prefix_ coreToken rest w',
    split_dash fullToken = prefix_ :: coreToken :: rest
    /\ redeemWithdrawalToken env fullToken agentId metadata w
       = (Return (fst (redeem_outcome env (db w) fullToken prefix_ agentId
                         metadata (scan_time w) (lock_time w) (use_time w))),
          w')
    /\ db w'
       = snd (redeem_outcome env (db w) fullToken prefix_ agentId metadata
                (scan_time w) (lock_time w) (use_time w))
    /\ fault w' = fault w.
Proof.
  intros Hshape Hnf Hok.
  destruct (redeem_unfold fullToken agentId metadata w Hshape)
    as (prefix_ & coreToken & rest & Hsplit & ->).
  exists prefix_, coreToken, rest.
  destruct (body_runs fullToken prefix_ agentId metadata
              (record_statement BEGIN None w) Hnf Hok)
    as (w2 & Hbody & Hdb & Hfault).
  rewrite (transaction_runs _ w w2 _ Hnf Hbody Hfault).
  eexists. split; [exact Hsplit |]. split; [reflexivity |].
  split; [exact Hdb | exact Hfault].
Qed.

Lemma redeem_returns (fullToken agentId : string)
    (metadata : RiskEngine.Metadata) (w w' : World) (r : Redemption) :
  redeemWithdrawalToken env fullToken agentId metadata w = (Return r, w') ->
  (well_shaped fullToken agentId = false /\ r = only INVALID /\ w' = w)
  \/ (exists prefix_ coreToken rest,
        split_dash fullToken = prefix_ :: coreToken :: rest
        /\ redeem_case env fullToken prefix_ agentId metadata w r (db w')).
Proof.
  destruct (well_shaped fullToken agentId) eqn:Hshape.
  - destruct (redeem_unfold fullToken agentId metadata w Hshape)
      as (prefix_ & coreToken & rest & Hsplit & ->).
    intros H. right. exists prefix_, coreToken, rest.
    apply transaction_returns in H. destruct H as (w2 & Hbody & ->).
    split; [exact Hsplit |].
    apply body_returns in Hbody.
    destruct Hbody as [Hr Hd | Hr Hd | c t H1 H2 H3 H4 H5 H6 Hr Hd].
    + apply case_invalid; [exact Hr | exact Hd].
    + apply case_expired_or_used; [exact Hr | exact Hd].
    + apply (case_success _ _ _ _ _ _ _ _ c t); assumption.
  - intros H. rewrite (redeem_rejects _ _ _ _ Hshape) in H.
    inversion H; subst. left. repeat split.
Qed.

(** **** Minting *)

Lemma world_eta (w : World) :
  w = {| db := db w; issued := issued w; fault := fault w; clock := clock w;
         clock_reads := clock_reads w; random := random w;
         random_draws := random_draws w; log := log w |}.
Proof. destruct w; reflexivity. Qed.

Lemma drew_succ (n : nat) (w : World) :
  drew n (drew 1 w) = drew (S n) w.
Proof.
  unfold drew. cbn. f_equal. lia.
Qed.

Lemma generateRandomToken_runs (n : nat) (w : World) :
  generateRandomToken n w
  = (Return (drawn_token (random w) (random_draws w) n), drew n w).
Proof.
  revert w. induction n as [| n IH]; intros w.
  - cbn. unfold ret, drew. cbn. rewrite <- world_eta. reflexivity.
  - cbn [generateRandomToken drawn_token]. unfold bind at 1.
    cbn [randomInt]. unfold bind at 1.
    change {| db := db w; issued := issued w; fault := fault w;
              clock := clock w; clock_reads := clock_reads w;
              random := random w; random_draws := S (random_draws w);
              log := log w |} with (drew 1 w).
    rewrite IH. rewrite drew_succ. reflexivity.
Qed.

Lemma randomBytes_runs (n : nat) (w : World) :
  randomBytes n w
  = (Return (drawn_bytes (random w) (random_draws w) n), drew n w).
Proof.
  revert w. induction n as [| n IH]; intros w.
  - cbn. unfold ret, drew. cbn. rewrite <- world_eta. reflexivity.
  - cbn [randomBytes drawn_bytes]. unfold bind at 1.
    cbn [randomInt]. unfold bind at 1.
    change {| db := db w; issued := issued w; fault := fault w;
              clock := clock w; clock_reads := clock_reads w;
              random := random w; random_draws := S (random_draws w);
              log := log w |} with (drew 1 w).
    rewrite IH. rewrite drew_succ. reflexivity.
Qed.

(** An attempt is its insert, sent after the 28 draws and the reading of
    the clock. *)
Lemma attempt_unfold (accountId : string) (amount_ : Z) (w : World) :
  attempt env accountId amount_ w
  = bind (insert_token accountId amount_
            (hash_at env (random w) (random_draws w))
            (salt_at (random w) (random_draws w))
            (prefix_at (random w) (random_draws w))
            (expiry_at env w))
         (fun tokenRecord =>
            bind (logger info "Withdrawal token generated successfully")
                 (fun _ =>
                    ret (Some {| minted_id := id tokenRecord;
                                 token := plaintext_at (random w) (random_draws w);
                                 minted_amount := amount_;
                                 expiresAt := expiry_at env w |})))
         (drawn w).
Proof.
  unfold attempt. unfold bind at 1. rewrite generateRandomToken_runs.
  unfold bind at 1. rewrite generateRandomToken_runs.
  unfold bind at 1. rewrite randomBytes_runs.
  unfold bind at 1. cbn [new_Date drew random random_draws clock clock_reads
                         db issued fault log].
  unfold drawn, draws_per_attempt, hash_at, plaintext_at, salt_at, prefix_at,
    core_at, expiry_at.
  replace (16 + (4 + (8 + random_draws w)))%nat
    with (28 + random_draws w)%nat by lia.
  replace (4 + (8 + random_draws w))%nat
    with (12 + random_draws w)%nat by lia.
  reflexivity.
Qed.

Lemma attempt_cases (accountId : string) (amount_ : Z) (w w' : World)
    (o : Outcome (option Minted)) :
  attempt env accountId amount_ w = (o, w') ->
  exists i,
    issued w' = issued w ++ [i]
    /\ stmt i = fresh_insert env (random w) (random_draws w)
    /\ random w' = random w
    /\ random_draws w' = (draws_per_attempt + random_draws w)%nat
    /\ match failed i with
       | Some e => o = Throw e /\ db w' = db w
       | None =>
           o = Return (Some (minted_of env amount_ w))
           /\ db w' = add_token (db w) (row_of env accountId amount_ w)
       end.
Proof.
  rewrite attempt_unfold. unfold bind, insert_token, execute, logger, ret.
  cbn [drawn db issued fault clock clock_reads random random_draws log].
  destruct (fault w (List.length (issued w))) as [e |].
  - intros H. inversion H; subst; clear H.
    eexists. cbn. repeat split.
  - destruct (token_hash_taken _ (db w)).
    + intros H. inversion H; subst; clear H.
      eexists. cbn. repeat split.
    + intros H. inversion H; subst; clear H.
      eexists. cbn. repeat split.
Qed.

Lemma retry_loop_spec (accountId : string) (amount_ : Z) (turns : nat) :
  forall (retries : nat) (w : World),
    (retries + turns = MAX_RETRIES)%nat -> (1 <= turns)%nat ->
    exists init final,
      issued (snd (retry_loop env accountId amount_ turns retries w))
      = issued w ++ init ++ [final]
      /\ (List.length init < turns)%nat
      /\ (forall k i, nth_error (init ++ [final]) k = Some i ->
            stmt i = fresh_insert env (random w)
                       (draws_per_attempt * k + random_draws w))
      /\ Forall collided init
      /\ match failed final with
         | None =>
             exists m, fst (retry_loop env accountId amount_ turns retries w)
                       = Return (Some m)
         | Some e =>
             if is_unique_violation e then
               S (List.length init) = turns
               /\ fst (retry_loop env accountId amount_ turns retries w)
                  = Throw exhausted
             else fst (retry_loop env accountId amount_ turns retries w)
                  = Throw e
         end.
Proof.
  induction turns as [| turns' IH]; intros retries w Hsum Hpos; [lia |].
  cbn [retry_loop].
  assert (Hlt : Nat.ltb retries MAX_RETRIES = true)
    by (apply Nat.ltb_lt; lia).
  rewrite Hlt. unfold try_catch.
  destruct (attempt env accountId amount_ w) as [o w1] eqn:Hatt.
  destruct (attempt_cases _ _ _ _ _ Hatt)
    as (i & Hiss & Hstmt & Hrnd & Hpos1 & Hout).
  assert (Hfirst : forall k j, nth_error ([] ++ [i]) k = Some j ->
            stmt j = fresh_insert env (random w)
                       (draws_per_attempt * k + random_draws w)).
  { intros [| k] j Hk; cbn in Hk.
    - inversion Hk; subst j. rewrite Nat.mul_0_r. exact Hstmt.
    - destruct k; discriminate Hk. }
  destruct (failed i) as [e |] eqn:Hfailed.
  - destruct Hout as [-> Hdb].
    destruct (is_unique_violation e) eqn:Hu.
    + unfold bind. cbn [logger].
      destruct turns' as [| turns''].
      * assert (Hge : Nat.leb MAX_RETRIES (S retries) = true)
          by (apply Nat.leb_le; lia).
        rewrite Hge. exists [], i. cbn [throw fst snd issued].
        rewrite Hfailed, Hu.
        split; [exact Hiss |]. split; [cbn; lia |].
        split; [exact Hfirst |]. split; [constructor |].
        split; reflexivity.
      * assert (Hge : Nat.leb MAX_RETRIES (S retries) = false)
          by (apply Nat.leb_gt; lia).
        rewrite Hge.
        match goal with
        | |- context [retry_loop _ _ _ _ _ ?w2] => set (wn := w2)
        end.
        destruct (IH (S retries) wn ltac:(lia) ltac:(lia))
          as (init & final & Hiss2 & Hlen & Hnth & Hcol & Hfin).
        exists (i :: init), final.
        change (issued wn) with (issued w1) in Hiss2.
        change (random wn) with (random w1) in Hnth.
        change (random_draws wn) with (random_draws w1) in Hnth.
        rewrite Hiss2, Hiss. rewrite <- app_assoc.
        split; [reflexivity |].
        split; [cbn; lia |].
        split.
        { intros [| k] j Hk; cbn in Hk.
          - inversion Hk; subst j. rewrite Nat.mul_0_r. exact Hstmt.
          - rewrite (Hnth k j Hk). rewrite Hrnd, Hpos1.
            f_equal. unfold draws_per_attempt. lia. }
        split.
        { constructor; [| exact Hcol]. exists e. split; assumption. }
        destruct (failed final) as [e' |]; [| exact Hfin].
        destruct (is_unique_violation e'); [| exact Hfin].
        destruct Hfin as [Hl Hf]. split; [cbn; lia | exact Hf].
    + unfold bind. cbn [logger throw].
      exists [], i. cbn [fst snd issued]. rewrite Hfailed, Hu.
      split; [exact Hiss |]. split; [cbn; lia |].
      split; [exact Hfirst |]. split; [constructor |]. reflexivity.
  - destruct Hout as [-> Hdb].
    exists [], i. cbn [fst snd]. rewrite Hfailed.
    split; [exact Hiss |]. split; [cbn; lia |].
    split; [exact Hfirst |]. split; [constructor |].
    eexists; reflexivity.
Qed.

Lemma retry_loop_returns (accountId : string) (amount_ : Z) (turns : nat) :
  forall (retries : nat) (w w1 : World) (m : Minted),
    retry_loop env accountId amount_ turns retries w = (Return (Some m), w1) ->
    exists w0,
      db w0 = db w
      /\ m = minted_of env amount_ w0
      /\ db w1 = add_token (db w) (row_of env accountId amount_ w0).
Proof.
  induction turns as [| turns' IH]; intros retries w w1 m.
  - cbn. intros H. inversion H.
  - cbn [retry_loop]. destruct (Nat.ltb retries MAX_RETRIES);
      [| intros H; inversion H].
    unfold try_catch.
    destruct (attempt env accountId amount_ w) as [o w2] eqn:Hatt.
    destruct (attempt_cases _ _ _ _ _ Hatt)
      as (i & Hiss & Hstmt & Hrnd & Hpos1 & Hout).
    destruct (failed i) as [e |].
    + destruct Hout as [-> Hdb].
      destruct (is_unique_violation e).
      * unfold bind at 1. cbn [logger].
        destruct (Nat.leb MAX_RETRIES (S retries)); [intros H; inversion H |].
        intros H. apply IH in H. destruct H as (w0 & Hdb0 & Hm & Hdb1).
        cbn [db] in Hdb0, Hdb1. rewrite Hdb in Hdb0, Hdb1.
        exists w0. repeat split; assumption.
      * unfold bind at 1. cbn [logger throw]. intros H. inversion H.
    + destruct Hout as [-> Hdb]. intros H. inversion H; subst.
      exists w. repeat split. exact Hdb.
Qed.

Lemma mint_returns (accountId : string) (amount_ : Z) (w w1 : World)
    (m : Minted) :
  generateWithdrawalToken env accountId amount_ w = (Return (Some m), w1) ->
  exists w0,
    db w0 = db w
    /\ m = minted_of env amount_ w0
    /\ db w1 = add_token (db w) (row_of env accountId amount_ w0).
Proof.
  unfold generateWithdrawalToken.
  destruct (validateGenerationParams env accountId amount_).
  - unfold bind, logger, throw. intros H. inversion H.
  - apply retry_loop_returns.
Qed.

(** **** The shape of a minted token *)

Lemma charset_pick (n : nat) :
  exists c, String.get (Nat.modulo n (String.length charset)) charset = Some c
            /\ Ascii.eqb c dash = false.
Proof.
  assert (H : (Nat.modulo n (String.length charset) < 36)%nat)
    by (apply Nat.mod_upper_bound; discriminate).
  revert H. generalize (Nat.modulo n (String.length charset)). intros i Hi.
  do 36 (destruct i as [| i]; [eexists; split; reflexivity |]).
  lia.
Qed.

Lemma drawn_token_length (rnd : nat -> nat) (len pos : nat) :
  String.length (drawn_token rnd pos len) = len.
Proof.
  revert pos. induction len as [| len IH]; intros pos; [reflexivity |].
  cbn [drawn_token]. destruct (charset_pick (rnd pos)) as (c & -> & _).
  cbn. rewrite IH. reflexivity.
Qed.

Lemma drawn_token_no_dash (rnd : nat -> nat) (len pos : nat) :
  includes_dash (drawn_token rnd pos len) = false.
Proof.
  revert pos. induction len as [| len IH]; intros pos; [reflexivity |].
  cbn [drawn_token]. destruct (charset_pick (rnd pos)) as (c & -> & Hc).
  cbn. rewrite Hc, IH. reflexivity.
Qed.

Lemma split_dash_no_dash (s : string) :
  includes_dash s = false -> split_dash s = [s].
Proof.
  induction s as [| c s IH]; [reflexivity |].
  cbn. destruct (Ascii.eqb c dash); [discriminate |].
  cbn. intros H. rewrite (IH H). reflexivity.
Qed.

Lemma split_dash_joined (p c : string) :
  includes_dash p = false ->
  split_dash (p ++ String dash c) = p :: split_dash c.
Proof.
  induction p as [| x p IH]; [reflexivity |].
  cbn. destruct (Ascii.eqb x dash); [discriminate |].
  cbn. intros H. rewrite (IH H). reflexivity.
Qed.

Lemma includes_dash_joined (p c : string) :
  includes_dash (p ++ String dash c) = true.
Proof.
  induction p as [| x p IH]; [reflexivity |].
  cbn. rewrite IH. apply orb_true_r.
Qed.

Lemma joined_not_empty (p c : string) :
  ((p ++ String dash c) =? "")%string = false.
Proof. destruct p; reflexivity. Qed.

Lemma plaintext_split (rnd : nat -> nat) (pos : nat) :
  split_dash (plaintext_at rnd pos) = [prefix_at rnd pos; core_at rnd pos].
Proof.
  change (plaintext_at rnd pos)
    with (prefix_at rnd pos ++ String dash (core_at rnd pos))%string.
  rewrite split_dash_joined by apply drawn_token_no_dash.
  rewrite split_dash_no_dash by apply drawn_token_no_dash. reflexivity.
Qed.

Lemma plaintext_well_shaped (rnd : nat -> nat) (pos : nat) (agentId : string) :
  agentId <> ""%string ->
  well_shaped (plaintext_at rnd pos) agentId = true.
Proof.
  intros Hagent. unfold well_shaped. rewrite plaintext_split.
  change (plaintext_at rnd pos)
    with (prefix_at rnd pos ++ String dash (core_at rnd pos))%string.
  rewrite joined_not_empty, includes_dash_joined.
  apply String.eqb_neq in Hagent. rewrite Hagent.
  unfold prefix_at, core_at. rewrite !drawn_token_length. reflexivity.
Qed.

(** **** Lists of rows *)

Lemma find_app {A : Type} (f : A -> bool) (l1 l2 : list A) :
  find f (l1 ++ l2)
  = match find f l1 with Some x => Some x | None => find f l2 end.
Proof.
  induction l1 as [| x l1 IH]; [reflexivity |].
  cbn. destruct (f x); [reflexivity | exact IH].
Qed.

Lemma find_all_false {A : Type} (f : A -> bool) (l : list A) :
  (forall x, In x l -> f x = false) -> find f l = None.
Proof.
  induction l as [| x l IH]; [reflexivity |].
  intros H. cbn. rewrite (H x (or_introl eq_refl)).
  apply IH. intros y Hy. apply H. right. exact Hy.
Qed.

Lemma fresh_id_above (ids : list Id) (i : Id) :
  In i ids -> (i < fresh_id ids)%positive.
Proof.
  unfold fresh_id. induction ids as [| j ids IH]; [intros [] |].
  cbn [fold_right]. intros [-> | Hin].
  - lia.
  - specialize (IH Hin). lia.
Qed.

Lemma fresh_id_not_found (rows : list Token) :
  find (fun x => Pos.eqb (id x) (fresh_id (map id rows))) rows = None.
Proof.
  apply find_all_false. intros x Hx. apply Pos.eqb_neq.
  pose proof (fresh_id_above (map id rows) (id x) (in_map id rows x Hx)).
  lia.
Qed.

Lemma mark_used_others (i : Id) (now : Z) (rows : list Token) :
  (forall x, In x rows -> id x <> i) ->
  map (mark_used i now) rows = rows.
Proof.
  induction rows as [| x rows IH]; [reflexivity |].
  intros H. cbn [map]. rewrite IH by (intros y Hy; apply H; right; exact Hy).
  unfold mark_used.
  assert (Hx : Pos.eqb (id x) i = false)
    by (apply Pos.eqb_neq; apply H; left; reflexivity).
  rewrite Hx. reflexivity.
Qed.

Lemma mark_used_hash (i : Id) (now : Z) (x : Token) :
  token_hash (mark_used i now x) = token_hash x.
Proof.
  unfold mark_used. destruct (Pos.eqb (id x) i && _); reflexivity.
Qed.

Lemma fresh_id_differs (rows : list Token) (x : Token) :
  In x rows -> id x <> fresh_id (map id rows).
Proof.
  intros Hx.
  pose proof (fresh_id_above (map id rows) (id x) (in_map id rows x Hx)).
  lia.
Qed.

(** **** The outcome on a freshly minted row *)

Section FreshRow.

Variables (d : Db) (row : Token) (fullToken prefix_ : string).

Hypothesis others_differ :
  forall t, In t (tokens d) -> verifies env fullToken t = false.
Hypothesis row_is_fresh : id row = fresh_id (map id (tokens d)).
Hypothesis row_is_active : status row = ACTIVE.

Lemma candidates_do_not_verify (now : Z) (rows : list Token) :
  (forall t, In t rows -> verifies env fullToken t = false) ->
  find (verifies env fullToken) (filter (is_candidate prefix_ now) rows)
  = None.
Proof.
  intros H. apply find_all_false. intros x Hx.
  apply filter_In in Hx. destruct Hx as [Hx _]. apply H. exact Hx.
Qed.

Lemma outcome_on_fresh_row (agentId : string)
    (metadata : RiskEngine.Metadata) (now1 now2 now3 : Z) :
  prefix row = prefix_ ->
  verifies env fullToken row = true ->
  now1 < expires_at row -> now2 < expires_at row ->
  redeem_outcome env (add_token d row) fullToken prefix_ agentId metadata
    now1 now2 now3
  = ({| result := SUCCESS; tokenId := Some (id row);
        transactionId := Some (tx_id (ledger_row (add_token d row) row)) |},
     redeemed (add_token d row) row now3 agentId metadata).
Proof.
  intros Hprefix Hverifies Hnow1 Hnow2.
  unfold redeem_outcome. cbn [add_token tokens].
  rewrite filter_app. cbn [filter].
  assert (Hcand : is_candidate prefix_ now1 row = true).
  { unfold is_candidate. rewrite Hprefix, String.eqb_refl, row_is_active.
    cbn. apply Z.ltb_lt. exact Hnow1. }
  rewrite Hcand. rewrite find_app.
  rewrite (candidates_do_not_verify now1 (tokens d) others_differ).
  cbn [find]. rewrite Hverifies.
  assert (Hold : find (fun x => Pos.eqb (id x) (id row)) (tokens d) = None)
    by (rewrite row_is_fresh; apply fresh_id_not_found).
  rewrite find_app, Hold.
  cbn [find]. rewrite Pos.eqb_refl. rewrite row_is_active.
  assert (Hlive : (expires_at row <=? now2) = false)
    by (apply Z.leb_gt; exact Hnow2).
  rewrite Hlive. reflexivity.
Qed.

Lemma used_row_tokens (now : Z) :
  map (mark_used (id row) now) (tokens d ++ [row])
  = tokens d ++ [mark_used (id row) now row].
Proof.
  rewrite map_app. cbn [map]. rewrite mark_used_others; [reflexivity |].
  intros x Hx. rewrite row_is_fresh. apply fresh_id_differs. exact Hx.
Qed.

Lemma outcome_after_use (agentId agentId' : string)
    (metadata metadata' : RiskEngine.Metadata) (now now1 now2 now3 : Z) :
  redeem_outcome env (redeemed (add_token d row) row now agentId metadata)
    fullToken prefix_ agentId' metadata' now1 now2 now3
  = (only INVALID, redeemed (add_token d row) row now agentId metadata).
Proof.
  unfold redeem_outcome. cbn [redeemed add_token tokens].
  rewrite used_row_tokens. rewrite filter_app. cbn [filter].
  assert (Hcand : is_candidate prefix_ now1 (mark_used (id row) now row)
                  = false).
  { unfold mark_used. rewrite Pos.eqb_refl, row_is_active. cbn.
    unfold is_candidate. cbn. rewrite andb_false_r. reflexivity. }
  rewrite Hcand. rewrite app_nil_r.
  rewrite (candidates_do_not_verify now1 (tokens d) others_differ).
  reflexivity.
Qed.

Lemma hashes_ok_after_mint :
  hashes_ok d -> List.length (token_hash row) = 32%nat ->
  hashes_ok (add_token d row).
Proof.
  intros Hd Hrow. unfold hashes_ok. cbn [add_token tokens].
  apply Forall_app. split; [exact Hd |]. constructor; [exact Hrow |].
  constructor.
Qed.

Lemma hashes_ok_after_use (now : Z) (agentId : string)
    (metadata : RiskEngine.Metadata) :
  hashes_ok (add_token d row) ->
  hashes_ok (redeemed (add_token d row) row now agentId metadata).
Proof.
  unfold hashes_ok. cbn [redeemed add_token tokens]. intros H.
  apply Forall_forall. intros x Hx. apply in_map_iff in Hx.
  destruct Hx as (y & <- & Hy). rewrite mark_used_hash.
  revert y Hy. apply Forall_forall. exact H.
Qed.

End FreshRow.

(** **** A row found by its identifier or by its plaintext *)

Lemma find_by_id (rows : list Token) (t : Token) :
  NoDup (map id rows) -> In t rows ->
  find (fun x => Pos.eqb (id x) (id t)) rows = Some t.
Proof.
  induction rows as [| x rows IH]; [intros _ [] |].
  cbn [map find]. intros Hnd [-> | Hin].
  - rewrite Pos.eqb_refl. reflexivity.
  - inversion Hnd as [| ? ? Hx Hrest]; subst.
    destruct (Pos.eqb (id x) (id t)) eqn:E.
    + apply Pos.eqb_eq in E. exfalso. apply Hx. rewrite E.
      apply in_map. exact Hin.
    + apply IH; assumption.
Qed.

Lemma find_the_only {A : Type} (f : A -> bool) (l : list A) (t : A) :
  (forall x, In x l -> f x = true -> x = t) ->
  In t l -> f t = true -> find f l = Some t.
Proof.
  induction l as [| x l IH]; [intros _ [] |].
  intros Honly Hin Ht. cbn [find]. destruct (f x) eqn:E.
  - rewrite (Honly x (or_introl eq_refl) E). reflexivity.
  - destruct Hin as [-> | Hin]; [rewrite Ht in E; discriminate E |].
    apply IH; [| exact Hin | exact Ht].
    intros y Hy. apply Honly. right. exact Hy.
Qed.

End TokenServiceFacts.

Section TokenServiceProperties.

Import TokenService Scenario.
Local Open Scope Z_scope.

Local Opaque hashToken.

(** **** C9 *)

(** C9. The hash of a token is the SHA-256 digest of the bytes of the
    pepper, then of the plaintext, then of the salt; and the row that a
    successful minting stores holds a salt of 16 bytes and that digest
    of the plaintext handed back. *)
Theorem stored_hash_is_peppered_digest (env : Env) (accountId : string)
    (amount_ : Z) (w w' : World) (m : Minted) :
  generateWithdrawalToken env accountId amount_ w = (Return (Some m), w') ->
  (forall (plaintextToken : string) (salt_ : list byte),
      hashToken env plaintextToken salt_
      = Sha256.digest (Bytes.utf8 (pepper env) ++ Bytes.utf8 plaintextToken
                       ++ salt_))
  /\ exists row,
       tokens (db w') = tokens (db w) ++ [row]
       /\ id row = minted_id m
       /\ List.length (salt row) = 16%nat
       /\ token_hash row
          = Sha256.digest (Bytes.utf8 (pepper env) ++ Bytes.utf8 (token m)
                           ++ salt row).
Proof.
  intros Hmint.
  pose proof (hashToken_digest env) as Hhash.
  split; [exact Hhash |].
  destruct (mint_returns env _ _ _ _ _ Hmint) as (w0 & Hdb0 & -> & Hdb1).
  exists (row_of env accountId amount_ w0).
  rewrite Hdb1, <- Hdb0.
  split; [reflexivity |]. split; [reflexivity |].
  split; [reflexivity |]. apply Hhash.
Qed.

(** C9, on the minting of the scenario. *)
Lemma stored_hash_is_peppered_digest_witness :
  exists row,
    tokens (db w1) = [row]
    /\ List.length (salt row) = 16%nat
    /\ token_hash row
       = Sha256.digest (Bytes.utf8 (pepper env0) ++ Bytes.utf8 (token minted0)
                        ++ salt row).
Proof.
  destruct (stored_hash_is_peppered_digest env0 account 200 w0 w1 minted0)
    as (_ & row & Hrows & _ & Hsalt & Hhash).
  - vm_compute. reflexivity.
  - exists row. split; [exact Hrows |]. split; [exact Hsalt | exact Hhash].
Defined.

(** **** C2 *)

(** C2, counterexample. A well-formed token that matches no row ends in
    INVALID, and a token whose expiry falls between the scan and the
    re-check ends in EXPIRED_OR_USED; neither leaves a row in
    redemption_attempts. *)
Lemma attempt_row_counterexample :
  (fst (redeemWithdrawalToken env0 "ABCD-EFGH1234" "atm-1"
          RiskEngine.no_metadata w0) = Return (only INVALID)
   /\ redemption_attempts
        (db (snd (redeemWithdrawalToken env0 "ABCD-EFGH1234" "atm-1"
                    RiskEngine.no_metadata w0))) = [])
  /\ (fst (redeemWithdrawalToken env0 (token minted0) "atm-1"
             RiskEngine.no_metadata across_expiry)
      = Return (only EXPIRED_OR_USED)
      /\ redemption_attempts
           (db (snd (redeemWithdrawalToken env0 (token minted0) "atm-1"
                       RiskEngine.no_metadata across_expiry))) = []).
Proof.
  split; split; vm_compute; reflexivity.
Qed.

(** C2, amended. A redemption that returns SUCCESS has added exactly one
    row to redemption_attempts, for the redeemed token and with result
    SUCCESS; one that returns INVALID or EXPIRED_OR_USED has added
    none. *)
Theorem attempt_row_only_on_success (env : Env) (fullToken agentId : string)
    (metadata : RiskEngine.Metadata) (w w' : World) (r : Redemption) :
  redeemWithdrawalToken env fullToken agentId metadata w = (Return r, w') ->
  match result r with
  | SUCCESS =>
      exists tid,
        tokenId r = Some tid
        /\ redemption_attempts (db w')
           = redemption_attempts (db w)
             ++ [{| ra_token_id := tid; ra_agent_id := agentId;
                    ra_result := "SUCCESS"; ra_metadata := metadata |}]
  | INVALID | EXPIRED_OR_USED =>
      redemption_attempts (db w') = redemption_attempts (db w)
  end.
Proof.
  intros H. apply redeem_returns in H.
  destruct H as [(_ & -> & ->) | (prefix_ & coreToken & rest & _ & Hcase)].
  - reflexivity.
  - destruct Hcase as [-> -> | -> -> | c t _ _ _ _ _ _ -> ->].
    + reflexivity.
    + reflexivity.
    + exists (id t). split; reflexivity.
Qed.

(** C2, on the first redemption of the scenario. *)
Lemma attempt_row_only_on_success_witness :
  exists tid,
    tokenId {| result := SUCCESS; tokenId := Some (minted_id minted0);
               transactionId := Some 2%positive |} = Some tid
    /\ redemption_attempts (db (snd first_redeem))
       = redemption_attempts (db w1)
         ++ [{| ra_token_id := tid; ra_agent_id := "atm-1";
                ra_result := "SUCCESS";
                ra_metadata := RiskEngine.no_metadata |}].
Proof.
  apply (attempt_row_only_on_success env0 (token minted0) "atm-1"
           RiskEngine.no_metadata w1 (snd first_redeem)
           {| result := SUCCESS; tokenId := Some (minted_id minted0);
              transactionId := Some 2%positive |}).
  vm_compute. reflexivity.
Defined.

(** **** C3 *)

(** C3, counterexample. A lower-case token does not match the pattern of
    the route, passes the guards on its shape and reaches the database:
    a transaction is opened and the candidates are read. *)
Lemma malformed_counterexample :
  matches_token_pattern "abcd-efghijkl" = false
  /\ issued w0 = []
  /\ map stmt (issued (snd (redeemWithdrawalToken env0 "abcd-efghijkl" "atm-1"
                              RiskEngine.no_metadata w0)))
     = [BEGIN; SelectCandidates "abcd" (clock w0 0%nat); COMMIT].
Proof.
  repeat split; vm_compute; reflexivity.
Qed.

Lemma upper_or_digit_not_dash (c : ascii) :
  upper_or_digit c = true -> Ascii.eqb c dash = false.
Proof.
  destruct c as [[] [] [] [] [] [] [] []]; intros H;
    solve [reflexivity | discriminate H].
Qed.

Lemma pattern_is_well_shaped (fullToken agentId : string) :
  matches_token_pattern fullToken = true -> agentId <> ""%string ->
  well_shaped fullToken agentId = true.
Proof.
  intros Hm Hagent. apply String.eqb_neq in Hagent.
  unfold matches_token_pattern in Hm.
  do 13 (destruct fullToken as [| ? fullToken]; [discriminate Hm |]).
  destruct fullToken; [| discriminate Hm].
  cbn in Hm.
  repeat match type of Hm with
         | (_ && _) = true => apply andb_prop in Hm
         end.
  repeat match goal with
         | H : _ /\ _ |- _ => destruct H
         end.
  repeat match goal with
         | H : upper_or_digit _ = true |- _ =>
             apply upper_or_digit_not_dash in H
         | H : (_ && _) = true |- _ => apply andb_prop in H; destruct H
         end.
  unfold well_shaped. cbn.
  repeat match goal with
         | H : Ascii.eqb _ dash = _ |- _ => rewrite H; clear H
         end.
  cbn. rewrite Hagent. reflexivity.
Qed.

(** C3, amended. A token that is empty, holds no dash, or whose first
    two dash-separated pieces are not of 4 and of 8 characters (or a
    missing agent) is answered INVALID with no statement sent and the
    world as it was; every token of the pattern of the route passes
    these guards, which ask nothing of the alphabet. *)
Theorem misshaped_token_rejected (env : Env) (fullToken agentId : string)
    (metadata : RiskEngine.Metadata) (w : World) :
  well_shaped fullToken agentId = false ->
  redeemWithdrawalToken env fullToken agentId metadata w
  = (Return (only INVALID), w)
  /\ (agentId <> ""%string -> matches_token_pattern fullToken = false).
Proof.
  intros Hshape. split.
  - apply redeem_rejects. exact Hshape.
  - intros Hagent. destruct (matches_token_pattern fullToken) eqn:Hm;
      [| reflexivity].
    rewrite (pattern_is_well_shaped _ _ Hm Hagent) in Hshape.
    discriminate Hshape.
Qed.

(** C3, on the malformed token abc-xyz of the specification. *)
Lemma misshaped_token_rejected_witness :
  redeemWithdrawalToken env0 "abc-xyz" "atm-1" RiskEngine.no_metadata w0
  = (Return (only INVALID), w0)
  /\ ("atm-1"%string <> ""%string -> matches_token_pattern "abc-xyz" = false).
Proof.
  apply (misshaped_token_rejected env0 "abc-xyz" "atm-1"
           RiskEngine.no_metadata w0).
  reflexivity.
Defined.

(** **** C7 *)

(** C7. With valid parameters the minting sends between one and three
    inserts. Each is made of 28 fresh draws of the generator (core,
    prefix, salt); each but the last came back with the code 23505 of
    a unique violation; if the last one succeeds the token is returned,
    if it fails with 23505 it was the third and the minting fails with
    the error of exhausted retries, and if it fails with anything else
    that error is thrown as it is, with no further insert. *)
Theorem mint_retries_on_collision_only (env : Env) (accountId : string)
    (amount_ : Z) (w : World) :
  validateGenerationParams env accountId amount_ = None ->
  exists init final,
    issued (snd (generateWithdrawalToken env accountId amount_ w))
    = issued w ++ init ++ [final]
    /\ (List.length (init ++ [final]) <= MAX_RETRIES)%nat
    /\ (forall k i, nth_error (init ++ [final]) k = Some i ->
          stmt i = fresh_insert env (random w)
                     (draws_per_attempt * k + random_draws w))
    /\ Forall collided init
    /\ match failed final with
       | None =>
           exists m, fst (generateWithdrawalToken env accountId amount_ w)
                     = Return (Some m)
       | Some e =>
           if is_unique_violation e then
             List.length (init ++ [final]) = MAX_RETRIES
             /\ fst (generateWithdrawalToken env accountId amount_ w)
                = Throw exhausted
           else fst (generateWithdrawalToken env accountId amount_ w)
                = Throw e
       end.
Proof.
  intros Hvalid. unfold generateWithdrawalToken. rewrite Hvalid.
  destruct (retry_loop_spec env accountId amount_ MAX_RETRIES 0 w
              eq_refl ltac:(unfold MAX_RETRIES; lia))
    as (init & final & Hiss & Hlen & Hnth & Hcol & Hfin).
  exists init, final.
  assert (Hlast : List.length (init ++ [final]) = S (List.length init))
    by (rewrite length_app; cbn; lia).
  split; [exact Hiss |]. split; [lia |].
  split; [exact Hnth |]. split; [exact Hcol |].
  destruct (failed final) as [e |]; [| exact Hfin].
  destruct (is_unique_violation e); [| exact Hfin].
  destruct Hfin as [Hl Hf]. split; [lia | exact Hf].
Qed.

(** C7, on a database where every insert collides, and on one that
    loses its connection at the second insert. *)
Lemma mint_retries_on_collision_only_witness :
  (exists init final,
      issued (snd (generateWithdrawalToken env0 account 200 colliding))
      = issued colliding ++ init ++ [final]
      /\ (List.length (init ++ [final]) <= MAX_RETRIES)%nat
      /\ Forall collided init)
  /\ fst (generateWithdrawalToken env0 account 200 colliding) = Throw exhausted
  /\ fst (generateWithdrawalToken env0 account 200 disconnected)
     = Throw connection_lost
  /\ List.length (issued (snd (generateWithdrawalToken env0 account 200
                                 disconnected))) = 2%nat.
Proof.
  split.
  - destruct (mint_retries_on_collision_only env0 account 200 colliding
                eq_refl)
      as (init & final & Hiss & Hlen & _ & Hcol & _).
    exists init, final. split; [exact Hiss |]. split; [exact Hlen | exact Hcol].
  - split; [| split]; vm_compute; reflexivity.
Defined.

(** **** C1 *)

(** C1, counterexample. After a minting and a first redemption that
    succeeds, the second redemption of the same plaintext returns
    INVALID, not EXPIRED_OR_USED: the used row is no longer among the
    ACTIVE candidates of the scan. *)
Lemma second_redeem_counterexample :
  fst minting = Return (Some minted0)
  /\ fst first_redeem
     = Return {| result := SUCCESS; tokenId := Some (minted_id minted0);
                 transactionId := Some 2%positive |}
  /\ fst second_redeem = Return (only INVALID)
  /\ only INVALID <> only EXPIRED_OR_USED.
Proof.
  repeat split; try (vm_compute; reflexivity). discriminate.
Qed.

(** C1, amended. For every minted token whose plaintext verifies against
    no older row, with no fault of the database and both readings of the
    clock before the expiry, the first redemption of the returned
    plaintext returns SUCCESS for that token, and a second one
    afterwards returns INVALID; the ledger has gained one row, for that
    token. *)
Theorem mint_then_redeem_twice (env : Env) (accountId agentId : string)
    (amount_ : Z) (metadata metadata' : RiskEngine.Metadata)
    (w w1 : World) (m : Minted) :
  generateWithdrawalToken env accountId amount_ w = (Return (Some m), w1) ->
  agentId <> ""%string ->
  no_faults w1 ->
  hashes_ok (db w) ->
  (forall t, In t (tokens (db w)) -> verifies env (token m) t = false) ->
  scan_time w1 < expiresAt m ->
  lock_time w1 < expiresAt m ->
  exists w2 w3 txid,
    redeemWithdrawalToken env (token m) agentId metadata w1
    = (Return {| result := SUCCESS; tokenId := Some (minted_id m);
                 transactionId := Some txid |}, w2)
    /\ redeemWithdrawalToken env (token m) agentId metadata' w2
       = (Return (only INVALID), w3)
    /\ exists entry,
         transactions (db w3) = transactions (db w) ++ [entry]
         /\ tx_token_id entry = minted_id m.
Proof.
  intros Hmint Hagent Hnf Hok Hothers Hscan Hlock.
  destruct (mint_returns env _ _ _ _ _ Hmint) as (w0 & Hdb0 & -> & Hdb1).
  set (row := row_of env accountId amount_ w0) in *.
  cbn [minted_of token minted_id expiresAt] in *.
  set (pt := plaintext_at (random w0) (random_draws w0)) in *.
  assert (Hfresh : id row = fresh_id (map id (tokens (db w))))
    by (unfold row, row_of; cbn [id]; rewrite Hdb0; reflexivity).
  assert (Hverifies : verifies env pt row = true)
    by (unfold verifies, row, row_of, hash_at; cbn [salt token_hash];
        apply Bytes_eqb_refl).
  assert (Hshape : well_shaped pt agentId = true)
    by (apply plaintext_well_shaped; exact Hagent).
  assert (Hok1 : hashes_ok (db w1)).
  { rewrite Hdb1. apply hashes_ok_after_mint; [exact Hok |].
    unfold row, row_of, hash_at. cbn [token_hash].
    apply hashToken_length. }
  destruct (redeem_runs env pt agentId metadata w1 Hshape Hnf Hok1)
    as (prefix_ & coreToken & rest & w2 & Hsplit & Hred & Hdb2 & Hf2).
  unfold pt in Hsplit. rewrite plaintext_split in Hsplit.
  inversion Hsplit; subst prefix_ coreToken rest. clear Hsplit.
  rewrite Hdb1 in Hred, Hdb2.
  rewrite (outcome_on_fresh_row env (db w) row pt
             (prefix_at (random w0) (random_draws w0)) Hothers Hfresh eq_refl
             agentId metadata _ _ _ eq_refl Hverifies Hscan Hlock)
    in Hred, Hdb2.
  cbn [fst snd] in Hred, Hdb2.
  assert (Hnf2 : no_faults w2) by (intros n; rewrite Hf2; apply Hnf).
  assert (Hok2 : hashes_ok (db w2)).
  { rewrite Hdb2. apply hashes_ok_after_use.
    rewrite <- Hdb1. exact Hok1. }
  destruct (redeem_runs env pt agentId metadata' w2 Hshape Hnf2 Hok2)
    as (prefix_ & coreToken & rest & w3 & Hsplit & Hred2 & Hdb3 & _).
  rewrite Hdb2 in Hred2, Hdb3.
  rewrite (outcome_after_use env (db w) row pt prefix_ Hothers Hfresh eq_refl)
    in Hred2, Hdb3.
  cbn [fst snd] in Hred2, Hdb3.
  exists w2, w3, (tx_id (ledger_row (add_token (db w) row) row)).
  split; [exact Hred |]. split; [exact Hred2 |].
  exists (ledger_row (add_token (db w) row) row).
  rewrite Hdb3. split; reflexivity.
Qed.

(** C1, on the scenario: a minting and two redemptions. *)
Lemma mint_then_redeem_twice_witness :
  exists w2 w3 txid,
    redeemWithdrawalToken env0 (token minted0) "atm-1" RiskEngine.no_metadata w1
    = (Return {| result := SUCCESS; tokenId := Some (minted_id minted0);
                 transactionId := Some txid |}, w2)
    /\ redeemWithdrawalToken env0 (token minted0) "atm-1"
         RiskEngine.no_metadata w2
       = (Return (only INVALID), w3)
    /\ exists entry,
         transactions (db w3) = transactions (db w0) ++ [entry]
         /\ tx_token_id entry = minted_id minted0.
Proof.
  apply (mint_then_redeem_twice env0 account "atm-1" 200
           RiskEngine.no_metadata RiskEngine.no_metadata w0 w1 minted0).
  - vm_compute. reflexivity.
  - discriminate.
  - intros n. reflexivity.
  - constructor.
  - intros t [].
  - vm_compute. reflexivity.
  - vm_compute. reflexivity.
Defined.

(** **** C4 *)

(** C4, counterexample. Redeeming an ACTIVE token at the very instant of
    its expiry returns INVALID, not EXPIRED_OR_USED: the scan of the
    candidates already asks for an expiry after now. *)
Lemma redeem_at_expiry_counterexample :
  tokens (db at_expiry) = [row0]
  /\ status row0 = ACTIVE
  /\ verifies env0 (token minted0) row0 = true
  /\ scan_time at_expiry = expires_at row0
  /\ lock_time at_expiry = expires_at row0
  /\ fst (redeemWithdrawalToken env0 (token minted0) "atm-1"
            RiskEngine.no_metadata at_expiry) = Return (only INVALID)
  /\ only INVALID <> only EXPIRED_OR_USED.
Proof.
  repeat split; try (vm_compute; reflexivity). discriminate.
Qed.

(** C4, amended. For an ACTIVE token, the only row its plaintext
    verifies against: a redemption succeeds only if the clock is
    strictly before the expiry both at the scan and at the re-check
    under the lock; with the expiry reached at the scan (now equal to
    expires_at included) it returns INVALID, with the expiry reached
    between the scan and the re-check it returns EXPIRED_OR_USED, and
    in both cases the database is left as it was: the token is not set
    to USED and the ledger gains no row. *)
Theorem expiry_is_strict (env : Env) (fullToken agentId : string)
    (metadata : RiskEngine.Metadata) (w : World) (t : Token) :
  In t (tokens (db w)) ->
  status t = ACTIVE ->
  NoDup (map id (tokens (db w))) ->
  (forall x, In x (tokens (db w)) -> verifies env fullToken x = true -> x = t) ->
  (forall r w',
      redeemWithdrawalToken env fullToken agentId metadata w = (Return r, w') ->
      result r = SUCCESS ->
      scan_time w < expires_at t /\ lock_time w < expires_at t)
  /\ (no_faults w -> hashes_ok (db w) ->
      expires_at t <= scan_time w ->
      exists w',
        redeemWithdrawalToken env fullToken agentId metadata w
        = (Return (only INVALID), w')
        /\ db w' = db w)
  /\ (no_faults w -> hashes_ok (db w) ->
      well_shaped fullToken agentId = true ->
      (exists coreToken rest,
          split_dash fullToken = prefix t :: coreToken :: rest) ->
      verifies env fullToken t = true ->
      scan_time w < expires_at t -> expires_at t <= lock_time w ->
      exists w',
        redeemWithdrawalToken env fullToken agentId metadata w
        = (Return (only EXPIRED_OR_USED), w')
        /\ db w' = db w).
Proof.
  intros Hin Hactive Hnodup Honly. split; [| split].
  - intros r w' Hred Hsuccess. apply redeem_returns in Hred.
    destruct Hred as [(_ & -> & _) | (prefix_ & coreToken & rest & _ & Hcase)];
      [discriminate Hsuccess |].
    destruct Hcase as [-> _ | -> _ | c t' Hc Hcand Hv Hfind _ Hlock _ _];
      try discriminate Hsuccess.
    pose proof (Honly c Hc Hv) as ->.
    rewrite (find_by_id _ t Hnodup Hin) in Hfind.
    inversion Hfind; subst t'. split; [| exact Hlock].
    unfold is_candidate in Hcand.
    apply andb_prop in Hcand. destruct Hcand as [_ Hcand].
    apply Z.ltb_lt. exact Hcand.
  - intros Hnf Hok Hexpired.
    destruct (well_shaped fullToken agentId) eqn:Hshape.
    + destruct (redeem_runs env fullToken agentId metadata w Hshape Hnf Hok)
        as (prefix_ & coreToken & rest & w' & _ & Hred & Hdb & _).
      assert (Hnone : find (verifies env fullToken)
                        (filter (is_candidate prefix_ (scan_time w))
                           (tokens (db w))) = None).
      { apply find_all_false. intros x Hx. apply filter_In in Hx.
        destruct Hx as [Hx Hcand].
        destruct (verifies env fullToken x) eqn:Hv; [| reflexivity].
        pose proof (Honly x Hx Hv) as ->.
        unfold is_candidate in Hcand.
        apply andb_prop in Hcand. destruct Hcand as [_ Hcand].
        apply Z.ltb_lt in Hcand. lia. }
      unfold redeem_outcome in Hred, Hdb. rewrite Hnone in Hred, Hdb.
      exists w'. split; [exact Hred | exact Hdb].
    + exists w. split; [apply redeem_rejects; exact Hshape | reflexivity].
  - intros Hnf Hok Hshape (coreToken & rest & Hsplit) Hv Hscan Hlock.
    destruct (redeem_runs env fullToken agentId metadata w Hshape Hnf Hok)
      as (prefix_ & coreToken' & rest' & w' & Hsplit' & Hred & Hdb & _).
    rewrite Hsplit in Hsplit'. inversion Hsplit'; subst prefix_.
    assert (Hcand : is_candidate (prefix t) (scan_time w) t = true).
    { unfold is_candidate. rewrite String.eqb_refl, Hactive. cbn.
      apply Z.ltb_lt. exact Hscan. }
    assert (Hsome : find (verifies env fullToken)
                      (filter (is_candidate (prefix t) (scan_time w))
                         (tokens (db w))) = Some t).
    { apply find_the_only; [| | exact Hv].
      - intros x Hx. apply filter_In in Hx. destruct Hx as [Hx _].
        apply Honly. exact Hx.
      - apply filter_In. split; [exact Hin | exact Hcand]. }
    unfold redeem_outcome in Hred, Hdb. rewrite Hsome in Hred, Hdb.
    rewrite (find_by_id _ t Hnodup Hin) in Hred, Hdb.
    assert (Hdead : (expires_at t <=? lock_time w) = true)
      by (apply Z.leb_le; exact Hlock).
    rewrite Hactive, Hdead in Hred, Hdb.
    exists w'. split; [exact Hred | exact Hdb].
Qed.

Lemma scenario_rows (w : World) :
  tokens (db w) = [row0] ->
  In row0 (tokens (db w))
  /\ NoDup (map id (tokens (db w)))
  /\ (forall x, In x (tokens (db w)) ->
        verifies env0 (token minted0) x = true -> x = row0)
  /\ hashes_ok (db w).
Proof.
  intros Hrows. unfold hashes_ok. rewrite Hrows.
  split; [left; reflexivity |].
  split; [constructor; [intros [] | constructor] |].
  split; [intros x [<- | []] _; reflexivity |].
  constructor; [vm_compute; reflexivity | constructor].
Qed.

(** C4, on the minted token redeemed at its expiry, and across it. *)
Lemma expiry_is_strict_witness :
  (exists w',
      redeemWithdrawalToken env0 (token minted0) "atm-1"
        RiskEngine.no_metadata at_expiry = (Return (only INVALID), w')
      /\ db w' = db at_expiry)
  /\ (exists w',
         redeemWithdrawalToken env0 (token minted0) "atm-1"
           RiskEngine.no_metadata across_expiry
         = (Return (only EXPIRED_OR_USED), w')
         /\ db w' = db across_expiry).
Proof.
  split.
  - assert (Hrows : tokens (db at_expiry) = [row0])
      by (vm_compute; reflexivity).
    destruct (scenario_rows at_expiry Hrows) as (Hin & Hnd & Hone & Hok).
    destruct (expiry_is_strict env0 (token minted0) "atm-1"
                RiskEngine.no_metadata at_expiry row0
                Hin eq_refl Hnd Hone) as (_ & Hb & _).
    apply Hb.
    + intros n. reflexivity.
    + exact Hok.
    + vm_compute. discriminate.
  - assert (Hrows : tokens (db across_expiry) = [row0])
      by (vm_compute; reflexivity).
    destruct (scenario_rows across_expiry Hrows) as (Hin & Hnd & Hone & Hok).
    destruct (expiry_is_strict env0 (token minted0) "atm-1"
                RiskEngine.no_metadata across_expiry row0
                Hin eq_refl Hnd Hone) as (_ & _ & Hc).
    apply Hc.
    + intros n. reflexivity.
    + exact Hok.
    + vm_compute. reflexivity.
    + exists "DKRY5CJQ"%string, []. vm_compute. reflexivity.
    + vm_compute. reflexivity.
    + vm_compute. reflexivity.
    + vm_compute. discriminate.
Defined.

End TokenServiceProperties.

(* ================================================================== *)
(** ** Properties of the rate limiter *)
(* ================================================================== *)

Section RateLimiterProperties.

Import RateLimiter.
Local Open Scope Z_scope.

Lemma skipn_exact {A : Type} (l l' : list A) :
  skipn (List.length l) (l ++ l') = l'.
Proof. induction l as [| x l IH]; [reflexivity | exact IH]. Qed.

Lemma onRequest_proceeds (hook handler : Eff World unit) (w w' : World) :
  hook w = (Return tt, w') -> sent (reply w') = None ->
  onRequest hook handler w = handler w'.
Proof.
  intros Hhook Hsent. unfold onRequest, bind. rewrite Hhook, Hsent.
  reflexivity.
Qed.

Lemma onRequest_stops (hook handler : Eff World unit) (w w' : World)
    (e : JsError) :
  hook w = (Throw e, w') -> onRequest hook handler w = (Throw e, w').
Proof. intros Hhook. unfold onRequest, bind. rewrite Hhook. reflexivity. Qed.

Ltac no_failure H :=
  repeat match type of H with
         | Exists _ (_ :: _) =>
             let H' := fresh H in
             apply Exists_cons in H; destruct H as [H' | H];
             [unfold has_failed in H'; cbn in H'; congruence |]
         end;
  inversion H.

Ltac world_fields :=
  cbn [fst snd finish redis issued fault now randomUUID logger_level log
       reply statusCode sent headers remove_on_success].

Ltac caught_by_logger w :=
  unfold logSecurity; world_fields;
  destruct (is_noop (logger_level w) error); world_fields.

Ltac closing_cases w :=
  unfold bind, toISOString, logSecurity, reply_status, reply_send,
    reply_header, wrap_send, with_reply, ret;
  world_fields;
  repeat match goal with
         | |- context [is_date ?x] => destruct (is_date x); world_fields
         | |- context [is_noop (logger_level w) ?l] =>
             destruct (is_noop (logger_level w) l); world_fields
         | |- context [if ?b then _ else _] =>
             is_var b; destruct b; world_fields
         end.

(** What a run of the middleware on which a command failed has done. *)
Lemma failure_is_caught (config : Config) (options : Options)
    (request : Request) (w w' : World) (o : Outcome unit) :
  alone (createRateLimiter config options request) w = (o, w') ->
  Exists has_failed (commands_since w w') ->
  o = (if is_noop (logger_level w) error then Return tt
       else Throw detached_call)
  /\ log w' = log w
  /\ reply w' = reply w.
Proof.
  unfold alone, createRateLimiter, await, closing, settle, commands_since.
  generalize (or_else (windowMs options) (config_windowMs config)).
  generalize (or_else (maxRequests options) (config_maxRequests config)).
  generalize (or_else (keyGenerator options) default_key request).
  generalize (or_else (skipSuccessfulRequests options)
                      (config_skipSuccessfulRequests config)).
  intros skip key max_ window_.
  cbn [finish]. unfold command at 1.
  destruct (fault w (List.length (issued w))) as [e1 |]; world_fields.
  { caught_by_logger w; intros H _; inversion H; subst; repeat split. }
  unfold command at 1. world_fields.
  destruct (fault w (List.length (issued w ++ _))) as [e2 |]; world_fields.
  { caught_by_logger w; intros H _; inversion H; subst; repeat split. }
  destruct (max_ <=? _); world_fields.
  - unfold command at 1. world_fields.
    destruct (fault w (List.length ((issued w ++ _) ++ _))) as [e3 |];
      world_fields.
    { caught_by_logger w; intros H _; inversion H; subst; repeat split. }
    closing_cases w;
      intros H Hfailed; inversion H; subst; cbn [issued] in Hfailed;
      rewrite <- !app_assoc in Hfailed; rewrite skipn_exact in Hfailed;
      cbn [app] in Hfailed; no_failure Hfailed.
  - unfold command at 1. world_fields.
    destruct (fault w (List.length ((issued w ++ _) ++ _))) as [e3 |];
      world_fields.
    { caught_by_logger w; intros H _; inversion H; subst; repeat split. }
    unfold command at 1. world_fields.
    destruct (fault w (List.length (((issued w ++ _) ++ _) ++ _)))
      as [e4 |]; world_fields.
    { caught_by_logger w; intros H _; inversion H; subst; repeat split. }
    closing_cases w;
      intros H Hfailed; inversion H; subst; cbn [issued] in Hfailed;
      rewrite <- !app_assoc in Hfailed; rewrite skipn_exact in Hfailed;
      cbn [app] in Hfailed; no_failure Hfailed.
Qed.

(** C8. If a Redis command of the middleware fails, the [catch] block
    calls [logSecurity('error', ...)], which calls the method of pino
    without its logger. No line is written at any level of the logger,
    and the reply is left untouched. At a level of the logger at which
    errors are written (the default [info] is one), the call throws a
    TypeError that the middleware throws in turn, and the request does
    not reach its handler: the middleware does not fail open. At the
    levels [fatal] and [silent] the middleware returns and the request
    goes on to its handler, unlogged. *)
Theorem redis_failure_rejects (config : Config) (options : Options)
    (request : Request) (handler : Eff World unit) (w : World) :
  Exists has_failed
    (commands_since w
       (snd (alone (createRateLimiter config options request) w))) ->
  log (snd (alone (createRateLimiter config options request) w)) = log w
  /\ reply (snd (alone (createRateLimiter config options request) w))
     = reply w
  /\ (is_noop (logger_level w) error = false ->
      fst (alone (createRateLimiter config options request) w)
      = Throw detached_call
      /\ onRequest (alone (createRateLimiter config options request))
           handler w
         = (Throw detached_call,
            snd (alone (createRateLimiter config options request) w)))
  /\ (is_noop (logger_level w) error = true ->
      fst (alone (createRateLimiter config options request) w) = Return tt
      /\ (sent (reply w) = None ->
          onRequest (alone (createRateLimiter config options request))
            handler w
          = handler
              (snd (alone (createRateLimiter config options request) w)))).
Proof.
  intros Hfailed.
  destruct (alone (createRateLimiter config options request) w)
    as [o w'] eqn:Hrun.
  cbn [fst snd] in *.
  destruct (failure_is_caught _ _ _ _ _ _ Hrun Hfailed)
    as (Ho & Hlog & Hreply).
  split; [exact Hlog |]. split; [exact Hreply |].
  split; intros Hlevel; rewrite Hlevel in Ho; subst o.
  - split; [reflexivity |]. apply onRequest_stops. exact Hrun.
  - split; [reflexivity |]. intros Hsent.
    apply onRequest_proceeds; [exact Hrun |].
    rewrite Hreply. exact Hsent.
Qed.

(** C8, on an outage of Redis that starts at the second command, the
    logger at its default level: the strict limiter throws, nothing is
    logged, and the handler does not run. *)
Lemma redis_failure_rejects_witness :
  log (snd (alone (createRateLimiter the_config strict_options a_request)
              outage)) = []
  /\ fst (alone (createRateLimiter the_config strict_options a_request)
            outage) = Throw detached_call
  /\ onRequest (alone (createRateLimiter the_config strict_options a_request))
       (ret tt) outage
     = (Throw detached_call,
        snd (alone (createRateLimiter the_config strict_options a_request)
               outage)).
Proof.
  destruct (redis_failure_rejects the_config strict_options a_request
              (ret tt) outage) as (Hlog & _ & Hthrows & _).
  - vm_compute. apply Exists_cons_tl. apply Exists_cons_hd. discriminate.
  - destruct (Hthrows eq_refl) as [Hout Hnext].
    split; [exact Hlog |]. split; [exact Hout | exact Hnext].
Defined.

End RateLimiterProperties.

(* ================================================================== *)
(** ** Further properties of the risk engine *)
(* ================================================================== *)

Section RiskEngineReasons.

Import RiskEngine Explain.
Local Open Scope Z_scope.

Lemma reasons_weigh_the_sum (context : Context) (metadata : Metadata) :
  total_weight (reasons (evaluateRedemption context metadata))
  = code_sum context metadata
  /\ (List.length (reasons (evaluateRedemption context metadata)) <= 4)%nat.
Proof.
  unfold evaluateRedemption, raw_signals, code_sum, code_velocity,
    code_deviation, code_failed, code_ip, ip_signal, abuse_signal,
    behavior_signal, velocity_signal, reasons.
  destruct (3 <? velocity10m context)%float;
    [| destruct (1 <? velocity10m context)%float];
  (destruct (0 <? avgAmount context)%float;
    [ destruct (2.0 <? deviation_of context)%float;
      [| destruct (1.0 <? deviation_of context)%float] |]);
  (destruct (5 <? failedAttempts24h context)%float;
    [| destruct (2 <? failedAttempts24h context)%float]);
  destruct (ip_mismatch context metadata);
  (split; [reflexivity | cbn; lia]).
Qed.

Lemma weight_bounds (rs : list Reason) :
  15 * Z.of_nat (List.length rs) <= total_weight rs
  <= 50 * Z.of_nat (List.length rs).
Proof.
  induction rs as [| r rs IH]; [cbn; lia |].
  cbn [total_weight List.length]. destruct r; cbn [weight]; lia.
Qed.

Lemma hundredths_ok_upto_100 (k : Z) : 0 <= k <= 100 -> hundredths_ok k = true.
Proof.
  intros Hk.
  assert (Hall : forallb hundredths_ok (map Z.of_nat (seq 0 101)) = true)
    by (vm_compute; reflexivity).
  rewrite forallb_forall in Hall. apply Hall.
  apply in_map_iff. exists (Z.to_nat k). split; [lia |].
  apply in_seq. lia.
Qed.

Lemma decision_of_capped (k : Z) :
  0 <= k ->
  decision_of_hundredths (Z.min 100 k) = decision_of_hundredths k.
Proof.
  intros Hk. unfold decision_of_hundredths.
  destruct (Z.le_gt_cases k 100) as [H | H].
  - rewrite Z.min_r by lia. reflexivity.
  - rewrite Z.min_l by lia.
    destruct (Z.ltb_spec 70 k); [| lia].
    reflexivity.
Qed.

(** The score and the decision, from the reasons returned. *)
Lemma evaluation_from_reasons (context : Context) (metadata : Metadata) :
  let r := evaluateRedemption context metadata in
  score r = (Js.float_of_Z (Z.min 100 (total_weight (reasons r))) / 100)%float
  /\ decision r = decision_of_hundredths (total_weight (reasons r))
  /\ (0 <=? score r)%float = true
  /\ (score r <=? 1)%float = true.
Proof.
  intros r.
  destruct (reasons_weigh_the_sum context metadata) as [Hsum _].
  fold r in Hsum.
  pose proof (score_is_capped_sum context metadata) as Hscore.
  fold r in Hscore. rewrite <- Hsum in Hscore.
  pose proof (weight_bounds (reasons r)) as Hbounds.
  assert (Hrange : 0 <= Z.min 100 (total_weight (reasons r)) <= 100) by lia.
  pose proof (hundredths_ok_upto_100 _ Hrange) as Hok.
  unfold hundredths_ok in Hok. cbv zeta in Hok. rewrite <- Hscore in Hok.
  change (decide (score r)) with (decision r) in Hok.
  rewrite decision_of_capped in Hok by lia.
  apply andb_prop in Hok. destruct Hok as [Hok Hle].
  apply andb_prop in Hok. destruct Hok as [Hdec Hge].
  split; [exact Hscore |]. split; [| split; assumption].
  destruct (decision r), (decision_of_hundredths (total_weight (reasons r)));
    try discriminate Hdec; reflexivity.
Qed.

End RiskEngineReasons.

Section RiskEngineGuarantees.

Import RiskEngine Explain.
Local Open Scope Z_scope.

(** **** The reasons explain the evaluation *)

(** X1. Whatever the context and the metadata, the evaluation can be read
    off the reasons it returns. With each reason weighed by what the
    engine adds where it pushes it (40 and 15 for the velocity, 30 and
    15 for the deviation, 50 and 25 for the failed attempts, 20 for the
    IP), the score is the sum of the weights, capped at 100, in
    hundredths; the decision is REJECT when the sum is above 70,
    CHALLENGE from 30 to 70 and APPROVE below 30. There are at most
    four reasons; a REJECT has at least two, so no signal rejects a
    redemption alone, and an APPROVE has at most one. *)
Theorem evaluation_is_explained_by_reasons (context : Context)
    (metadata : Metadata) :
  let r := evaluateRedemption context metadata in
  let k := total_weight (reasons r) in
  score r = (Js.float_of_Z (Z.min 100 k) / 100)%float
  /\ (decision r = REJECT <-> 70 < k)
  /\ (decision r = CHALLENGE <-> 30 <= k <= 70)
  /\ (decision r = APPROVE <-> k < 30)
  /\ (List.length (reasons r) <= 4)%nat
  /\ (decision r = REJECT -> (2 <= List.length (reasons r))%nat)
  /\ (decision r = APPROVE -> (List.length (reasons r) <= 1)%nat).
Proof.
  intros r k.
  destruct (evaluation_from_reasons context metadata)
    as (Hscore & Hdec & _ & _).
  fold r in Hscore, Hdec. fold k in Hscore, Hdec.
  destruct (reasons_weigh_the_sum context metadata) as [_ Hlen].
  fold r in Hlen.
  pose proof (weight_bounds (reasons r)) as Hbounds. fold k in Hbounds.
  assert (Hcases : (decision r = REJECT <-> 70 < k)
                   /\ (decision r = CHALLENGE <-> 30 <= k <= 70)
                   /\ (decision r = APPROVE <-> k < 30)).
  { rewrite Hdec. unfold decision_of_hundredths.
    destruct (Z.ltb_spec 70 k); [| destruct (Z.leb_spec 30 k)];
      repeat split; intros; try discriminate; try lia; reflexivity. }
  destruct Hcases as (Hr & Hc & Ha).
  split; [exact Hscore |]. split; [exact Hr |]. split; [exact Hc |].
  split; [exact Ha |]. split; [exact Hlen |].
  split; intros H; [apply Hr in H | apply Ha in H]; lia.
Qed.

(** **** The score is a number from 0 to 1 *)

(** X2. Whatever the numbers of the context, NaN and the infinities
    included, the score returned is a number from 0 to 1, never NaN; a
    context whose numbers are all NaN and that has no last IP scores 0
    and is approved, with no reason. *)
Theorem score_is_within_unit_interval (context : Context)
    (metadata : Metadata) :
  (0 <=? score (evaluateRedemption context metadata))%float = true
  /\ (score (evaluateRedemption context metadata) <=? 1)%float = true
  /\ is_nan (score (evaluateRedemption context metadata)) = false
  /\ evaluateRedemption unknown metadata
     = {| score := 0; decision := APPROVE; reasons := [] |}.
Proof.
  destruct (evaluation_from_reasons context metadata)
    as (_ & _ & Hge & Hle).
  split; [exact Hge |]. split; [exact Hle |].
  split; [| vm_compute; reflexivity].
  unfold is_nan. rewrite leb_spec in Hle. rewrite eqb_spec.
  destruct (Prim2SF (score (evaluateRedemption context metadata)))
    as [s | s | | s m e]; try reflexivity; try discriminate Hle.
  - destruct s; reflexivity.
  - unfold SFeqb, SFcompare.
    destruct s; rewrite Z.compare_refl, Pos.compare_cont_refl; reflexivity.
Qed.

End RiskEngineGuarantees.

(* ================================================================== *)
(** ** Further properties of the token service *)
(* ================================================================== *)

Section TokenServiceEffects.

Import TokenService History Scenario.
Local Open Scope Z_scope.

Variable env : Env.

Local Opaque hashToken.

(** **** Outcomes that throw *)

Lemma transaction_throws {A : Type} (body : Eff World A) (w w' : World)
    (e : JsError) :
  transaction body w = (Throw e, w') -> db w' = db w.
Proof.
  unfold transaction, execute.
  destruct (fault w _); [intros H; inversion H; reflexivity |].
  cbv beta iota.
  destruct (body _) as [[a | e'] w2].
  - destruct (fault w2 _); intros H; inversion H. reflexivity.
  - intros H. inversion H. reflexivity.
Qed.

Lemma redeem_throws (fullToken agentId : string)
    (metadata : RiskEngine.Metadata) (w w' : World) (e : JsError) :
  redeemWithdrawalToken env fullToken agentId metadata w = (Throw e, w') ->
  db w' = db w.
Proof.
  unfold redeemWithdrawalToken.
  destruct (negb (fullToken =? "")%string && includes_dash fullToken
            && negb (agentId =? "")%string);
    [| intros H; inversion H].
  destruct (split_dash fullToken) as [| prefix_ [| coreToken rest]];
    try (intros H; inversion H; reflexivity).
  destruct (Nat.eqb (String.length prefix_) 4
            && Nat.eqb (String.length coreToken) 8);
    [apply transaction_throws | intros H; inversion H].
Qed.

(** What a redemption does to the database, whatever its outcome. *)
Lemma redeem_db_cases (fullToken agentId : string)
    (metadata : RiskEngine.Metadata) (w w' : World)
    (o : Outcome Redemption) :
  redeemWithdrawalToken env fullToken agentId metadata w = (o, w') ->
  (db w' = db w
   /\ forall r, o = Return r -> result r <> SUCCESS /\ tokenId r = None)
  \/ (exists prefix_ c t,
        In c (tokens (db w))
        /\ is_candidate prefix_ (scan_time w) c = true
        /\ verifies env fullToken c = true
        /\ find (fun x => Pos.eqb (id x) (id c)) (tokens (db w)) = Some t
        /\ status t = ACTIVE
        /\ lock_time w < expires_at t
        /\ o = Return {| result := SUCCESS; tokenId := Some (id t);
                         transactionId :=
                           Some (tx_id (ledger_row (db w) t)) |}
        /\ db w' = redeemed (db w) t (use_time w) agentId metadata).
Proof.
  destruct o as [r | e]; intros H.
  - apply redeem_returns in H.
    destruct H as [(_ & -> & ->) | (prefix_ & coreToken & rest & _ & Hcase)].
    + left. split; [reflexivity |]. intros r Hr. inversion Hr; subst.
      split; [discriminate | reflexivity].
    + destruct Hcase as [-> Hd | -> Hd | c t H1 H2 H3 H4 H5 H6 Hr Hd].
      * left. split; [exact Hd |]. intros r Hr. inversion Hr; subst.
        split; [discriminate | reflexivity].
      * left. split; [exact Hd |]. intros r Hr. inversion Hr; subst.
        split; [discriminate | reflexivity].
      * right. exists prefix_, c, t. subst r.
        repeat (split; [assumption |]). split; [reflexivity | exact Hd].
  - left. split; [exact (redeem_throws _ _ _ _ _ _ H) |].
    intros r Hr. discriminate Hr.
Qed.

(** **** What an attempt and the loop of the minting do *)

Lemma attempt_effect (accountId : string) (amount_ : Z) (w w' : World)
    (o : Outcome (option Minted)) :
  attempt env accountId amount_ w = (o, w') ->
  clock w' = clock w
  /\ clock_reads w' = S (clock_reads w)
  /\ random w' = random w
  /\ random_draws w' = (draws_per_attempt + random_draws w)%nat
  /\ ((exists e, o = Throw e /\ db w' = db w)
      \/ (o = Return (Some (minted_of env amount_ w))
          /\ db w' = add_token (db w) (row_of env accountId amount_ w)
          /\ token_hash_taken (hash_at env (random w) (random_draws w))
               (db w) = false)).
Proof.
  rewrite attempt_unfold. unfold bind, insert_token, execute, logger, ret.
  cbn [drawn db issued fault clock clock_reads random random_draws log].
  destruct (fault w (List.length (issued w))) as [e |].
  - intros H. inversion H; subst; clear H. cbn.
    repeat (split; [reflexivity |]). left. eexists. split; reflexivity.
  - destruct (token_hash_taken _ (db w)) eqn:Htaken.
    + intros H. inversion H; subst; clear H. cbn.
      repeat (split; [reflexivity |]). left. eexists. split; reflexivity.
    + intros H. inversion H; subst; clear H. cbn.
      repeat (split; [reflexivity |]). right.
      split; [reflexivity |]. split; [reflexivity | first [exact Htaken | reflexivity]].
Qed.

Lemma retry_loop_effect (accountId : string) (amount_ : Z) (turns : nat) :
  forall (retries : nat) (w w1 : World) (o : Outcome (option Minted)),
    retry_loop env accountId amount_ turns retries w = (o, w1) ->
    (db w1 = db w /\ forall m, o <> Return (Some m))
    \/ (exists k w0,
          (k < turns)%nat
          /\ after_attempts k w w0
          /\ o = Return (Some (minted_of env amount_ w0))
          /\ db w1 = add_token (db w) (row_of env accountId amount_ w0)
          /\ token_hash_taken (hash_at env (random w0) (random_draws w0))
               (db w) = false).
Proof.
  induction turns as [| turns' IH]; intros retries w w1 o.
  - cbn. intros H. inversion H. left. split; [reflexivity | discriminate].
  - cbn [retry_loop]. destruct (Nat.ltb retries MAX_RETRIES);
      [| intros H; inversion H; left; split; [reflexivity | discriminate]].
    unfold try_catch.
    destruct (attempt env accountId amount_ w) as [o2 w2] eqn:Hatt.
    destruct (attempt_effect _ _ _ _ _ Hatt)
      as (Hclock & Hreads & Hrnd & Hdraws & Hout).
    destruct Hout as [(e & -> & Hdb) | (-> & Hdb & Htaken)].
    + destruct (is_unique_violation e).
      * unfold bind at 1. cbn [logger].
        destruct (Nat.leb MAX_RETRIES (S retries)).
        { intros H. inversion H; subst. left. cbn.
          split; [exact Hdb | discriminate]. }
        match goal with
        | |- context [retry_loop _ _ _ _ _ ?w3] => set (wn := w3)
        end.
        intros H. apply IH in H.
        change (db wn) with (db w2) in H.
        destruct H as [(Hsame & Hno)
                      | (k & w0 & Hk & Hafter & Ho & Hdb1 & Htaken)].
        { left. split; [rewrite Hsame; exact Hdb | exact Hno]. }
        right. exists (S k), w0. split; [lia |].
        destruct Hafter as (Ha & Hb & Hc & Hd & He).
        change (db wn) with (db w2) in Ha.
        change (clock wn) with (clock w2) in Hb.
        change (clock_reads wn) with (clock_reads w2) in Hc.
        change (random wn) with (random w2) in Hd.
        change (random_draws wn) with (random_draws w2) in He.
        split.
        { unfold after_attempts.
          rewrite Ha, Hb, Hc, Hd, He, Hdb, Hclock, Hreads, Hrnd, Hdraws.
          repeat split; try reflexivity; unfold draws_per_attempt; lia. }
        rewrite Hdb in Hdb1, Htaken.
        split; [exact Ho |]. split; [exact Hdb1 | exact Htaken].
      * unfold bind at 1. cbn [logger throw]. intros H. inversion H; subst.
        left. cbn. split; [exact Hdb | discriminate].
    + intros H. inversion H; subst. right. exists 0%nat, w.
      split; [lia |]. split.
      { unfold after_attempts. rewrite Nat.mul_0_r. repeat split. }
      split; [reflexivity |]. split; [exact Hdb | exact Htaken].
Qed.

Lemma mint_effect (accountId : string) (amount_ : Z) (w w1 : World)
    (o : Outcome (option Minted)) :
  generateWithdrawalToken env accountId amount_ w = (o, w1) ->
  (db w1 = db w /\ forall m, o <> Return (Some m))
  \/ (exists k w0,
        (k < MAX_RETRIES)%nat
        /\ after_attempts k w w0
        /\ o = Return (Some (minted_of env amount_ w0))
        /\ db w1 = add_token (db w) (row_of env accountId amount_ w0)
        /\ token_hash_taken (hash_at env (random w0) (random_draws w0))
             (db w) = false).
Proof.
  unfold generateWithdrawalToken.
  destruct (validateGenerationParams env accountId amount_).
  - unfold bind, logger, throw. intros H. inversion H. left.
    split; [reflexivity | discriminate].
  - apply retry_loop_effect.
Qed.

(** **** The shape of the database *)

Lemma NoDup_snoc {A : Type} (l : list A) (a : A) :
  NoDup l -> ~ In a l -> NoDup (l ++ [a]).
Proof.
  induction l as [| x l IH]; intros Hnd Hin; cbn.
  - constructor; [intros [] | constructor].
  - inversion Hnd as [| ? ? Hx Hl]; subst. constructor.
    + rewrite in_app_iff. intros [H | [H | []]]; [exact (Hx H) |].
      apply Hin. left. symmetry. exact H.
    + apply IH; [exact Hl |]. intros H. apply Hin. right. exact H.
Qed.

Lemma fresh_id_is_new (ids : list Id) : ~ In (fresh_id ids) ids.
Proof.
  intros H. apply fresh_id_above in H. lia.
Qed.

Lemma hash_not_taken (h : list byte) (d : Db) :
  token_hash_taken h d = false -> ~ In h (map token_hash (tokens d)).
Proof.
  unfold token_hash_taken. induction (tokens d) as [| x rows IH]; cbn.
  - intros _ [].
  - intros H. apply orb_false_elim in H. destruct H as [Hx Hrows].
    intros [Heq | Hin]; [| exact (IH Hrows Hin)].
    rewrite Heq, Bytes_eqb_refl in Hx. discriminate.
Qed.

Lemma mark_used_id (i : Id) (now : Z) (x : Token) :
  id (mark_used i now x) = id x.
Proof.
  unfold mark_used. destruct (_ && _); reflexivity.
Qed.

Lemma mark_used_cases (i : Id) (now : Z) (x : Token) :
  (id x = i /\ status x = ACTIVE /\ mark_used i now x = used_row x now)
  \/ ((id x <> i \/ status x <> ACTIVE) /\ mark_used i now x = x).
Proof.
  unfold mark_used, used_row.
  destruct (Pos.eqb_spec (id x) i) as [Heq | Hne]; cbn [andb].
  - destruct (status x) eqn:Hs; cbn.
    + left. repeat split; assumption.
    + right. split; [right; discriminate | reflexivity].
    + right. split; [right; discriminate | reflexivity].
  - right. split; [left; exact Hne | reflexivity].
Qed.

Lemma same_id_same_row (rows : list Token) (a b : Token) :
  NoDup (map id rows) -> In a rows -> In b rows -> id a = id b -> a = b.
Proof.
  intros Hnd Ha Hb Heq.
  pose proof (find_by_id rows a Hnd Ha) as Hfa.
  pose proof (find_by_id rows b Hnd Hb) as Hfb.
  rewrite Heq, Hfb in Hfa. inversion Hfa. reflexivity.
Qed.

Lemma found_is_in (rows : list Token) (i : Id) (t : Token) :
  find (fun x => Pos.eqb (id x) i) rows = Some t -> In t rows /\ id t = i.
Proof.
  intros H. apply find_some in H. destruct H as [Hin Heq].
  split; [exact Hin | apply Pos.eqb_eq; exact Heq].
Qed.

Lemma consistent_after_mint (d : Db) (row : Token) :
  consistent d ->
  id row = fresh_id (map id (tokens d)) ->
  status row = ACTIVE -> used_at row = None ->
  token_hash_taken (token_hash row) d = false ->
  consistent (add_token d row).
Proof.
  intros [Hids Hhashes Htx Hentries Hused Hbacked Hat Hev] Hid Hst Hua Hh.
  constructor; cbn [add_token tokens transactions redemption_attempts].
  - rewrite map_app. cbn [map]. apply NoDup_snoc; [exact Hids |].
    rewrite Hid. apply fresh_id_is_new.
  - rewrite map_app. cbn [map]. apply NoDup_snoc; [exact Hhashes |].
    apply hash_not_taken. exact Hh.
  - exact Htx.
  - exact Hentries.
  - intros tx Hin. destruct (Hused tx Hin) as (t & Ht & Hidt & Hs).
    exists t. split; [apply in_or_app; left; exact Ht |].
    split; assumption.
  - intros t Hin Hs. apply in_app_or in Hin.
    destruct Hin as [Hin | [<- | []]]; [exact (Hbacked t Hin Hs) |].
    rewrite Hst in Hs. discriminate.
  - intros t Hin. apply in_app_or in Hin.
    destruct Hin as [Hin | [<- | []]]; [exact (Hat t Hin) |].
    rewrite Hst, Hua. split; [intros H; contradiction H; reflexivity
                             | discriminate].
  - exact Hev.
Qed.

Lemma consistent_after_use (d : Db) (t : Token) (now : Z) (agentId : string)
    (metadata : RiskEngine.Metadata) :
  consistent d -> In t (tokens d) -> status t = ACTIVE ->
  consistent (redeemed d t now agentId metadata).
Proof.
  intros [Hids Hhashes Htx Hentries Hused Hbacked Hat Hev] Hin Hst.
  assert (Hmarked : In (used_row t now)
                      (map (mark_used (id t) now) (tokens d))).
  { apply in_map_iff. exists t. split; [| exact Hin].
    destruct (mark_used_cases (id t) now t)
      as [(_ & _ & H) | ([H | H] & _)];
      [exact H | contradiction H; reflexivity | contradiction (H Hst)]. }
  constructor; cbn [redeemed tokens transactions redemption_attempts].
  - rewrite map_map.
    rewrite (map_ext _ id (fun x => mark_used_id (id t) now x)).
    exact Hids.
  - rewrite map_map.
    rewrite (map_ext _ token_hash (fun x => mark_used_hash (id t) now x)).
    exact Hhashes.
  - rewrite map_app. cbn [map]. apply NoDup_snoc; [exact Htx |].
    apply fresh_id_is_new.
  - rewrite map_app. cbn [map]. apply NoDup_snoc; [exact Hentries |].
    cbn [ledger_row tx_token_id]. intros H. apply in_map_iff in H.
    destruct H as (tx & Htok & Htxin).
    destruct (Hused tx Htxin) as (t' & Ht' & Hid' & Hs').
    assert (t' = t)
      by (apply (same_id_same_row (tokens d)); try assumption; congruence).
    subst t'. rewrite Hst in Hs'. discriminate.
  - intros tx Htxin. apply in_app_or in Htxin.
    destruct Htxin as [Htxin | [<- | []]].
    + destruct (Hused tx Htxin) as (t' & Ht' & Hid' & Hs').
      exists t'. split; [| split; assumption].
      apply in_map_iff. exists t'. split; [| exact Ht'].
      destruct (mark_used_cases (id t) now t')
        as [(_ & Ha & _) | (_ & H)]; [| exact H].
      rewrite Hs' in Ha. discriminate.
    + exists (used_row t now). split; [exact Hmarked |].
      split; reflexivity.
  - intros x Hx Hs. apply in_map_iff in Hx. destruct Hx as (x0 & <- & Hx0).
    destruct (mark_used_cases (id t) now x0)
      as [(Hid0 & Hs0 & Heq) | (_ & Heq)].
    + assert (x0 = t)
        by (apply (same_id_same_row (tokens d)); assumption).
      subst x0. exists (ledger_row d t).
      split; [apply in_or_app; right; left; reflexivity |].
      rewrite Heq. unfold backs. cbn. repeat split.
    + rewrite Heq in Hs |- *.
      destruct (Hbacked x0 Hx0 Hs) as (tx & Htxin & Hb).
      exists tx. split; [apply in_or_app; left; exact Htxin | exact Hb].
  - intros x Hx. apply in_map_iff in Hx. destruct Hx as (x0 & <- & Hx0).
    destruct (mark_used_cases (id t) now x0)
      as [(_ & _ & Heq) | (_ & Heq)]; rewrite Heq.
    + cbn. split; [reflexivity | discriminate].
    + exact (Hat x0 Hx0).
  - rewrite !map_app, Hev. reflexivity.
Qed.

Lemma redeemed_ids_cons (a : Answer) (rest : list Answer) :
  redeemed_ids (a :: rest) = redeemed_ids [a] ++ redeemed_ids rest.
Proof.
  destruct a as [m | [[] [i |] txid] | e]; reflexivity.
Qed.

Lemma call_step (c : Call) (w w1 : World) (a : Answer) :
  consistent (db w) -> call env c w = (a, w1) ->
  consistent (db w1)
  /\ map tx_token_id (transactions (db w1))
     = map tx_token_id (transactions (db w)) ++ redeemed_ids [a].
Proof.
  intros Hc. destruct c as [accountId amount_ | fullToken agentId metadata];
    cbn [call].
  - destruct (generateWithdrawalToken env accountId amount_ w)
      as [o w2] eqn:Hmint.
    apply mint_effect in Hmint.
    assert (Hids : forall a',
               (match o with
                | Return m => (Minted_ m, w2)
                | Throw e => (Failed e, w2)
                end) = (a', w1) -> redeemed_ids [a'] = [] /\ w2 = w1).
    { destruct o; intros a' H; inversion H; split; reflexivity. }
    intros H. apply Hids in H. destruct H as [-> <-].
    rewrite app_nil_r.
    destruct Hmint as [(-> & _) | (k & w0 & _ & Hafter & _ & -> & Htaken)].
    + split; [exact Hc | reflexivity].
    + split; [| reflexivity].
      destruct Hafter as (Hdb & _).
      apply consistent_after_mint; try reflexivity; try exact Hc.
      * cbn [row_of id]. rewrite Hdb. reflexivity.
      * exact Htaken.
  - destruct (redeemWithdrawalToken env fullToken agentId metadata w)
      as [o w2] eqn:Hredeem.
    apply redeem_db_cases in Hredeem.
    destruct Hredeem as [(Hdb & Hres)
                        | (p & c & t & _ & _ & _ & Hfind & Hst & _ & -> & Hdb)].
    + destruct o as [r | e]; intros H; inversion H; subst; rewrite Hdb.
      * destruct (Hres r eq_refl) as [Hne Htid].
        split; [exact Hc |].
        destruct r as [res tid txid]. cbn in Hne, Htid. subst tid.
        destruct res; cbn; rewrite app_nil_r; reflexivity.
      * split; [exact Hc | cbn; rewrite app_nil_r; reflexivity].
    + intros H. inversion H; subst. rewrite Hdb.
      apply found_is_in in Hfind. destruct Hfind as [Hin _].
      split; [apply consistent_after_use; assumption |].
      cbn. rewrite map_app. reflexivity.
Qed.

Lemma replay_steps (calls : list Call) :
  forall (w w' : World) (answers : list Answer),
    consistent (db w) -> replay env calls w = (answers, w') ->
    consistent (db w')
    /\ map tx_token_id (transactions (db w'))
       = map tx_token_id (transactions (db w)) ++ redeemed_ids answers.
Proof.
  induction calls as [| c rest IH]; intros w w' answers Hc; cbn [replay].
  - intros H. inversion H; subst. split; [exact Hc |].
    cbn. rewrite app_nil_r. reflexivity.
  - destruct (call env c w) as [a w1] eqn:Hcall.
    destruct (replay env rest w1) as [answers' w2] eqn:Hrun.
    intros H. inversion H; subst.
    destruct (call_step _ _ _ _ Hc Hcall) as [Hc1 Hl1].
    destruct (IH _ _ _ Hc1 Hrun) as [Hc2 Hl2].
    split; [exact Hc2 |].
    rewrite Hl2, Hl1, (redeemed_ids_cons a answers'), app_assoc.
    reflexivity.
Qed.

Lemma Bytes_eqb_eq (a b : list byte) : Bytes.eqb a b = true -> a = b.
Proof.
  revert b. induction a as [| x a IH]; intros [| y b]; cbn;
    try discriminate; [reflexivity |].
  intros H. apply andb_prop in H. destruct H as [Hxy Hab].
  apply Byte.byte_dec_bl in Hxy. rewrite Hxy, (IH b Hab). reflexivity.
Qed.

Lemma Forall2_map_right {A : Type} (R : A -> A -> Prop) (f : A -> A)
    (l : list A) :
  (forall x, In x l -> R x (f x)) -> Forall2 R l (map f l).
Proof.
  induction l as [| x l IH]; intros H; cbn; constructor.
  - apply H. left. reflexivity.
  - apply IH. intros y Hy. apply H. right. exact Hy.
Qed.

Lemma hashes_ok_redeemed (d : Db) (t : Token) (now : Z) (agentId : string)
    (metadata : RiskEngine.Metadata) :
  hashes_ok d -> hashes_ok (redeemed d t now agentId metadata).
Proof.
  unfold hashes_ok. cbn [redeemed tokens]. intros H.
  apply Forall_forall. intros x Hx. apply in_map_iff in Hx.
  destruct Hx as (x0 & <- & Hx0). rewrite mark_used_hash.
  rewrite Forall_forall in H. exact (H x0 Hx0).
Qed.

(** **** The alphabet of a minted token *)

Lemma charset_alphabet (n : nat) :
  exists c, String.get (Nat.modulo n (String.length charset)) charset = Some c
            /\ upper_or_digit c = true.
Proof.
  assert (H : (Nat.modulo n (String.length charset) < 36)%nat)
    by (apply Nat.mod_upper_bound; discriminate).
  revert H. generalize (Nat.modulo n (String.length charset)). intros i Hi.
  do 36 (destruct i as [| i]; [eexists; split; reflexivity |]).
  lia.
Qed.

Lemma drawn_token_alphabet (rnd : nat -> nat) (len pos : nat) :
  all_upper_or_digit (drawn_token rnd pos len) = true.
Proof.
  revert pos. induction len as [| len IH]; intros pos; [reflexivity |].
  cbn [drawn_token]. destruct (charset_alphabet (rnd pos)) as (c & -> & Hc).
  unfold all_upper_or_digit in *. cbn [list_ascii_of_string forallb].
  rewrite Hc, IH. reflexivity.
Qed.

Lemma length_append (a b : string) :
  String.length (a ++ b) = (String.length a + String.length b)%nat.
Proof.
  induction a as [| c a IH]; cbn; [reflexivity | rewrite IH; reflexivity].
Qed.

Lemma substring_all (s : string) : substring 0 (String.length s) s = s.
Proof.
  induction s as [| c s IH]; cbn; [reflexivity | rewrite IH; reflexivity].
Qed.

Lemma substring_append_left (a b : string) :
  substring 0 (String.length a) (a ++ b) = a.
Proof.
  induction a as [| c a IH]; cbn.
  - destruct b; reflexivity.
  - rewrite IH. reflexivity.
Qed.

Lemma get_append_middle (a b : string) (c : ascii) :
  String.get (String.length a) (a ++ String c b) = Some c.
Proof.
  induction a as [| x a IH]; cbn; [reflexivity | exact IH].
Qed.

Lemma substring_append_right (a b : string) (c : ascii) :
  substring (S (String.length a)) (String.length b) (a ++ String c b) = b.
Proof.
  induction a as [| x a IH]; cbn; [apply substring_all | exact IH].
Qed.

Lemma pattern_of_pieces (p c : string) :
  String.length p = 4%nat -> String.length c = 8%nat ->
  all_upper_or_digit p = true -> all_upper_or_digit c = true ->
  matches_token_pattern (p ++ String dash c) = true.
Proof.
  intros Hp Hc Hap Hac. unfold matches_token_pattern.
  pose proof (substring_append_left p (String dash c)) as H1.
  pose proof (get_append_middle p c dash) as H2.
  pose proof (substring_append_right p c dash) as H3.
  rewrite Hp in H1, H2, H3. rewrite Hc in H3.
  rewrite H1, H2, H3, Hap, Hac, length_append. cbn [String.length].
  rewrite Hp, Hc. reflexivity.
Qed.

Lemma plaintext_matches_pattern (rnd : nat -> nat) (pos : nat) :
  matches_token_pattern (plaintext_at rnd pos) = true.
Proof.
  unfold plaintext_at.
  change ("-" ++ core_at rnd pos)%string with (String dash (core_at rnd pos)).
  apply pattern_of_pieces; unfold prefix_at, core_at;
    first [apply drawn_token_length | apply drawn_token_alphabet].
Qed.

(** **** The statements of a redemption *)

Ltac invert_statement H :=
  let d := fresh "d" in
  let Hrun := fresh "Hrun" in
  let Hw := fresh "Hw" in
  apply execute_returns in H; destruct H as (d & Hrun & Hw);
  inversion Hrun; subst; clear Hrun.

Lemma body_statements (fullToken prefix_ agentId : string)
    (metadata : RiskEngine.Metadata) (w w' : World) (r : Redemption) :
  redeem_in_transaction env fullToken prefix_ agentId metadata w
  = (Return r, w') ->
  exists sent,
    issued w' = issued w ++ map sent_ok sent
    /\ match result r with
       | INVALID => sent = [SelectCandidates prefix_ (scan_time w)]
       | EXPIRED_OR_USED =>
           exists i, sent = [SelectCandidates prefix_ (scan_time w);
                             SelectForUpdate i]
       | SUCCESS =>
           exists i,
             tokenId r = Some i
             /\ sent = [SelectCandidates prefix_ (scan_time w);
                        SelectForUpdate i; UpdateUsed i (use_time w);
                        InsertTransaction i; InsertAttempt i]
       end.
Proof.
  unfold redeem_in_transaction. intros H.
  apply bind_returns in H. destruct H as (now & w1 & Hnow & H).
  inversion Hnow; subst now w1; clear Hnow.
  apply bind_returns in H. destruct H as (cands & w2 & Hsel & H).
  invert_statement Hsel.
  apply bind_returns in H. destruct H as (matched & w3 & Hm & H).
  pose proof (first_match_world _ _ _ _ _ _ Hm) as ->.
  destruct matched as [i |].
  - clear Hm.
    apply bind_returns in H. destruct H as (found & w4 & Hfound & H).
    invert_statement Hfound.
    apply bind_returns in H. destruct H as (live & w5 & Hlive & H).
    unfold still_redeemable in Hlive. cbn in Hlive.
    assert (Hnone : forall wa wb,
               (ret (only EXPIRED_OR_USED) : Eff World Redemption) wa
               = (Return r, w') ->
               issued wa = (issued w ++ [sent_ok (SelectCandidates prefix_
                                                    (scan_time w))])
                           ++ [sent_ok (SelectForUpdate i)] ->
               wb = wa ->
               exists sent,
                 issued w' = issued w ++ map sent_ok sent
                 /\ match result r with
                    | INVALID => sent = [SelectCandidates prefix_ (scan_time w)]
                    | EXPIRED_OR_USED =>
                        exists i, sent = [SelectCandidates prefix_ (scan_time w);
                                          SelectForUpdate i]
                    | SUCCESS =>
                        exists i,
                          tokenId r = Some i
                          /\ sent = [SelectCandidates prefix_ (scan_time w);
                                     SelectForUpdate i;
                                     UpdateUsed i (use_time w);
                                     InsertTransaction i; InsertAttempt i]
                    end).
    { intros wa wb Hret Hiss _. inversion Hret; subst.
      exists [SelectCandidates prefix_ (scan_time w); SelectForUpdate i].
      split; [rewrite Hiss, <- app_assoc; reflexivity |].
      cbn. exists i. reflexivity. }
    destruct (find _ (tokens (db w))) as [t |] eqn:Hfind.
    + destruct (Status_eqb (status t) ACTIVE) eqn:Hst; cbn in Hlive.
      * unfold bind in Hlive. cbn in Hlive.
        destruct (expires_at t <=? clock w (S (clock_reads w))) eqn:Hexp;
          inversion Hlive; subst; clear Hlive.
        -- eapply Hnone; [exact H | reflexivity | reflexivity].
        -- apply bind_returns in H. destruct H as (usedAt & w6 & Hu & H).
           inversion Hu; subst; clear Hu.
           apply bind_returns in H. destruct H as ([] & w7 & Hup & H).
           invert_statement Hup.
           apply bind_returns in H. destruct H as (txid & w8 & Htx & H).
           invert_statement Htx.
           apply bind_returns in H. destruct H as ([] & w9 & Hat & H).
           invert_statement Hat.
           apply bind_returns in H. destruct H as ([] & w10 & Hlog & H).
           inversion Hlog; subst; clear Hlog.
           inversion H; subst; clear H.
           apply found_is_in in Hfind. destruct Hfind as [_ Hid].
           exists [SelectCandidates prefix_ (scan_time w);
                   SelectForUpdate (id t); UpdateUsed (id t) (use_time w);
                   InsertTransaction (id t); InsertAttempt (id t)].
           split.
           ++ cbn [issued record_statement with_db].
              rewrite Hid, <- !app_assoc. reflexivity.
           ++ cbn. exists (id t). split; reflexivity.
      * inversion Hlive; subst.
        eapply Hnone; [exact H | reflexivity | reflexivity].
    + inversion Hlive; subst.
      eapply Hnone; [exact H | reflexivity | reflexivity].
  - apply bind_returns in H. destruct H as ([] & w4 & Hlog & H).
    inversion Hlog; subst; clear Hlog.
    inversion H; subst.
    exists [SelectCandidates prefix_ (scan_time w)].
    split; reflexivity.
Qed.

Lemma empty_db_consistent : consistent empty_db.
Proof.
  constructor; cbn; try constructor; try contradiction; reflexivity.
Qed.

End TokenServiceEffects.

Section TokenServiceGuarantees.

Import TokenService History Scenario Episodes.
Local Open Scope Z_scope.

Local Opaque hashToken.

(** **** Histories *)

(** X3. On a database of the shape [consistent], every history of mintings
    and redemptions, whatever the faults of the database, the readings
    of the clock and the draws of the generator, leaves a database of
    that shape, and the ledger has grown by exactly one entry per
    redemption that answered SUCCESS, for the token it names and in
    the order of the answers; so no token is reported redeemed twice. *)
Theorem ledger_follows_redemptions (env : Env) (calls : list Call)
    (w w' : World) (answers : list Answer) :
  consistent (db w) ->
  replay env calls w = (answers, w') ->
  consistent (db w')
  /\ map tx_token_id (transactions (db w'))
     = map tx_token_id (transactions (db w)) ++ redeemed_ids answers
  /\ NoDup (redeemed_ids answers).
Proof.
  intros Hc Hrun. destruct (replay_steps env calls w w' answers Hc Hrun)
    as [Hc' Hledger].
  split; [exact Hc' |]. split; [exact Hledger |].
  apply (NoDup_app_remove_l (map tx_token_id (transactions (db w)))).
  rewrite <- Hledger. exact (one_entry_per_token _ Hc').
Qed.

(** X3, on the scenario. *)
Lemma ledger_follows_redemptions_witness :
  consistent (db (snd (replay env0 history0 w0)))
  /\ map tx_token_id (transactions (db (snd (replay env0 history0 w0))))
     = map tx_token_id (transactions (db w0))
       ++ redeemed_ids (fst (replay env0 history0 w0))
  /\ NoDup (redeemed_ids (fst (replay env0 history0 w0))).
Proof.
  apply (ledger_follows_redemptions env0 history0 w0).
  - exact empty_db_consistent.
  - vm_compute. reflexivity.
Defined.

(** **** Failures *)

(** X4. A call of either operation that throws leaves the database as it
    found it: a minting that fails has inserted nothing, and a
    redemption that fails, at whatever statement, keeps none of its
    writes. *)
Theorem failed_call_changes_nothing (env : Env) (c : Call) (w w' : World)
    (e : JsError) :
  call env c w = (Failed e, w') -> db w' = db w.
Proof.
  destruct c as [accountId amount_ | fullToken agentId metadata]; cbn [call].
  - destruct (generateWithdrawalToken env accountId amount_ w)
      as [[m | e'] w2] eqn:Hmint; intros H; inversion H; subst.
    destruct (mint_effect _ _ _ _ _ _ Hmint)
      as [(Hdb & _) | (k & w0 & _ & _ & Ho & _)];
      [exact Hdb | discriminate Ho].
  - destruct (redeemWithdrawalToken env fullToken agentId metadata w)
      as [[r | e'] w2] eqn:Hredeem; intros H; inversion H; subst.
    exact (redeem_throws _ _ _ _ _ _ _ Hredeem).
Qed.

(** X4, on the redemption of the scenario that loses its connection at the
    insert of the attempt, after the token was marked and the ledger
    entry inserted. *)
Lemma failed_call_changes_nothing_witness :
  db (snd (call env0 (Redeem (token minted0) "atm-1" RiskEngine.no_metadata)
             (fails_at 6)))
  = db (fails_at 6).
Proof.
  apply (failed_call_changes_nothing env0
           (Redeem (token minted0) "atm-1" RiskEngine.no_metadata)
           (fails_at 6) _ connection_lost).
  vm_compute. reflexivity.
Defined.

(** **** What a redemption touches *)

(** X5. Whatever its outcome, a redemption keeps the rows of [tokens] in
    place, one for one: each row is left as it was, or it was ACTIVE, is
    the row that the SUCCESS answer names, and differs from what it was
    by its status USED and its [used_at] only. So no row is added or
    deleted, a USED or EXPIRED row is never changed, and no row is ever
    set to EXPIRED. *)
Theorem redeem_touches_one_row (env : Env) (fullToken agentId : string)
    (metadata : RiskEngine.Metadata) (w w' : World)
    (o : Outcome Redemption) :
  redeemWithdrawalToken env fullToken agentId metadata w = (o, w') ->
  Forall2
    (fun t t' =>
       t' = t
       \/ (status t = ACTIVE
           /\ t' = used_row t (use_time w)
           /\ exists txid,
                o = Return {| result := SUCCESS; tokenId := Some (id t);
                              transactionId := Some txid |}))
    (tokens (db w)) (tokens (db w')).
Proof.
  intros H. apply redeem_db_cases in H.
  destruct H as [(-> & _) | (p & c & t & _ & _ & _ & _ & _ & _ & -> & ->)].
  - rewrite <- (map_id (tokens (db w))) at 2.
    apply Forall2_map_right. intros x _. left. reflexivity.
  - cbn [redeemed tokens]. apply Forall2_map_right. intros x _.
    destruct (mark_used_cases (id t) (use_time w) x)
      as [(Hid & Hs & ->) | (_ & ->)]; [right | left; reflexivity].
    split; [exact Hs |]. split; [reflexivity |].
    rewrite Hid. eexists. reflexivity.
Qed.

(** X5, on the scenario. *)
Lemma redeem_touches_one_row_witness :
  Forall2
    (fun t t' =>
       t' = t
       \/ (status t = ACTIVE
           /\ t' = used_row t (use_time w1)
           /\ exists txid,
                fst first_redeem
                = Return {| result := SUCCESS; tokenId := Some (id t);
                            transactionId := Some txid |}))
    (tokens (db w1)) (tokens (db (snd first_redeem))).
Proof.
  apply (redeem_touches_one_row env0 (token minted0) "atm-1"
           RiskEngine.no_metadata w1 (snd first_redeem) (fst first_redeem)).
  vm_compute. reflexivity.
Defined.

(** **** What SUCCESS means *)

(** X6. A redemption answers SUCCESS only for a row of [tokens] that was
    ACTIVE, that had not expired at the scan nor at the re-check under
    the lock, whose prefix is the first piece of the token presented and
    whose stored hash is the hash of that token with the salt of the
    row; the agent is named, and the ledger has gained one entry, which
    the answer names, of the amount and for the account of that row. *)
Theorem success_is_sound (env : Env) (fullToken agentId : string)
    (metadata : RiskEngine.Metadata) (w w' : World) (r : Redemption) :
  NoDup (map id (tokens (db w))) ->
  redeemWithdrawalToken env fullToken agentId metadata w = (Return r, w') ->
  result r = SUCCESS ->
  exists t tx,
    In t (tokens (db w))
    /\ tokenId r = Some (id t)
    /\ status t = ACTIVE
    /\ scan_time w < expires_at t
    /\ lock_time w < expires_at t
    /\ (exists coreToken rest,
           split_dash fullToken = prefix t :: coreToken :: rest)
    /\ token_hash t = hashToken env fullToken (salt t)
    /\ agentId <> ""%string
    /\ transactions (db w') = transactions (db w) ++ [tx]
    /\ backs tx t
    /\ transactionId r = Some (tx_id tx).
Proof.
  intros Hnd H Hres. pose proof H as H0. apply redeem_returns in H.
  destruct H as [(_ & -> & _) | (p & coreToken & rest & Hsplit & Hcase)];
    [discriminate Hres |].
  destruct Hcase as [-> _ | -> _ | c t Hin Hcand Hver Hfind Hst Hlock -> Hdb];
    try discriminate Hres.
  apply found_is_in in Hfind. destruct Hfind as [Hint Hid].
  assert (t = c) by (apply (same_id_same_row (tokens (db w))); assumption).
  subst c. exists t, (ledger_row (db w) t).
  unfold is_candidate in Hcand.
  apply andb_prop in Hcand. destruct Hcand as [Hcand Hscan].
  apply andb_prop in Hcand. destruct Hcand as [Hprefix _].
  apply String.eqb_eq in Hprefix. apply Z.ltb_lt in Hscan.
  split; [exact Hint |]. split; [reflexivity |]. split; [exact Hst |].
  split; [exact Hscan |]. split; [exact Hlock |].
  split; [exists coreToken, rest; rewrite Hprefix; exact Hsplit |].
  split; [symmetry; apply Bytes_eqb_eq; exact Hver |].
  split.
  { intros ->.
    assert (Hws : well_shaped fullToken "" = false).
    { unfold well_shaped. cbn. rewrite andb_false_r. reflexivity. }
    rewrite (redeem_rejects env fullToken "" metadata w Hws) in H0.
    inversion H0. }
  rewrite Hdb. cbn [redeemed transactions].
  split; [reflexivity |]. split; [| reflexivity].
  unfold backs. cbn. repeat split.
Qed.

(** X6, on the first redemption of the scenario. *)
Lemma success_is_sound_witness :
  exists t tx,
    In t (tokens (db w1))
    /\ tokenId {| result := SUCCESS; tokenId := Some (minted_id minted0);
                  transactionId := Some 2%positive |} = Some (id t)
    /\ status t = ACTIVE
    /\ scan_time w1 < expires_at t
    /\ lock_time w1 < expires_at t
    /\ (exists coreToken rest,
           split_dash (token minted0) = prefix t :: coreToken :: rest)
    /\ token_hash t = hashToken env0 (token minted0) (salt t)
    /\ "atm-1"%string <> ""%string
    /\ transactions (db (snd first_redeem)) = transactions (db w1) ++ [tx]
    /\ backs tx t
    /\ transactionId {| result := SUCCESS;
                        tokenId := Some (minted_id minted0);
                        transactionId := Some 2%positive |}
       = Some (tx_id tx).
Proof.
  apply (success_is_sound env0 (token minted0) "atm-1"
           RiskEngine.no_metadata w1 (snd first_redeem)
           {| result := SUCCESS; tokenId := Some (minted_id minted0);
              transactionId := Some 2%positive |}).
  - vm_compute. constructor; [intros [] | constructor].
  - vm_compute. reflexivity.
  - reflexivity.
Defined.

(** **** Minting *)

(** X7. The plaintext that a minting returns matches the pattern
    [^[A-Z0-9]{4}-[A-Z0-9]{8}$] that the redeem route asks for, and the
    row stored for it keeps the four characters before the dash as its
    prefix: the token handed out is one that the redemption accepts and
    looks up under that prefix. *)
Theorem minted_token_matches_pattern (env : Env) (accountId : string)
    (amount_ : Z) (w w1 : World) (m : Minted) :
  generateWithdrawalToken env accountId amount_ w = (Return (Some m), w1) ->
  matches_token_pattern (token m) = true
  /\ exists row coreToken,
       tokens (db w1) = tokens (db w) ++ [row]
       /\ id row = minted_id m
       /\ prefix row = substring 0 4 (token m)
       /\ split_dash (token m) = [prefix row; coreToken].
Proof.
  intros H. apply mint_returns in H.
  destruct H as (w0 & _ & -> & ->). cbn [minted_of token minted_id].
  split; [apply plaintext_matches_pattern |].
  exists (row_of env accountId amount_ w0),
    (core_at (random w0) (random_draws w0)).
  cbn [add_token tokens row_of id prefix].
  split; [reflexivity |]. split; [reflexivity |].
  split; [| apply plaintext_split].
  unfold plaintext_at.
  pose proof (substring_append_left
                (prefix_at (random w0) (random_draws w0))
                ("-" ++ core_at (random w0) (random_draws w0))) as Hsub.
  unfold prefix_at at 1 in Hsub. rewrite drawn_token_length in Hsub.
  symmetry. exact Hsub.
Qed.

(** X7, on the scenario. *)
Lemma minted_token_matches_pattern_witness :
  matches_token_pattern (token minted0) = true
  /\ exists row coreToken,
       tokens (db w1) = tokens (db w0) ++ [row]
       /\ id row = minted_id minted0
       /\ prefix row = substring 0 4 (token minted0)
       /\ split_dash (token minted0) = [prefix row; coreToken].
Proof.
  apply (minted_token_matches_pattern env0 account 200 w0 w1 minted0).
  vm_compute. reflexivity.
Defined.

(** X8. A minting whose account is no uuid or whose amount is not positive
    throws before anything else happens: no statement is sent, the
    generator and the clock are not read, and the database is as it
    was. *)
Theorem invalid_parameters_mint_nothing (env : Env) (accountId : string)
    (amount_ : Z) (w : World) :
  joi_uuid env accountId = false \/ amount_ <= 0 ->
  exists e w',
    generateWithdrawalToken env accountId amount_ w = (Throw e, w')
    /\ db w' = db w /\ issued w' = issued w
    /\ random_draws w' = random_draws w /\ clock_reads w' = clock_reads w.
Proof.
  intros H. unfold generateWithdrawalToken.
  assert (Hv : exists m', validateGenerationParams env accountId amount_
                          = Some m').
  { unfold validateGenerationParams. destruct H as [-> | H].
    - eexists. reflexivity.
    - destruct (negb (joi_uuid env accountId)); [eexists; reflexivity |].
      apply Z.leb_le in H. rewrite H. eexists. reflexivity. }
  destruct Hv as (m' & ->). do 2 eexists.
  split; [reflexivity |]. cbn. repeat split.
Qed.

(** X8, on the scenario. *)
Lemma invalid_parameters_mint_nothing_witness :
  exists e w',
    generateWithdrawalToken env0 account 0 w0 = (Throw e, w')
    /\ db w' = db w0 /\ issued w' = issued w0
    /\ random_draws w' = random_draws w0 /\ clock_reads w' = clock_reads w0.
Proof.
  apply (invalid_parameters_mint_nothing env0 account 0 w0).
  right. lia.
Defined.

(** X9. A minting changes the database only when it returns a token, and
    then by one row added to [tokens], under an identifier that no row
    had: the row is ACTIVE with no [used_at], of the account and of the
    positive amount asked for, the plaintext returned hashes to its
    stored hash, and it expires [expirySeconds] after the reading of the
    clock made by the attempt that succeeded, one of the first three of
    the call. *)
Theorem mint_stores_one_active_row (env : Env) (accountId : string)
    (amount_ : Z) (w w1 : World) (o : Outcome (option Minted)) :
  generateWithdrawalToken env accountId amount_ w = (o, w1) ->
  match o with
  | Return (Some m) =>
      joi_uuid env accountId = true /\ 0 < amount_
      /\ exists k row,
           (k < MAX_RETRIES)%nat
           /\ db w1 = add_token (db w) row
           /\ id row = minted_id m
           /\ ~ In (id row) (map id (tokens (db w)))
           /\ account_id row = accountId
           /\ amount row = amount_ /\ minted_amount m = amount_
           /\ status row = ACTIVE /\ used_at row = None
           /\ verifies env (token m) row = true
           /\ expires_at row = expiresAt m
           /\ expiresAt m
              = clock w (k + clock_reads w) + expirySeconds env * 1000
  | _ => db w1 = db w
  end.
Proof.
  intros H. pose proof H as H0. apply mint_effect in H.
  destruct H as [(Hdb & Hno)
                | (k & w0 & Hk & Hafter & -> & Hdb & _)].
  - destruct o as [[m |] | e]; [contradiction (Hno m eq_refl) | |];
      exact Hdb.
  - unfold generateWithdrawalToken in H0.
    unfold validateGenerationParams in H0.
    destruct (joi_uuid env accountId); cbn [negb] in H0;
      [| inversion H0].
    destruct (amount_ <=? 0) eqn:Hamount; [inversion H0 |].
    apply Z.leb_gt in Hamount.
    split; [reflexivity |]. split; [exact Hamount |].
    destruct Hafter as (Hdb0 & Hclock & Hreads & _ & _).
    exists k, (row_of env accountId amount_ w0).
    split; [exact Hk |]. split; [exact Hdb |].
    cbn [row_of minted_of id minted_id account_id amount minted_amount
         status used_at expires_at expiresAt token].
    split; [reflexivity |].
    split; [rewrite Hdb0; apply fresh_id_is_new |].
    do 5 (split; [reflexivity |]).
    split; [unfold verifies, hash_at; cbn [row_of salt token_hash];
            apply Bytes_eqb_refl |].
    split; [reflexivity |].
    unfold expiry_at. rewrite Hclock, Hreads. reflexivity.
Qed.

(** X9, on the minting of the scenario. *)
Lemma mint_stores_one_active_row_witness :
  joi_uuid env0 account = true /\ 0 < 200
  /\ exists k row,
       (k < MAX_RETRIES)%nat
       /\ db w1 = add_token (db w0) row
       /\ id row = minted_id minted0
       /\ ~ In (id row) (map id (tokens (db w0)))
       /\ account_id row = account
       /\ amount row = 200 /\ minted_amount minted0 = 200
       /\ status row = ACTIVE /\ used_at row = None
       /\ verifies env0 (token minted0) row = true
       /\ expires_at row = expiresAt minted0
       /\ expiresAt minted0
          = clock w0 (k + clock_reads w0) + expirySeconds env0 * 1000.
Proof.
  apply (mint_stores_one_active_row env0 account 200 w0 w1
           (Return (Some minted0))).
  vm_compute. reflexivity.
Defined.

(** **** Redemptions that return *)

(** X10. When the database meets no fault and every stored hash has the 32
    bytes of a digest, a redemption does not throw: it returns one of
    the three results, and leaves a database whose hashes still have 32
    bytes, in a world that still meets no fault. *)
Theorem redeem_returns_without_fault (env : Env) (fullToken agentId : string)
    (metadata : RiskEngine.Metadata) (w : World) :
  no_faults w -> hashes_ok (db w) ->
  exists r w',
    redeemWithdrawalToken env fullToken agentId metadata w = (Return r, w')
    /\ no_faults w' /\ hashes_ok (db w').
Proof.
  intros Hnf Hok.
  destruct (well_shaped fullToken agentId) eqn:Hshape.
  - destruct (redeem_runs env fullToken agentId metadata w Hshape Hnf Hok)
      as (p & coreToken & rest & w' & _ & Hrun & Hdb & Hfault).
    do 2 eexists. split; [exact Hrun |].
    split; [intros n; rewrite Hfault; apply Hnf |].
    rewrite Hdb. unfold redeem_outcome.
    destruct (find _ (filter _ _)); [| exact Hok].
    destruct (find _ (tokens (db w))); [| exact Hok].
    destruct (_ && _); [| exact Hok].
    cbn [snd]. apply hashes_ok_redeemed. exact Hok.
  - exists (only INVALID), w.
    split; [apply redeem_rejects; exact Hshape |].
    split; assumption.
Qed.

(** X10, on the scenario. *)
Lemma redeem_returns_without_fault_witness :
  exists r w',
    redeemWithdrawalToken env0 (token minted0) "atm-1"
      RiskEngine.no_metadata w1 = (Return r, w')
    /\ no_faults w' /\ hashes_ok (db w').
Proof.
  apply (redeem_returns_without_fault env0 (token minted0) "atm-1"
           RiskEngine.no_metadata w1).
  - intros n. reflexivity.
  - assert (Hrows : tokens (db w1) = [row0]) by (vm_compute; reflexivity).
    unfold hashes_ok. rewrite Hrows. constructor; [| constructor].
    vm_compute. reflexivity.
Defined.

(** **** The statements of a redemption *)

(** X11. A redemption that returns has sent, in this order and each without
    failure: nothing at all or BEGIN, the scan of the candidates and
    COMMIT when it answers INVALID; BEGIN, the scan, the read of one
    row FOR UPDATE and COMMIT when it answers EXPIRED_OR_USED; and when
    it answers SUCCESS, BEGIN, the scan, the read FOR UPDATE of the row
    it names, then the update of that row, the insert of the ledger
    entry and the insert of the attempt, then COMMIT. So a redemption
    that does not succeed writes nothing, and the writes of one that
    does come after the lock on the row, inside one transaction. *)
Theorem redemption_statements (env : Env) (fullToken agentId : string)
    (metadata : RiskEngine.Metadata) (w w' : World) (r : Redemption) :
  redeemWithdrawalToken env fullToken agentId metadata w = (Return r, w') ->
  exists sent,
    issued w' = issued w ++ map sent_ok sent
    /\ match result r with
       | INVALID =>
           sent = []
           \/ exists p,
                sent = [BEGIN; SelectCandidates p (scan_time w); COMMIT]
       | EXPIRED_OR_USED =>
           exists p i,
             sent = [BEGIN; SelectCandidates p (scan_time w);
                     SelectForUpdate i; COMMIT]
       | SUCCESS =>
           exists p i,
             tokenId r = Some i
             /\ sent = [BEGIN; SelectCandidates p (scan_time w);
                        SelectForUpdate i; UpdateUsed i (use_time w);
                        InsertTransaction i; InsertAttempt i; COMMIT]
       end.
Proof.
  unfold redeemWithdrawalToken.
  assert (Hinvalid : forall wa,
             (ret (only INVALID) : Eff World Redemption) wa = (Return r, w') ->
             wa = w ->
             exists sent,
               issued w' = issued w ++ map sent_ok sent
               /\ match result r with
                  | INVALID =>
                      sent = []
                      \/ exists p,
                           sent = [BEGIN; SelectCandidates p (scan_time w);
                                   COMMIT]
                  | EXPIRED_OR_USED =>
                      exists p i,
                        sent = [BEGIN; SelectCandidates p (scan_time w);
                                SelectForUpdate i; COMMIT]
                  | SUCCESS =>
                      exists p i,
                        tokenId r = Some i
                        /\ sent = [BEGIN; SelectCandidates p (scan_time w);
                                   SelectForUpdate i;
                                   UpdateUsed i (use_time w);
                                   InsertTransaction i; InsertAttempt i;
                                   COMMIT]
                  end).
  { intros wa H ->. inversion H; subst. exists []. cbn.
    rewrite app_nil_r. split; [reflexivity | left; reflexivity]. }
  destruct (negb (fullToken =? "")%string && includes_dash fullToken
            && negb (agentId =? "")%string);
    [| intros H; exact (Hinvalid w H eq_refl)].
  destruct (split_dash fullToken) as [| prefix_ [| coreToken rest]];
    try (intros H; discriminate H).
  destruct (Nat.eqb (String.length prefix_) 4
            && Nat.eqb (String.length coreToken) 8);
    [| intros H; exact (Hinvalid w H eq_refl)].
  clear Hinvalid. intros H. apply transaction_returns in H.
  destruct H as (w2 & Hbody & ->).
  apply body_statements in Hbody.
  destruct Hbody as (sent & Hissued & Hsent).
  exists (BEGIN :: sent ++ [COMMIT]). split.
  - cbn [issued record_statement] in Hissued |- *. rewrite Hissued.
    rewrite <- !app_assoc. cbn [map app]. rewrite map_app. reflexivity.
  - change (scan_time (record_statement BEGIN None w)) with (scan_time w)
      in Hsent.
    change (use_time (record_statement BEGIN None w)) with (use_time w)
      in Hsent.
    destruct (result r).
    + destruct Hsent as (i & Htid & ->). exists prefix_, i.
      split; [exact Htid | reflexivity].
    + right. exists prefix_. rewrite Hsent. reflexivity.
    + destruct Hsent as (i & ->). exists prefix_, i. reflexivity.
Qed.

(** X11, on the first redemption of the scenario. *)
Lemma redemption_statements_witness :
  exists sent,
    issued (snd first_redeem) = issued w1 ++ map sent_ok sent
    /\ exists p i,
         Some (minted_id minted0) = Some i
         /\ sent = [BEGIN; SelectCandidates p (scan_time w1);
                    SelectForUpdate i; UpdateUsed i (use_time w1);
                    InsertTransaction i; InsertAttempt i; COMMIT].
Proof.
  apply (redemption_statements env0 (token minted0) "atm-1"
           RiskEngine.no_metadata w1 (snd first_redeem)
           {| result := SUCCESS; tokenId := Some (minted_id minted0);
              transactionId := Some 2%positive |}).
  vm_compute. reflexivity.
Defined.

End TokenServiceGuarantees.

(* ================================================================== *)
(** ** Further properties of the rate limiter *)
(* ================================================================== *)

Section RateLimiterSteps.

Import RateLimiter Traffic.
Local Open Scope Z_scope.

(** **** Redis *)

Lemma lookup_store_same {A : Type} (key : string) (v : A)
    (l : list (string * A)) :
  lookup key (store key v l) = Some v.
Proof.
  induction l as [| [k v'] l IH]; cbn.
  - rewrite String.eqb_refl. reflexivity.
  - destruct (k =? key)%string eqn:E; cbn.
    + rewrite String.eqb_refl. reflexivity.
    + rewrite E. exact IH.
Qed.

Lemma lookup_store_other {A : Type} (key key' : string) (v : A)
    (l : list (string * A)) :
  key' <> key -> lookup key' (store key v l) = lookup key' l.
Proof.
  intros Hne. induction l as [| [k v'] l IH]; cbn.
  - destruct (String.eqb_spec key key'); [congruence | reflexivity].
  - destruct (String.eqb_spec k key) as [-> | Hk]; cbn.
    + destruct (String.eqb_spec key key'); [congruence | reflexivity].
    + destruct (k =? key')%string; [reflexivity | exact IH].
Qed.

Lemma lookup_remove_same {A : Type} (key : string) (l : list (string * A)) :
  lookup key (remove key l) = None.
Proof.
  induction l as [| [k v] l IH]; cbn; [reflexivity |].
  destruct (k =? key)%string eqn:E; cbn; [exact IH |].
  rewrite E. exact IH.
Qed.

Lemma lookup_remove_other {A : Type} (key key' : string)
    (l : list (string * A)) :
  key' <> key -> lookup key' (remove key l) = lookup key' l.
Proof.
  intros Hne. induction l as [| [k v] l IH]; cbn; [reflexivity |].
  destruct (String.eqb_spec k key) as [-> | Hk]; cbn.
  - destruct (String.eqb_spec key key'); [congruence | exact IH].
  - destruct (k =? key')%string; [reflexivity | exact IH].
Qed.


Lemma members_set_same (r : Redis) (key : string) (s : list (string * Z)) :
  members (set_members r key s) key = s.
Proof.
  unfold members, set_members. destruct s; cbn.
  - rewrite lookup_remove_same. reflexivity.
  - rewrite lookup_store_same. reflexivity.
Qed.


Lemma set_members_elsewhere (r : Redis) (key key' : string)
    (s : list (string * Z)) :
  key' <> key ->
  lookup key' (zsets (set_members r key s)) = lookup key' (zsets r)
  /\ lookup key' (expirations (set_members r key s))
     = lookup key' (expirations r).
Proof.
  intros Hne. unfold set_members. destruct s; cbn.
  - rewrite !lookup_remove_other by exact Hne. split; reflexivity.
  - rewrite lookup_store_other by exact Hne. split; reflexivity.
Qed.

(** A command for a key leaves the sorted sets and the expirations of
    the other keys as they are. *)
Lemma run_other_key (c : Command) (key key' : string) (r : Redis) :
  match c with
  | ZREMRANGEBYSCORE k _ _ | ZCARD k | TTL k | ZADD k _ _ | EXPIRE k _
  | ZREM k _ => k = key
  end ->
  key' <> key ->
  lookup key' (zsets (snd (run c r))) = lookup key' (zsets r)
  /\ lookup key' (expirations (snd (run c r)))
     = lookup key' (expirations r).
Proof.
  intros Hk Hne. destruct c; cbn [run snd] in *; subst;
    try (apply set_members_elsewhere; exact Hne);
    try (split; reflexivity).
  destruct (lookup key (zsets r)); cbn; [| split; reflexivity].
  rewrite lookup_store_other by exact Hne. split; reflexivity.
Qed.


(** **** A request that meets no fault *)

Lemma members_swept (window_ : Z) (key : string) (w : World) :
  members (swept window_ key w) key = live window_ key w.
Proof. unfold swept. cbn [run snd]. apply members_set_same. Qed.

(** A logger that writes errors not writes warnings. *)
Lemma noop_error_warn (threshold : Level) :
  is_noop threshold error = true -> is_noop threshold warn = true.
Proof. destruct threshold; cbn; congruence. Qed.

Ltac world_fields :=
  cbn [fst snd finish redis issued fault now randomUUID logger_level log
       reply statusCode sent headers remove_on_success].

Lemma rejected_step (config : Config) (options : Options)
    (request : Request) (w : World) :
  redis_up w ->
  max_of config options
  <= Z.of_nat (List.length (live (window_of config options)
                              (key_of options request) w)) ->
  is_date (now w
           + reset_delay (window_of config options)
               (ttl_of (window_of config options)
                  (key_of options request) w)) = true ->
  alone (createRateLimiter config options request) w
  = ((if is_noop (logger_level w) warn then Return tt
      else Throw detached_call),
     {| redis := swept (window_of config options) (key_of options request) w;
        issued :=
          issued w
          ++ map answered
               [ZREMRANGEBYSCORE (key_of options request) 0
                  (now w - window_of config options);
                ZCARD (key_of options request);
                TTL (key_of options request)];
        fault := fault w; now := now w; randomUUID := randomUUID w;
        logger_level := logger_level w; log := log w;
        reply :=
          if is_noop (logger_level w) warn then
            {| statusCode := 429;
               sent :=
                 Some {| retryAfter :=
                           retry_after (window_of config options)
                             (ttl_of (window_of config options)
                                (key_of options request) w);
                         limit := max_of config options;
                         window := window_of config options |};
               headers := headers (reply w);
               remove_on_success := remove_on_success (reply w) |}
          else reply w |}).
Proof.
  intros Hnf Hfull Hdate.
  unfold alone, createRateLimiter, await, closing, settle.
  fold (window_of config options) (max_of config options)
    (key_of options request) (skip_of config options).
  generalize dependent (window_of config options).
  generalize dependent (max_of config options).
  generalize dependent (key_of options request).
  generalize (skip_of config options).
  intros skip key max_ window_ Hfull Hdate.
  cbn [finish]. unfold command at 1. rewrite Hnf. world_fields.
  unfold command at 1. world_fields. rewrite Hnf. world_fields.
  fold (swept window_ key w).
  change (fst (run (ZCARD key) (swept window_ key w)))
    with (Z.of_nat (List.length (members (swept window_ key w) key))).
  rewrite members_swept.
  apply Z.leb_le in Hfull. rewrite Hfull. world_fields.
  unfold command at 1. world_fields. rewrite Hnf. world_fields.
  change (snd (run (ZCARD key) (swept window_ key w)))
    with (swept window_ key w).
  change (snd (run (TTL key) (swept window_ key w)))
    with (swept window_ key w).
  fold (ttl_of window_ key w).
  change (now w + (if 0 <? ttl_of window_ key w
                    then ttl_of window_ key w * 1000 else window_))
    with (now w + reset_delay window_ (ttl_of window_ key w)).
  unfold bind, toISOString. rewrite Hdate. world_fields.
  unfold logSecurity. world_fields.
  destruct (is_noop (logger_level w) warn) eqn:Hwarn; world_fields.
  - unfold reply_status, reply_send, with_reply. world_fields.
    rewrite Z.add_simpl_l, <- !app_assoc. reflexivity.
  - assert (Herror : is_noop (logger_level w) error = false).
    { destruct (is_noop (logger_level w) error) eqn:E; [| reflexivity].
      apply noop_error_warn in E. congruence. }
    rewrite Herror. world_fields. rewrite <- !app_assoc. reflexivity.
Qed.

Lemma admitted_step (config : Config) (options : Options)
    (request : Request) (w : World) :
  redis_up w ->
  Z.of_nat (List.length (live (window_of config options)
                           (key_of options request) w))
  < max_of config options ->
  is_date (now w + window_of config options) = true ->
  alone (createRateLimiter config options request) w
  = (Return tt,
     {| redis := entered (window_of config options) (key_of options request)
                   (id_of request w) w;
        issued :=
          issued w
          ++ map answered
               [ZREMRANGEBYSCORE (key_of options request) 0
                  (now w - window_of config options);
                ZCARD (key_of options request);
                ZADD (key_of options request) (now w) (id_of request w);
                EXPIRE (key_of options request)
                  (ceil_seconds (window_of config options))];
        fault := fault w; now := now w; randomUUID := randomUUID w;
        logger_level := logger_level w; log := log w;
        reply :=
          {| statusCode := statusCode (reply w);
             sent := sent (reply w);
             headers :=
               headers (reply w)
               ++ [("X-RateLimit-Limit"%string,
                    Number (max_of config options));
                   ("X-RateLimit-Remaining"%string,
                    Number
                      (Z.max 0
                         (max_of config options
                          - Z.of_nat
                              (List.length
                                 (live (window_of config options)
                                    (key_of options request) w))
                          - 1)));
                   ("X-RateLimit-Reset"%string,
                    IsoDate (now w + window_of config options))];
             remove_on_success :=
               remove_on_success (reply w)
               ++ (if skip_of config options
                   then [(key_of options request, id_of request w)]
                   else []) |} |}).
Proof.
  intros Hnf Hroom Hdate.
  unfold alone, createRateLimiter, await, closing, settle.
  fold (window_of config options) (max_of config options)
    (key_of options request) (skip_of config options).
  generalize dependent (window_of config options).
  generalize dependent (max_of config options).
  generalize dependent (key_of options request).
  generalize (skip_of config options).
  intros skip key max_ window_ Hroom Hdate.
  cbn [finish]. unfold command at 1. rewrite Hnf. world_fields.
  unfold command at 1. world_fields. rewrite Hnf. world_fields.
  fold (swept window_ key w).
  change (fst (run (ZCARD key) (swept window_ key w)))
    with (Z.of_nat (List.length (members (swept window_ key w) key))).
  rewrite members_swept.
  apply Z.leb_gt in Hroom. rewrite Hroom. world_fields.
  fold (id_of request w).
  unfold command at 1. world_fields. rewrite Hnf. world_fields.
  unfold command at 1. world_fields. rewrite Hnf. world_fields.
  change (snd (run (ZCARD key) (swept window_ key w)))
    with (swept window_ key w).
  fold (entered window_ key (id_of request w) w).
  unfold bind, toISOString, reply_header, wrap_send, with_reply.
  world_fields. rewrite Hdate. world_fields.
  destruct skip;
    unfold with_reply, ret; world_fields;
    rewrite <- !app_assoc, ?app_nil_r; reflexivity.
Qed.

(** **** The entries of a key after a request *)

Lemma members_expire (key k : string) (seconds : Z) (r : Redis) :
  members (snd (run (EXPIRE key seconds) r)) k = members r k.
Proof.
  unfold members. cbn. destruct (lookup key (zsets r)); reflexivity.
Qed.

Lemma members_entered (window_ : Z) (key member : string) (w : World) :
  members (entered window_ key member w) key
  = filter (fun m => negb (fst m =? member)%string) (live window_ key w)
    ++ [(member, now w)].
Proof.
  unfold entered. rewrite members_expire. cbn [run snd].
  rewrite members_set_same, members_swept. reflexivity.
Qed.



Lemma snoc_not_nil {A : Type} (l : list A) (x : A) : l ++ [x] <> [].
Proof. destruct l; discriminate. Qed.

Lemma expiration_entered (window_ : Z) (key member : string) (w : World) :
  lookup key (expirations (entered window_ key member w))
  = Some (ceil_seconds window_).
Proof.
  unfold entered. cbn [run snd].
  set (s := filter _ _ ++ [(member, now w)]).
  assert (Hs : s <> []) by apply snoc_not_nil.
  unfold set_members at 1 2. destruct s as [| m s]; [congruence |].
  cbn [zsets expirations]. rewrite lookup_store_same.
  cbn [snd expirations]. apply lookup_store_same.
Qed.



Lemma filter_keeps_all {A : Type} (f : A -> bool) (l : list A) :
  (forall x, In x l -> f x = true) -> filter f l = l.
Proof.
  induction l as [| x l IH]; intros H; cbn; [reflexivity |].
  rewrite (H x (or_introl eq_refl)), IH; [reflexivity |].
  intros y Hy. apply H. right. exact Hy.
Qed.

Lemma filter_narrows {A : Type} (f g : A -> bool) (l : list A) :
  (forall x, f x = true -> g x = true) ->
  filter f (filter g l) = filter f l.
Proof.
  intros H. induction l as [| x l IH]; cbn; [reflexivity |].
  destruct (g x) eqn:Hg; cbn.
  - rewrite IH. reflexivity.
  - destruct (f x) eqn:Hf; [rewrite (H x Hf) in Hg; discriminate | exact IH].
Qed.

Lemma recent_earlier (window_ s t : Z) (m : string * Z) :
  s <= t -> recent window_ t m = true -> recent window_ s m = true.
Proof.
  unfold recent, in_range. intros Hst H.
  apply negb_true_iff in H. apply negb_true_iff.
  apply andb_false_iff in H. apply andb_false_iff.
  destruct H as [H | H]; [left; exact H | right].
  apply Z.leb_gt in H. apply Z.leb_gt. lia.
Qed.


(** **** The requests of the past *)




(** **** The server *)



















(** **** The other keys, whatever fails *)

Lemma elsewhere_refl (key : string) (r : Redis) : elsewhere key r r.
Proof. intros k _. split; reflexivity. Qed.

Lemma elsewhere_trans (key : string) (r1 r2 r3 : Redis) :
  elsewhere key r1 r2 -> elsewhere key r2 r3 -> elsewhere key r1 r3.
Proof.
  intros H12 H23 k Hk. destruct (H12 k Hk) as [Ha Hb].
  destruct (H23 k Hk) as [Hc Hd]. split; congruence.
Qed.

Lemma run_elsewhere (c : Command) (r : Redis) :
  elsewhere (command_key c) r (snd (run c r)).
Proof.
  intros k Hk. apply (run_other_key c (command_key c) k r); [| exact Hk].
  destruct c; reflexivity.
Qed.

Ltac frame :=
  repeat first
    [ apply elsewhere_refl
    | match goal with
      | |- elsewhere ?key ?r (snd (run ?c ?r')) =>
          apply (elsewhere_trans key r r' _); [| exact (run_elsewhere c r')]
      end ].

Ltac caught w :=
  unfold logSecurity; world_fields;
  destruct (is_noop (logger_level w) error); world_fields;
  intros H; apply pair_equal_spec in H; destruct H as [<- <-]; world_fields;
  (split; [first [left; reflexivity | right; split; reflexivity] |]);
  (split; [reflexivity |]); (split; [reflexivity |]); frame.

Ltac closing w :=
  unfold bind, toISOString, logSecurity, reply_status, reply_send,
    reply_header, wrap_send, with_reply, ret;
  world_fields;
  repeat match goal with
         | |- context [is_date ?x] => destruct (is_date x); world_fields
         | |- context [is_noop (logger_level w) ?l] =>
             destruct (is_noop (logger_level w) l); world_fields
         | |- context [if ?b then _ else _] =>
             is_var b; destruct b; world_fields
         end;
  intros H; apply pair_equal_spec in H; destruct H as [<- <-]; world_fields;
  (split; [first [left; reflexivity | right; split; reflexivity] |]);
  (split; [reflexivity |]); (split; [reflexivity |]); frame.

(** What the middleware does alone, whatever fails. *)
Lemma limiter_elsewhere (config : Config) (options : Options)
    (request : Request) (w w' : World) (o : Outcome unit) :
  alone (createRateLimiter config options request) w = (o, w') ->
  (o = Return tt
   \/ (o = Throw detached_call /\ is_noop (logger_level w) error = false))
  /\ log w' = log w
  /\ logger_level w' = logger_level w
  /\ elsewhere (key_of options request) (redis w) (redis w').
Proof.
  unfold alone, createRateLimiter, await, closing, settle.
  fold (key_of options request).
  generalize (or_else (windowMs options) (config_windowMs config)).
  generalize (or_else (maxRequests options) (config_maxRequests config)).
  generalize (key_of options request).
  generalize (or_else (skipSuccessfulRequests options)
                      (config_skipSuccessfulRequests config)).
  intros skip key max_ window_.
  cbn [finish]. unfold command at 1.
  destruct (fault w (List.length (issued w))) as [e1 |]; world_fields.
  { caught w. }
  unfold command at 1. world_fields.
  destruct (fault w (List.length (issued w ++ _))) as [e2 |]; world_fields.
  { caught w. }
  destruct (max_ <=? _); world_fields.
  - unfold command at 1. world_fields.
    destruct (fault w (List.length ((issued w ++ _) ++ _))) as [e3 |];
      world_fields.
    { caught w. }
    closing w.
  - unfold command at 1. world_fields.
    destruct (fault w (List.length ((issued w ++ _) ++ _))) as [e3 |];
      world_fields.
    { caught w. }
    unfold command at 1. world_fields.
    destruct (fault w (List.length (((issued w ++ _) ++ _) ++ _)))
      as [e4 |]; world_fields.
    { caught w. }
    closing w.
Qed.

(** **** The wrapped send *)

Lemma remove_entries_safe (entries_ : list (string * string)) :
  forall (w w' : World) (o : Outcome unit),
    remove_entries entries_ w = (o, w') ->
    o = Return tt /\ reply w' = reply w /\ log w' = log w
    /\ fault w' = fault w
    /\ exists sent_,
         issued w' = issued w ++ sent_
         /\ map stmt sent_ = map (fun e => ZREM (fst e) (snd e)) entries_.
Proof.
  induction entries_ as [| [key requestId] rest IH]; intros w w' o H.
  - inversion H; subst. repeat (split; [reflexivity |]).
    exists []. rewrite app_nil_r. split; reflexivity.
  - cbn [remove_entries] in H. unfold bind at 1 in H.
    unfold try_catch, bind, command in H.
    destruct (fault w (List.length (issued w))) as [e |];
      cbn [ret] in H; apply IH in H;
      cbn [reply log fault issued] in H;
      destruct H as (-> & Hreply & Hlog & Hfault & sent_ & Hissued & Hsent);
      (split; [reflexivity |]); (split; [exact Hreply |]);
      (split; [exact Hlog |]); (split; [exact Hfault |]);
      eexists (_ :: sent_); rewrite Hissued, <- app_assoc;
      (split; [reflexivity |]); cbn [map stmt fst snd];
      rewrite Hsent; reflexivity.
Qed.

End RateLimiterSteps.

Section RateLimiterGuarantees.

Import RateLimiter Traffic.
Local Open Scope Z_scope.

(** **** The sliding window *)



(** **** A request over the limit *)

(** X13. When no command fails, the key holds [maxRequests] entries or more
    after the removal of the old ones, and the reset is a date: the
    middleware, alone, sends only that removal, ZCARD and TTL, so no
    entry is added; it sets no header and writes no line. At a level of
    the logger at which warnings are written (the default [info] is
    one) the call of [logSecurity] throws, the [catch] block throws
    again, the middleware throws that TypeError with the reply
    untouched, and no 429 is sent. At the levels [error], [fatal] and
    [silent] it sets the status 429 and sends the limit, the window and
    the seconds to wait, which are the answer of TTL when that is
    positive and the window rounded up to seconds otherwise, more than
    zero. Either way the request does not reach its handler. *)
Theorem over_limit_is_refused (config : Config) (options : Options)
    (request : Request) (handler : Eff World unit) (w : World) :
  redis_up w ->
  0 <= now w ->
  0 < window_of config options ->
  max_of config options
  <= Z.of_nat (List.length (live (window_of config options)
                              (key_of options request) w)) ->
  is_date (now w
           + reset_delay (window_of config options)
               (ttl_of (window_of config options)
                  (key_of options request) w)) = true ->
  exists w' ttl wait,
    alone (createRateLimiter config options request) w
    = ((if is_noop (logger_level w) warn then Return tt
        else Throw detached_call), w')
    /\ map stmt (commands_since w w')
       = [ZREMRANGEBYSCORE (key_of options request) 0
            (now w - window_of config options);
          ZCARD (key_of options request);
          TTL (key_of options request)]
    /\ nth_error (commands_since w w') 2
       = Some {| stmt := TTL (key_of options request); failed := None |}
    /\ ttl = fst (run (TTL (key_of options request))
                    (swept (window_of config options)
                       (key_of options request) w))
    /\ members (redis w') (key_of options request)
       = live (window_of config options) (key_of options request) w
    /\ headers (reply w') = headers (reply w)
    /\ log w' = log w
    /\ (is_noop (logger_level w) warn = false -> reply w' = reply w)
    /\ (is_noop (logger_level w) warn = true ->
        statusCode (reply w') = 429
        /\ sent (reply w')
           = Some {| retryAfter := wait; limit := max_of config options;
                     window := window_of config options |})
    /\ wait = (if 0 <? ttl then ttl
               else ceil_seconds (window_of config options))
    /\ 0 < wait
    /\ onRequest (alone (createRateLimiter config options request))
         handler w
       = ((if is_noop (logger_level w) warn then Return tt
           else Throw detached_call), w').
Proof.
  intros Hnf Hnow Hwindow Hfull Hdate.
  pose proof (rejected_step config options request w Hnf Hfull Hdate)
    as Hstep.
  set (window_ := window_of config options) in *.
  set (key := key_of options request) in *.
  change (ttl_of window_ key w)
    with (fst (run (TTL key) (swept window_ key w))) in *.
  set (ttl := fst (run (TTL key) (swept window_ key w))) in *.
  assert (Hwait : retry_after window_ ttl
                  = if 0 <? ttl then ttl else ceil_seconds window_).
  { unfold retry_after, reset_delay, ceil_seconds.
    destruct (0 <? ttl); [| reflexivity].
    rewrite Z.div_add_l by lia. change (999 / 1000) with 0. lia. }
  eexists. exists ttl, (retry_after window_ ttl).
  split; [exact Hstep |].
  unfold commands_since. cbn [issued redis reply log].
  rewrite skipn_exact.
  split; [reflexivity |]. split; [reflexivity |]. split; [reflexivity |].
  split; [apply members_swept |].
  split; [destruct (is_noop (logger_level w) warn); reflexivity |].
  split; [reflexivity |].
  split; [intros ->; reflexivity |].
  split; [intros ->; split; reflexivity |].
  split; [exact Hwait |].
  split.
  { rewrite Hwait.
    destruct (0 <? ttl) eqn:Httl; [apply Z.ltb_lt; exact Httl |].
    unfold ceil_seconds. apply Z.div_str_pos. lia. }
  unfold onRequest, bind. rewrite Hstep.
  destruct (is_noop (logger_level w) warn); reflexivity.
Qed.

(** X13, on the third request of the burst, at the default level of the
    logger, at which the middleware throws, and at the level [error],
    at which it answers 429. *)
Lemma over_limit_is_refused_witness :
  (exists w',
      alone (createRateLimiter the_config tight (numbered "3" "203.0.113.7"))
        crowded = (Throw detached_call, w')
      /\ reply w' = reply crowded /\ log w' = log crowded
      /\ members (redis w') (key_of tight (numbered "3" "203.0.113.7"))
         = members (redis crowded) (key_of tight (numbered "3" "203.0.113.7"))
      /\ onRequest
           (alone (createRateLimiter the_config tight
                     (numbered "3" "203.0.113.7")))
           (ret tt) crowded
         = (Throw detached_call, w'))
  /\ (exists w',
        alone (createRateLimiter the_config tight
                 (numbered "3" "203.0.113.7"))
          crowded_hushed = (Return tt, w')
        /\ statusCode (reply w') = 429
        /\ sent (reply w')
           = Some {| retryAfter := 1; limit := 2; window := 1000 |}
        /\ log w' = log crowded_hushed
        /\ onRequest
             (alone (createRateLimiter the_config tight
                       (numbered "3" "203.0.113.7")))
             (ret tt) crowded_hushed
           = (Return tt, w')).
Proof.
  split.
  - destruct (over_limit_is_refused the_config tight
                (numbered "3" "203.0.113.7") (ret tt) crowded)
      as (w' & ttl & wait & Hrun & _ & _ & _ & Hmembers & _ & Hlog
          & Hreply & _ & _ & _ & Hhook).
    + intros n. reflexivity.
    + vm_compute. discriminate.
    + reflexivity.
    + vm_compute. discriminate.
    + vm_compute. reflexivity.
    + exists w'. split; [exact Hrun |].
      split; [exact (Hreply eq_refl) |]. split; [exact Hlog |].
      split; [| exact Hhook].
      rewrite Hmembers. vm_compute. reflexivity.
  - destruct (over_limit_is_refused the_config tight
                (numbered "3" "203.0.113.7") (ret tt) crowded_hushed)
      as (w' & ttl & wait & Hrun & _ & _ & Httl & _ & _ & Hlog
          & _ & Hsent & Hwait & _ & Hhook).
    + intros n. reflexivity.
    + vm_compute. discriminate.
    + reflexivity.
    + vm_compute. discriminate.
    + vm_compute. reflexivity.
    + exists w'. split; [exact Hrun |].
      destruct (Hsent eq_refl) as [Hstatus Hbody].
      split; [exact Hstatus |].
      split; [| split; [exact Hlog | exact Hhook]].
      rewrite Hbody, Hwait, Httl. vm_compute. reflexivity.
Defined.

(** **** A request under the limit *)

(** X14. When no command fails, the key holds fewer than [maxRequests]
    entries after the removal of the old ones, and the instant of the
    reset is a date: the middleware, alone, adds the entry of the
    request, scored with the instant of the request, after the entries
    that were there (an older entry under the same identifier is
    replaced), and sets the expiration of the key to the window rounded
    up to seconds. It leaves the status and the body of the reply
    alone, adds the three X-RateLimit headers, of which Remaining is
    [maxRequests] less the entries counted less one and is not
    negative, writes no line, and the request goes on to its
    handler. *)
Theorem under_limit_is_admitted (config : Config) (options : Options)
    (request : Request) (handler : Eff World unit) (w : World) :
  redis_up w ->
  0 <= now w ->
  0 < window_of config options ->
  max_of config options <= max_safe_integer ->
  Z.of_nat (List.length (live (window_of config options)
                           (key_of options request) w))
  < max_of config options ->
  is_date (now w + window_of config options) = true ->
  exists w' remaining,
    alone (createRateLimiter config options request) w = (Return tt, w')
    /\ members (redis w') (key_of options request)
       = filter (fun m => negb (fst m =? id_of request w)%string)
           (live (window_of config options) (key_of options request) w)
         ++ [(id_of request w, now w)]
    /\ lookup (key_of options request) (expirations (redis w'))
       = Some (ceil_seconds (window_of config options))
    /\ statusCode (reply w') = statusCode (reply w)
    /\ sent (reply w') = sent (reply w)
    /\ headers (reply w')
       = headers (reply w)
         ++ [("X-RateLimit-Limit"%string, Number (max_of config options));
             ("X-RateLimit-Remaining"%string, Number remaining);
             ("X-RateLimit-Reset"%string,
              IsoDate (now w + window_of config options))]
    /\ remaining
       = max_of config options
         - Z.of_nat (List.length (live (window_of config options)
                                    (key_of options request) w))
         - 1
    /\ 0 <= remaining
    /\ log w' = log w
    /\ (sent (reply w) = None ->
        onRequest (alone (createRateLimiter config options request))
          handler w
        = handler w').
Proof.
  intros Hnf _ _ _ Hroom Hdate.
  pose proof (admitted_step config options request w Hnf Hroom Hdate)
    as Hstep.
  set (window_ := window_of config options) in *.
  set (key := key_of options request) in *.
  set (count := Z.of_nat (List.length (live window_ key w))) in *.
  eexists. exists (max_of config options - count - 1).
  split; [exact Hstep |].
  cbn [issued redis reply log statusCode sent headers].
  split; [apply members_entered |].
  split; [apply expiration_entered |].
  split; [reflexivity |]. split; [reflexivity |].
  split; [rewrite Z.max_r by lia; reflexivity |].
  split; [reflexivity |]. split; [lia |]. split; [reflexivity |].
  intros Hsent. unfold onRequest, bind. rewrite Hstep.
  cbn [reply sent]. rewrite Hsent. reflexivity.
Qed.

(** X14, on the first request of the burst. *)
Lemma under_limit_is_admitted_witness :
  exists w' remaining,
    alone (createRateLimiter the_config tight (numbered "1" "203.0.113.7"))
      quiet = (Return tt, w')
    /\ members (redis w') (key_of tight (numbered "1" "203.0.113.7"))
       = filter (fun m => negb (fst m =? id_of (numbered "1" "203.0.113.7")
                                           quiet)%string)
           (live (window_of the_config tight)
              (key_of tight (numbered "1" "203.0.113.7")) quiet)
         ++ [(id_of (numbered "1" "203.0.113.7") quiet, now quiet)]
    /\ lookup (key_of tight (numbered "1" "203.0.113.7"))
         (expirations (redis w'))
       = Some (ceil_seconds (window_of the_config tight))
    /\ statusCode (reply w') = statusCode (reply quiet)
    /\ sent (reply w') = sent (reply quiet)
    /\ headers (reply w')
       = headers (reply quiet)
         ++ [("X-RateLimit-Limit"%string, Number (max_of the_config tight));
             ("X-RateLimit-Remaining"%string, Number remaining);
             ("X-RateLimit-Reset"%string,
              IsoDate (now quiet + window_of the_config tight))]
    /\ remaining
       = max_of the_config tight
         - Z.of_nat (List.length
                       (live (window_of the_config tight)
                          (key_of tight (numbered "1" "203.0.113.7")) quiet))
         - 1
    /\ 0 <= remaining
    /\ log w' = log quiet
    /\ (sent (reply quiet) = None ->
        onRequest
          (alone (createRateLimiter the_config tight
                    (numbered "1" "203.0.113.7")))
          (ret tt) quiet
        = ret tt w').
Proof.
  apply (under_limit_is_admitted the_config tight
           (numbered "1" "203.0.113.7") (ret tt) quiet).
  - intros n. reflexivity.
  - vm_compute. discriminate.
  - reflexivity.
  - vm_compute. discriminate.
  - vm_compute. reflexivity.
  - vm_compute. reflexivity.
Defined.

(** **** Whatever fails *)

(** X15. Whether its commands fail or not, whether the reset is a date or
    not, and at any level of the logger, the middleware, alone, leaves
    the sorted sets and the expirations of every key other than the key
    of the request as they were and writes no line; it returns, or it
    throws the TypeError of the call of the logger, and that only at a
    level of the logger at which errors are written. *)
Theorem limiter_keeps_to_its_key (config : Config) (options : Options)
    (request : Request) (w w' : World) (o : Outcome unit) :
  alone (createRateLimiter config options request) w = (o, w') ->
  (o = Return tt
   \/ (o = Throw detached_call /\ is_noop (logger_level w) error = false))
  /\ log w' = log w
  /\ forall k, k <> key_of options request ->
       lookup k (zsets (redis w')) = lookup k (zsets (redis w))
       /\ lookup k (expirations (redis w'))
          = lookup k (expirations (redis w)).
Proof.
  intros H. apply limiter_elsewhere in H.
  destruct H as (Ho & Hlog & _ & Hframe).
  split; [exact Ho |]. split; [exact Hlog | exact Hframe].
Qed.

(** X15, on the fourth request of the burst, of another address than the
    first two. *)
Lemma limiter_keeps_to_its_key_witness :
  (fst (alone (createRateLimiter the_config tight
                 (numbered "4" "198.51.100.2")) crowded) = Return tt
   \/ (fst (alone (createRateLimiter the_config tight
                     (numbered "4" "198.51.100.2")) crowded)
       = Throw detached_call
       /\ is_noop (logger_level crowded) error = false))
  /\ log (snd (alone (createRateLimiter the_config tight
                        (numbered "4" "198.51.100.2")) crowded))
     = log crowded
  /\ forall k, k <> key_of tight (numbered "4" "198.51.100.2") ->
       lookup k (zsets (redis (snd (alone
                                      (createRateLimiter the_config tight
                                         (numbered "4" "198.51.100.2"))
                                      crowded))))
       = lookup k (zsets (redis crowded))
       /\ lookup k (expirations
                      (redis (snd (alone
                                     (createRateLimiter the_config tight
                                        (numbered "4" "198.51.100.2"))
                                     crowded))))
          = lookup k (expirations (redis crowded)).
Proof.
  apply (limiter_keeps_to_its_key the_config tight
           (numbered "4" "198.51.100.2") crowded).
  apply surjective_pairing.
Defined.

(** **** The wrapped send *)

(** X16. The [send] that the middleware puts in place of the reply's own
    never throws, whatever Redis does, and touches neither the reply
    nor the log; on a status of 400 or more it sends no command at all,
    and on a status below 400 it sends one ZREM for each entry that the
    middleware has registered, and nothing else. *)
Theorem wrapped_send_is_safe (w w' : World) (o : Outcome unit) :
  wrapped_send w = (o, w') ->
  o = Return tt
  /\ reply w' = reply w
  /\ log w' = log w
  /\ (400 <= statusCode (reply w) -> w' = w)
  /\ (statusCode (reply w) < 400 ->
      map stmt (commands_since w w')
      = map (fun e => ZREM (fst e) (snd e)) (remove_on_success (reply w))).
Proof.
  unfold wrapped_send. destruct (Z.ltb_spec (statusCode (reply w)) 400)
    as [Hlt | Hge]; intros H.
  - apply remove_entries_safe in H.
    destruct H as (-> & Hreply & Hlog & _ & sent_ & Hissued & Hsent).
    split; [reflexivity |]. split; [exact Hreply |]. split; [exact Hlog |].
    split; [lia |]. intros _. unfold commands_since.
    rewrite Hissued, skipn_exact. exact Hsent.
  - inversion H; subst.
    split; [reflexivity |]. split; [reflexivity |]. split; [reflexivity |].
    split; [intros _; reflexivity | intros Hlt; lia].
Qed.

(** X16, on the send of the reply to the first request of the burst, with
    Redis down. *)
Lemma wrapped_send_is_safe_witness :
  fst (wrapped_send answering) = Return tt
  /\ reply (snd (wrapped_send answering)) = reply answering
  /\ log (snd (wrapped_send answering)) = log answering
  /\ (400 <= statusCode (reply answering) ->
      snd (wrapped_send answering) = answering)
  /\ (statusCode (reply answering) < 400 ->
      map stmt (commands_since answering (snd (wrapped_send answering)))
      = map (fun e => ZREM (fst e) (snd e))
          (remove_on_success (reply answering))).
Proof.
  apply (wrapped_send_is_safe answering (snd (wrapped_send answering))
           (fst (wrapped_send answering))).
  apply surjective_pairing.
Defined.



(** **** The strict limiter *)



(** **** Requests in flight together *)

Ltac fields :=
  cbn [world flights nth_error its_hook its_request its_reply its_answer
       replace fst snd redis issued fault now randomUUID logger_level log
       reply arrive].

Ltac turn :=
  fields; unfold with_its_reply; fields; unfold command at 1; fields.

(** X28. The middleware counts the entries of the key and adds its own in
    two commands, with an [await] between them. When two requests of
    one key are in flight together, the second arriving before the
    first has got an answer from Redis and their hooks going on in
    turn, both count the entries before either has added its own: when
    no command fails and the key holds fewer than [maxRequests]
    entries, both reach their handlers and both entries are added, so
    with one place left the key ends with [maxRequests] + 1 entries. *)
Theorem requests_together_both_pass (config : Config) (options : Options)
    (request1 request2 : Request) (t1 t2 : Z) (w : World) :
  redis_up w ->
  key_of options request2 = key_of options request1 ->
  id_of request1 w <> id_of request2 w ->
  0 <= t1 <= t2 ->
  0 < window_of config options ->
  is_date (t1 + window_of config options) = true ->
  is_date (t2 + window_of config options) = true ->
  ~ In (id_of request1 w)
       (map fst (members (redis w) (key_of options request1))) ->
  ~ In (id_of request2 w)
       (map fst (members (redis w) (key_of options request1))) ->
  Z.of_nat (List.length (live (window_of config options)
                           (key_of options request1) (arrive t2 w)))
  < max_of config options ->
  map let_through
    (flights (after (createRateLimiter config options)
                (together t1 request1 t2 request2)
                {| world := w; flights := [] |}))
  = [true; true]
  /\ members
       (redis (world (after (createRateLimiter config options)
                        (together t1 request1 t2 request2)
                        {| world := w; flights := [] |})))
       (key_of options request1)
     = live (window_of config options) (key_of options request1)
         (arrive t2 w)
       ++ [(id_of request1 w, t1); (id_of request2 w, t2)]
  /\ Z.of_nat
       (List.length
          (members
             (redis (world (after (createRateLimiter config options)
                              (together t1 request1 t2 request2)
                              {| world := w; flights := [] |})))
             (key_of options request1)))
     = Z.of_nat (List.length (live (window_of config options)
                                (key_of options request1) (arrive t2 w)))
       + 2.
Proof.
  intros Hnf Hkey Hids Ht Hwindow Hdate1 Hdate2 Hnew1 Hnew2 Hroom.
  assert (Hstate :
            exists (W : World) (f1 f2 : Flight),
              after (createRateLimiter config options)
                (together t1 request1 t2 request2)
                {| world := w; flights := [] |}
              = {| world := W; flights := [f1; f2] |}
              /\ let_through f1 = true /\ let_through f2 = true
              /\ members (redis W) (key_of options request1)
                 = live (window_of config options) (key_of options request1)
                     (arrive t2 w)
                   ++ [(id_of request1 w, t1); (id_of request2 w, t2)]).
  { set (hook := createRateLimiter config options).
    assert (Hhook1 : hook request1 (arrive t1 w)
                     = createRateLimiter config options request1
                         (arrive t1 w)) by reflexivity.
    assert (Hhook2 : hook request2 (arrive t2 (arrive t1 w))
                     = createRateLimiter config options request2
                         (arrive t2 (arrive t1 w))) by reflexivity.
    unfold createRateLimiter, await in Hhook1, Hhook2.
    fold (window_of config options) (max_of config options)
      (skip_of config options) in Hhook1, Hhook2.
    fold (key_of options request1) in Hhook1.
    fold (key_of options request2) in Hhook2.
    rewrite Hkey in Hhook2.
    set (window_ := window_of config options) in *.
    set (max_ := max_of config options) in *.
    set (key := key_of options request1) in *.
    assert (Hnf' : forall l, fault w l = None) by exact Hnf.
    apply Z.leb_gt in Hroom.
    assert (Hcount : forall R', fst (run (ZCARD key) R')
                                = Z.of_nat (List.length (members R' key)))
      by reflexivity.
    assert (Hheld : members
                      (snd (run (ZREMRANGEBYSCORE key 0 (t2 - window_))
                              (snd (run (ZREMRANGEBYSCORE key 0 (t1 - window_))
                                      (redis w))))) key
                    = live window_ key (arrive t2 w)).
    { cbn [run snd]. rewrite !members_set_same.
      unfold live. cbn [arrive now redis].
      apply filter_narrows. intros m. apply recent_earlier. lia. }
    destruct (skip_of config options).
    all: do 3 eexists.
    all: split;
      [ unfold after, together; cbn [fold_left];
        unfold handle at 10; cbn [world flights app]; rewrite Hhook1;
        cbn [arrive now reply];
        unfold handle at 9; cbn [world flights app]; rewrite Hhook2;
        cbn [arrive now reply];
        unfold handle at 8; turn; rewrite Hnf'; fields;
        unfold handle at 7; turn; rewrite Hnf'; fields;
        unfold handle at 6; turn; rewrite Hnf'; fields;
        rewrite Hcount, Hheld, Hroom; fields;
        change (snd (run (ZCARD key) ?r)) with r;
        unfold handle at 5; turn; rewrite Hnf'; fields;
        rewrite Hcount, Hheld, Hroom; fields;
        change (snd (run (ZCARD key) ?r)) with r;
        fold (id_of request1 w) (id_of request2 w);
        unfold handle at 4; turn; rewrite Hnf'; fields;
        unfold handle at 3; turn; rewrite Hnf'; fields;
        unfold handle at 2; turn; rewrite Hnf'; fields;
        unfold closing at 1, bind, reply_header, toISOString, wrap_send,
          with_reply, ret;
        fields; rewrite Hdate1; fields;
        unfold handle at 1; turn; rewrite Hnf'; fields;
        unfold closing at 1; fields; rewrite Hdate2; fields;
        reflexivity
      | ].
    all: cbn [let_through its_hook its_reply sent fresh_reply redis].
    all: split; [reflexivity |]; split; [reflexivity |].
    all: rewrite members_expire, members_expire.
    all: cbn [run snd]; rewrite !members_set_same.
    all: cbn [run snd] in Hheld; rewrite !members_set_same in Hheld;
      rewrite Hheld.
    all: assert (Hfresh : forall member,
                    ~ In member (map fst (members (redis w) key)) ->
                    filter (fun m => negb (fst m =? member)%string)
                           (live window_ key (arrive t2 w))
                    = live window_ key (arrive t2 w))
      by (intros member Hmember; apply filter_keeps_all; intros m Hm;
          apply negb_true_iff; apply String.eqb_neq; intros Heq;
          apply Hmember; apply filter_In in Hm; destruct Hm as [Hm _];
          rewrite <- Heq; apply in_map; exact Hm).
    all: rewrite (Hfresh _ Hnew1), filter_app, (Hfresh _ Hnew2).
    all: cbn [filter fst].
    all: assert (Hne : (id_of request1 w =? id_of request2 w)%string = false)
      by (apply String.eqb_neq; exact Hids).
    all: rewrite Hne; cbn [negb]; rewrite <- app_assoc; reflexivity. }
  destruct Hstate as (W & f1 & f2 & Hstate & Hf1 & Hf2 & Hmembers).
  rewrite Hstate. cbn [flights world map]. rewrite Hf1, Hf2.
  split; [reflexivity |]. split; [exact Hmembers |].
  rewrite Hmembers, length_app. cbn [List.length]. lia.
Qed.

(** X28, after the first request of the burst, which has left its entry,
    with two requests a second allowed: two requests of the same
    address 50 ms apart, in flight together, both reach their handlers,
    and the key holds three entries. *)
Lemma requests_together_both_pass_witness :
  map let_through
    (flights (after (createRateLimiter the_config tight)
                (together 1700000000200 (numbered "3" "203.0.113.7")
                   1700000000250 (numbered "6" "203.0.113.7"))
                {| world := after_one; flights := [] |}))
  = [true; true]
  /\ members
       (redis (world (after (createRateLimiter the_config tight)
                        (together 1700000000200 (numbered "3" "203.0.113.7")
                           1700000000250 (numbered "6" "203.0.113.7"))
                        {| world := after_one; flights := [] |})))
       (key_of tight (numbered "3" "203.0.113.7"))
     = [("req-1"%string, 1700000000000); ("req-3"%string, 1700000000200);
        ("req-6"%string, 1700000000250)]
  /\ max_of the_config tight = 2.
Proof.
  destruct (requests_together_both_pass the_config tight
              (numbered "3" "203.0.113.7") (numbered "6" "203.0.113.7")
              1700000000200 1700000000250 after_one)
    as (Hboth & Hmembers & _).
  - intros n. reflexivity.
  - reflexivity.
  - vm_compute. discriminate.
  - lia.
  - reflexivity.
  - vm_compute. reflexivity.
  - vm_compute. reflexivity.
  - vm_compute. intros [H | []]. discriminate H.
  - vm_compute. intros [H | []]. discriminate H.
  - vm_compute. reflexivity.
  - split; [exact Hboth |]. split; [| reflexivity].
    rewrite Hmembers. vm_compute. reflexivity.
Defined.

End RateLimiterGuarantees.

(* ================================================================== *)
(** ** Properties of the token service with the global salt *)
(* ================================================================== *)

Section LegacySteps.

Import Legacy LegacyFacts.
Local Open Scope Z_scope.

Variable env : Env.

Local Opaque hashToken.

(** **** Statements and transactions *)

Lemma skipn_all_of {A : Type} (l : list A) : skipn (List.length l) l = [].
Proof. induction l as [| x l IH]; [reflexivity | exact IH]. Qed.

Lemma skipn_appended {A : Type} (l l' : list A) :
  skipn (List.length l) (l ++ l') = l'.
Proof. induction l as [| x l IH]; [reflexivity | exact IH]. Qed.

(** What a statement leaves, whether it fails or not. *)
Lemma legacy_executed {A : Type} (s : Statement) (run : Db -> A * Db)
    (w : World) :
  issued (snd (execute s run w))
  = issued w ++ [{| stmt := s;
                    failed := fault w (List.length (issued w)) |}]
  /\ log (snd (execute s run w)) = log w
  /\ fault (snd (execute s run w)) = fault w.
Proof.
  unfold execute. destruct (fault w (List.length (issued w))).
  - repeat split.
  - destruct (run (db w)). repeat split.
Qed.

(** A transaction whose callback throws is rolled back. *)
Lemma legacy_transaction_rolls_back {A : Type} (body : Eff World A)
    (w w2 : World) (e : JsError) :
  fault w (List.length (issued w)) = None ->
  body (record_statement BEGIN None w) = (Throw e, w2) ->
  exists w',
    transaction body w = (Throw e, w')
    /\ db w' = db w /\ log w' = log w2
    /\ issued w'
       = issued w2 ++ [{| stmt := ROLLBACK;
                          failed := fault w2 (List.length (issued w2)) |}].
Proof.
  intros Hbegin Hbody. unfold transaction. unfold execute at 1.
  rewrite Hbegin. cbv beta iota zeta.
  change (with_db (db w) (record_statement BEGIN None w))
    with (record_statement BEGIN None w).
  rewrite Hbody.
  destruct (legacy_executed ROLLBACK (fun d => (tt, d)) w2)
    as (Hissued & Hlog & _).
  eexists. split; [reflexivity |].
  cbn [with_db db log issued]. split; [reflexivity |].
  split; [exact Hlog | exact Hissued].
Qed.

(** **** A redemption *)

(** The callback of the transaction always throws. *)
Lemma legacy_body_throws (tokenHash : list byte) (agentId : string)
    (metadata : RiskEngine.Metadata) (w : World) :
  exists (e : JsError) (w2 : World) (sent_ : list (Issued Statement)),
    redeem_in_transaction tokenHash agentId metadata w = (Throw e, w2)
    /\ log w2 = log w
    /\ fault w2 = fault w
    /\ issued w2 = issued w ++ sent_
    /\ ~ In COMMIT (map stmt sent_)
    /\ ~ In ROLLBACK (map stmt sent_)
    /\ (no_faults w ->
        (exists l, e = not_a_function l)
        /\ exists writes,
             map stmt sent_ = SelectByHashForUpdate tokenHash :: writes
             /\ forallb is_write writes = true).
Proof.
  unfold redeem_in_transaction, select_by_hash.
  unfold bind at 1. unfold execute at 1.
  destruct (fault w (List.length (issued w))) as [e0 |] eqn:Hselect.
  { do 3 eexists. split; [reflexivity |].
    cbn [record_statement log fault issued map stmt].
    repeat (split; [first [reflexivity | intros [H | []]; discriminate H] |]).
    intros Hnf. rewrite Hnf in Hselect. discriminate Hselect. }
  cbv beta iota zeta.
  set (w1 := with_db (db w)
               (record_statement (SelectByHashForUpdate tokenHash) None w)).
  assert (Hlog1 : log w1 = log w) by reflexivity.
  assert (Hfault1 : fault w1 = fault w) by reflexivity.
  assert (Hissued1 : issued w1
                     = issued w
                       ++ [{| stmt := SelectByHashForUpdate tokenHash;
                              failed := None |}]) by reflexivity.
  assert (Hlogger : forall (l : Level) (m : string) (A : Type)
                           (k : unit -> Eff World A) (w' : World),
             bind (logger l m) k w' = (Throw (not_a_function l), w'))
    by reflexivity.
  destruct (find _ (tokens (db w))) as [t |].
  2: { rewrite Hlogger. do 3 eexists.
       split; [reflexivity |]. split; [exact Hlog1 |].
       split; [exact Hfault1 |]. split; [exact Hissued1 |].
       cbn [app map stmt].
       split; [intros [H | []]; discriminate H |].
       split; [intros [H | []]; discriminate H |].
       intros _. split; [eexists; reflexivity |].
       exists []. split; reflexivity. }
  destruct (status t =? "USED")%string.
  { rewrite Hlogger. do 3 eexists.
    split; [reflexivity |]. split; [exact Hlog1 |].
    split; [exact Hfault1 |]. split; [exact Hissued1 |].
    cbn [app map stmt].
    split; [intros [H | []]; discriminate H |].
    split; [intros [H | []]; discriminate H |].
    intros _. split; [eexists; reflexivity |].
    exists []. split; reflexivity. }
  clear Hlog1 Hfault1 Hissued1. subst w1.
  unfold with_db, record_statement.
  cbn [fault issued db clock clock_reads random random_draws log].
  unfold bind at 1.
  destruct (status t =? "EXPIRED")%string.
  { unfold ret at 1. cbv beta iota. rewrite Hlogger.
    do 3 eexists.
    split; [reflexivity |]. split; [reflexivity |].
    split; [reflexivity |]. split; [reflexivity |].
    cbn [app map stmt].
    split; [intros [H | []]; discriminate H |].
    split; [intros [H | []]; discriminate H |].
    intros _. split; [eexists; reflexivity |].
    exists []. split; reflexivity. }
  unfold bind at 1, new_Date at 1, ret at 1. cbv beta iota.
  cbn [fault issued db clock clock_reads random random_draws log].
  destruct (expires_at t <=? clock w (clock_reads w)).
  { rewrite Hlogger. do 3 eexists.
    split; [reflexivity |]. split; [reflexivity |].
    split; [reflexivity |]. split; [reflexivity |].
    cbn [app map stmt].
    split; [intros [H | []]; discriminate H |].
    split; [intros [H | []]; discriminate H |].
    intros _. split; [eexists; reflexivity |].
    exists []. split; reflexivity. }
  unfold bind at 1, new_Date at 1. cbv beta iota.
  unfold bind at 1, update_used, execute at 1.
  cbn [fault issued db clock clock_reads random random_draws log with_db
       record_statement].
  destruct (fault w (List.length (issued w ++ [_]))) as [e1 |] eqn:Hupdate.
  { do 3 eexists.
    split; [reflexivity |].
    unfold record_statement, with_db; cbn [log fault issued].
    split; [reflexivity |]. split; [reflexivity |].
    split; [rewrite <- app_assoc; reflexivity |].
    cbn [app map stmt].
    split; [intros [H | [H | []]]; discriminate H |].
    split; [intros [H | [H | []]]; discriminate H |].
    intros Hnf. rewrite Hnf in Hupdate. discriminate Hupdate. }
  cbv beta iota zeta.
  unfold bind at 1, insert_transaction, execute at 1.
  cbn [fault issued db clock clock_reads random random_draws log with_db
       record_statement].
  destruct (fault w (List.length ((issued w ++ [_]) ++ [_]))) as [e2 |]
    eqn:Hledger.
  { do 3 eexists.
    split; [reflexivity |].
    unfold record_statement, with_db; cbn [log fault issued].
    split; [reflexivity |]. split; [reflexivity |].
    split; [rewrite <- !app_assoc; reflexivity |].
    cbn [app map stmt].
    split; [intros [H | [H | [H | []]]]; discriminate H |].
    split; [intros [H | [H | [H | []]]]; discriminate H |].
    intros Hnf. rewrite Hnf in Hledger. discriminate Hledger. }
  cbv beta iota zeta.
  unfold bind at 1, insert_attempt, execute at 1.
  cbn [fault issued db clock clock_reads random random_draws log with_db
       record_statement].
  destruct (fault w (List.length (((issued w ++ [_]) ++ [_]) ++ [_])))
    as [e3 |] eqn:Hattempt.
  { do 3 eexists.
    split; [reflexivity |].
    unfold record_statement, with_db; cbn [log fault issued].
    split; [reflexivity |]. split; [reflexivity |].
    split; [rewrite <- !app_assoc; reflexivity |].
    cbn [app map stmt].
    split; [intros [H | [H | [H | [H | []]]]]; discriminate H |].
    split; [intros [H | [H | [H | [H | []]]]]; discriminate H |].
    intros Hnf. rewrite Hnf in Hattempt. discriminate Hattempt. }
  cbv beta iota zeta. rewrite Hlogger.
  do 3 eexists.
  split; [reflexivity |].
    unfold record_statement, with_db; cbn [log fault issued].
  split; [reflexivity |]. split; [reflexivity |].
  split; [rewrite <- !app_assoc; reflexivity |].
  cbn [app map stmt].
  split; [intros [H | [H | [H | [H | []]]]]; discriminate H |].
  split; [intros [H | [H | [H | [H | []]]]]; discriminate H |].
  intros _. split; [eexists; reflexivity |].
  eexists. split; reflexivity.
Qed.

(** What [redeemWithdrawalToken] does, whatever the database does. *)
Lemma legacy_redeem_throws (plaintextToken agentId : string)
    (metadata : RiskEngine.Metadata) (w : World) :
  exists (e : JsError) (w' : World),
    redeemWithdrawalToken env plaintextToken agentId metadata w
    = (Throw e, w')
    /\ db w' = db w /\ log w' = log w
    /\ ~ In COMMIT (statements_since w w')
    /\ (plaintextToken <> ""%string -> agentId <> ""%string ->
        no_faults w ->
        (exists l, e = not_a_function l)
        /\ exists writes,
             statements_since w w'
             = [BEGIN; SelectByHashForUpdate (hashToken env plaintextToken)]
               ++ writes ++ [ROLLBACK]
             /\ forallb is_write writes = true).
Proof.
  unfold redeemWithdrawalToken, statements_since.
  destruct (String.eqb_spec plaintextToken "") as [Htoken | Htoken];
    [| destruct (String.eqb_spec agentId "") as [Hagent | Hagent]];
    cbn [orb].
  1, 2: exists missing_parameters, w; split; [reflexivity |];
    split; [reflexivity |]; split; [reflexivity |];
    rewrite skipn_all_of; split; [intros [] |];
    intros H1 H2; congruence.
  destruct (fault w (List.length (issued w))) as [e0 |] eqn:Hbegin.
  - unfold transaction. unfold execute at 1. rewrite Hbegin.
    do 2 eexists. split; [reflexivity |].
    unfold record_statement. cbn [db log issued].
    split; [reflexivity |]. split; [reflexivity |].
    rewrite skipn_appended. cbn [map stmt].
    split; [intros [H | []]; discriminate H |].
    intros _ _ Hnf. rewrite Hnf in Hbegin. discriminate Hbegin.
  - destruct (legacy_body_throws (hashToken env plaintextToken) agentId
                metadata (record_statement BEGIN None w))
      as (e & w2 & sent_ & Hbody & Hlog & Hfault & Hissued & Hcommit
          & Hrollback & Hnofault).
    destruct (legacy_transaction_rolls_back _ w w2 e Hbegin Hbody)
      as (w' & Hrun & Hdb & Hlog' & Hissued').
    exists e, w'. split; [exact Hrun |]. split; [exact Hdb |].
    split; [rewrite Hlog', Hlog; reflexivity |].
    rewrite Hissued', Hissued. cbn [record_statement issued].
    rewrite <- !app_assoc, skipn_appended.
    cbn [app map stmt]. rewrite map_app. cbn [map stmt].
    split.
    + intros [H | H]; [discriminate H |].
      apply in_app_or in H. destruct H as [H | [H | []]];
        [exact (Hcommit H) | discriminate H].
    + intros _ _ Hnf.
      destruct (Hnofault Hnf) as (Hl & writes & Hsent & Hwrites).
      split; [exact Hl |]. exists writes.
      rewrite Hsent. split; [reflexivity | exact Hwrites].
Qed.

Lemma legacy_randomBytes_runs (size : nat) :
  forall w : World,
    exists w',
      randomBytes size w
      = (Return (drawn_bytes (random w) (random_draws w) size), w')
      /\ db w' = db w /\ issued w' = issued w /\ fault w' = fault w
      /\ clock w' = clock w /\ clock_reads w' = clock_reads w
      /\ random w' = random w /\ log w' = log w.
Proof.
  induction size as [| size IH]; intros w.
  - exists w. repeat split.
  - cbn [randomBytes drawn_bytes]. unfold bind, randomByte.
    cbv beta iota.
    match goal with
    | |- context [randomBytes size ?w1] =>
        destruct (IH w1)
          as (w' & Hrun & Hdb & Hissued & Hfault & Hclock & Hreads & Hrandom
              & Hlog)
    end.
    exists w'. rewrite Hrun. unfold ret.
    cbn [db issued fault clock clock_reads random random_draws log] in *.
    split; [reflexivity |]. repeat split; assumption.
Qed.

(** What [generateWithdrawalToken] does, whatever the database does. *)
Lemma legacy_mint_throws (accountId : string) (amount_ : Z) (w : World) :
  exists (e : JsError) (w' : World),
    generateWithdrawalToken env accountId amount_ w = (Throw e, w')
    /\ log w' = log w
    /\ transactions (db w') = transactions (db w)
    /\ redemption_attempts (db w') = redemption_attempts (db w)
    /\ match validateGenerationParams env accountId amount_ with
       | Some _ =>
           e = not_a_function warn /\ db w' = db w
           /\ statements_since w w' = []
       | None =>
           e = not_a_function error
           /\ statements_since w w'
              = [InsertToken (token_hash (minted_row env accountId amount_ w))]
           /\ match fault w (List.length (issued w)) with
              | Some _ => db w' = db w
              | None =>
                  tokens (db w')
                  = tokens (db w) ++ [minted_row env accountId amount_ w]
              end
       end.
Proof.
  unfold generateWithdrawalToken, statements_since.
  destruct (validateGenerationParams env accountId amount_) as [m |].
  { exists (not_a_function warn), w. split; [reflexivity |].
    repeat (split; [reflexivity |]). rewrite skipn_all_of. reflexivity. }
  unfold try_catch, generateRandomToken, bind. cbv beta iota.
  destruct (legacy_randomBytes_runs 8 w)
    as (w1 & Hrun & Hdb & Hissued & Hfault & Hclock & Hreads & Hrandom & Hlog).
  rewrite Hrun.
  unfold new_Date, insert_token, execute, logger, throw, ret.
  cbn [db issued fault clock clock_reads random random_draws log with_db
       record_statement fst snd].
  rewrite Hfault, Hissued.
  destruct (fault w (List.length (issued w))) as [e0 |].
  - do 2 eexists. split; [reflexivity |].
    unfold record_statement, with_db. cbn [db log issued].
    rewrite Hdb, Hlog, skipn_appended.
    repeat (split; [reflexivity |]). reflexivity.
  - do 2 eexists. split; [reflexivity |].
    unfold record_statement, with_db.
    cbn [db log issued tokens transactions redemption_attempts].
    rewrite Hdb, Hlog, Hclock, Hreads, skipn_appended.
    repeat (split; [reflexivity |]). reflexivity.
Qed.

(** **** Histories *)

Lemma legacy_call_step (c : Call) (w : World) :
  has_failed (fst (call env c w)) = true
  /\ transactions (db (snd (call env c w))) = transactions (db w)
  /\ redemption_attempts (db (snd (call env c w)))
     = redemption_attempts (db w)
  /\ exists added,
       tokens (db (snd (call env c w))) = tokens (db w) ++ added
       /\ Forall (fun t => status t = "ACTIVE"%string /\ used_at t = None)
                 added
       /\ (List.length added <= if is_mint c then 1 else 0)%nat.
Proof.
  destruct c as [accountId amount_ | plaintextToken agentId metadata];
    unfold call.
  - destruct (legacy_mint_throws accountId amount_ w)
      as (e & w' & Hrun & _ & Hledger & Hattempts & Hcases).
    rewrite Hrun. cbn [fst snd has_failed is_mint].
    split; [reflexivity |]. split; [exact Hledger |].
    split; [exact Hattempts |].
    destruct (validateGenerationParams env accountId amount_).
    + destruct Hcases as (_ & Hdb & _). exists [].
      rewrite Hdb, app_nil_r. split; [reflexivity |].
      split; [constructor | cbn; lia].
    + destruct Hcases as (_ & _ & Hdb).
      destruct (fault w (List.length (issued w))).
      * exists []. rewrite Hdb, app_nil_r. split; [reflexivity |].
        split; [constructor | cbn; lia].
      * exists [minted_row env accountId amount_ w].
        split; [exact Hdb |].
        split; [constructor; [split; reflexivity | constructor] |].
        cbn. lia.
  - destruct (legacy_redeem_throws plaintextToken agentId metadata w)
      as (e & w' & Hrun & Hdb & _).
    rewrite Hrun. cbn [fst snd has_failed is_mint]. rewrite Hdb.
    split; [reflexivity |]. split; [reflexivity |]. split; [reflexivity |].
    exists []. rewrite app_nil_r. split; [reflexivity |].
    split; [constructor | cbn; lia].
Qed.

(** **** The alphabet *)

Lemma pick_in_charset (b : nat) :
  exists c, String.get (Nat.modulo b (String.length charset)) charset = Some c
            /\ in_charset c = true /\ Ascii.eqb c TokenService.dash = false.
Proof.
  assert (H : (Nat.modulo b (String.length charset) < 58)%nat)
    by (apply Nat.mod_upper_bound; discriminate).
  revert H. generalize (Nat.modulo b (String.length charset)). intros i Hi.
  do 58 (destruct i as [| i];
         [eexists; split; [reflexivity | split; reflexivity] |]).
  lia.
Qed.

Lemma legacy_token_shape (bytes : list nat) :
  String.length (fold_right pick ""%string bytes) = List.length bytes
  /\ forallb in_charset
       (list_ascii_of_string (fold_right pick ""%string bytes)) = true
  /\ TokenService.includes_dash (fold_right pick ""%string bytes) = false.
Proof.
  induction bytes as [| b bytes (IH1 & IH2 & IH3)];
    [repeat split |].
  cbn [fold_right List.length]. unfold pick at 1 3 5.
  destruct (pick_in_charset b) as (c & -> & Hc & Hd).
  cbn [String.length list_ascii_of_string forallb
       TokenService.includes_dash].
  rewrite IH1, IH2, IH3, Hc, Hd. repeat split.
Qed.

Lemma drawn_bytes_length (rnd : nat -> nat) (len pos : nat) :
  List.length (drawn_bytes rnd pos len) = len.
Proof.
  revert pos. induction len as [| len IH]; intros pos; [reflexivity |].
  cbn. rewrite IH. reflexivity.
Qed.

End LegacySteps.

Section LegacyGuarantees.

Import Legacy LegacyFacts.
Local Open Scope Z_scope.

Local Opaque hashToken.

(** **** No redemption answers *)


(** **** A minting stores its row and throws *)

(** X24. [generateWithdrawalToken] throws for every account and amount: on
    parameters that the schema refuses, the TypeError of [logger.warn]
    before anything is sent, in place of the error of the validation;
    otherwise, after the insert, the TypeError of [logger.error], which
    the [catch] block calls on the failure of the insert or on the
    TypeError of [logger.info]. When the insert has not failed the row
    is stored, ACTIVE, under the hash of a token that the caller never
    gets: the insert is in no transaction and nothing takes it back. No
    line is written, and the ledger and the attempts are left as they
    were. *)
Theorem legacy_mint_never_answers (env : Env) (accountId : string)
    (amount_ : Z) (w : World) :
  exists (e : JsError) (w' : World),
    generateWithdrawalToken env accountId amount_ w = (Throw e, w')
    /\ log w' = log w
    /\ transactions (db w') = transactions (db w)
    /\ redemption_attempts (db w') = redemption_attempts (db w)
    /\ match validateGenerationParams env accountId amount_ with
       | Some _ =>
           e = not_a_function warn /\ db w' = db w
           /\ statements_since w w' = []
       | None =>
           e = not_a_function error
           /\ statements_since w w'
              = [InsertToken (token_hash (minted_row env accountId amount_ w))]
           /\ match fault w (List.length (issued w)) with
              | Some _ => db w' = db w
              | None =>
                  tokens (db w')
                  = tokens (db w) ++ [minted_row env accountId amount_ w]
              end
       end.
Proof. apply legacy_mint_throws. Qed.

(** **** Histories *)

(** X23. Whatever calls of [generateWithdrawalToken] and
    [redeemWithdrawalToken] are made, in any order, with any faults of
    the database, clock and random bytes: every call throws, the ledger
    and the attempts stay as they were at the start, no row of
    [tokens] that was there is changed, and the rows that are added, at
    most one for each minting, are ACTIVE and never used. No token is
    ever redeemed by this service. *)
Theorem legacy_never_pays_out (env : Env) (calls : list Call) (w : World) :
  forallb has_failed (fst (replay env calls w)) = true
  /\ List.length (fst (replay env calls w)) = List.length calls
  /\ transactions (db (snd (replay env calls w))) = transactions (db w)
  /\ redemption_attempts (db (snd (replay env calls w)))
     = redemption_attempts (db w)
  /\ exists added,
       tokens (db (snd (replay env calls w))) = tokens (db w) ++ added
       /\ Forall (fun t => status t = "ACTIVE"%string /\ used_at t = None)
                 added
       /\ (List.length added <= List.length (filter is_mint calls))%nat.
Proof.
  revert w. induction calls as [| c rest IH]; intros w.
  - cbn. repeat (split; [reflexivity |]). exists [].
    rewrite app_nil_r. split; [reflexivity |].
    split; [apply Forall_nil | cbn; lia].
  - cbn [replay].
    destruct (legacy_call_step env c w)
      as (Hfailed & Hledger & Hattempts & added & Htokens & Hactive & Hlen).
    destruct (call env c w) as [a w1]. cbn [fst snd] in *.
    destruct (IH w1)
      as (Hall & Hcount & Hledger' & Hattempts' & added' & Htokens'
          & Hactive' & Hlen').
    destruct (replay env rest w1) as [answers w2]. cbn [fst snd] in *.
    cbn [forallb List.length]. rewrite Hfailed, Hall, Hcount.
    split; [reflexivity |]. split; [reflexivity |].
    split; [congruence |]. split; [congruence |].
    exists (added ++ added'). rewrite Htokens', Htokens, app_assoc.
    split; [reflexivity |].
    split; [apply Forall_app; split; assumption |].
    rewrite length_app. cbn [filter].
    destruct (is_mint c); cbn [List.length]; lia.
Qed.

(** **** The tokens of the service *)

(** X25. [generateRandomToken(length)] draws [length] bytes and returns a
    string of [length] characters of the 58-character alphabet, so one
    with no dash. The characters are not equally likely: each of the
    first 24 characters of the alphabet is the image of five of the 256
    bytes, each of the other 34 of four. *)
Theorem legacy_tokens_are_biased (length i : nat) (w : World) :
  (i < String.length charset)%nat ->
  (exists w',
      generateRandomToken length w
      = (Return (fold_right pick ""%string
                   (drawn_bytes (random w) (random_draws w) length)), w')
      /\ db w' = db w /\ issued w' = issued w)
  /\ String.length (fold_right pick ""%string
                      (drawn_bytes (random w) (random_draws w) length))
     = length
  /\ forallb in_charset
       (list_ascii_of_string
          (fold_right pick ""%string
             (drawn_bytes (random w) (random_draws w) length))) = true
  /\ TokenService.includes_dash
       (fold_right pick ""%string
          (drawn_bytes (random w) (random_draws w) length)) = false
  /\ List.length (preimages i) = (if Nat.ltb i 24 then 5 else 4)%nat.
Proof.
  intros Hi.
  destruct (legacy_token_shape
              (drawn_bytes (random w) (random_draws w) length))
    as (Hlen & Hall & Hdash).
  rewrite drawn_bytes_length in Hlen.
  split.
  { unfold generateRandomToken, bind.
    destruct (legacy_randomBytes_runs length w)
      as (w' & Hrun & Hdb & Hissued & _).
    rewrite Hrun. exists w'. split; [reflexivity |].
    split; assumption. }
  split; [exact Hlen |]. split; [exact Hall |]. split; [exact Hdash |].
  assert (Hall58 : forallb
                     (fun j => Nat.eqb (List.length (preimages j))
                                 (if Nat.ltb j 24 then 5 else 4))
                     (seq 0 58) = true)
    by (vm_compute; reflexivity).
  rewrite forallb_forall in Hall58.
  apply Nat.eqb_eq. apply Hall58. apply in_seq.
  change (String.length charset) with 58%nat in Hi. lia.
Qed.

(** X25, on the token of the scenario and the character Q, the last of the
    likelier ones. *)
Lemma legacy_tokens_are_biased_witness :
  (exists w',
      generateRandomToken 8 w0
      = (Return (fold_right pick ""%string
                   (drawn_bytes (random w0) (random_draws w0) 8)), w')
      /\ db w' = db w0 /\ issued w' = issued w0)
  /\ String.length (fold_right pick ""%string
                      (drawn_bytes (random w0) (random_draws w0) 8))
     = 8%nat
  /\ forallb in_charset
       (list_ascii_of_string
          (fold_right pick ""%string
             (drawn_bytes (random w0) (random_draws w0) 8))) = true
  /\ TokenService.includes_dash
       (fold_right pick ""%string
          (drawn_bytes (random w0) (random_draws w0) 8)) = false
  /\ List.length (preimages 23) = (if Nat.ltb 23 24 then 5 else 4)%nat.
Proof.
  apply (legacy_tokens_are_biased 8 23 w0).
  vm_compute. lia.
Defined.

End LegacyGuarantees.

(* ================================================================== *)
(** ** Properties of the risk context *)
(* ================================================================== *)

Section RiskContextSteps.

Import TokenService RiskContext.
Local Open Scope Z_scope.

Lemma query_returns {A : Type} (q : Query) (answer : Db -> Stamps -> A)
    (w w' : World) (a : A) :
  query q answer w = (Return a, w') ->
  a = answer (db w) (stamps w)
  /\ db w' = db w /\ stamps w' = stamps w
  /\ issued w' = issued w ++ [{| stmt := q; failed := None |}].
Proof.
  unfold query. destruct (fault w _); [discriminate |].
  intros H. inversion H; subst. repeat split.
Qed.

(** What a context that was returned holds, and what was sent for it. *)
Lemma context_returned (env : Env) (accountId agentId : string)
    (currentAmount : float) (w w' : World) (context : RiskEngine.Context) :
  getRiskContext env accountId agentId currentAmount w = (Return context, w') ->
  let instant := clock w (clock_reads w) in
  context
  = {| RiskEngine.velocity10m :=
         Js.float_of_Z
           (Z.of_nat (recent_tokens accountId (instant - 10 * 60 * 1000)
                        (db w) (stamps w)));
       RiskEngine.avgAmount :=
         match withdrawn_amounts accountId (db w) (stamps w) with
         | [] => Js.float_of_Z 0
         | _ => parsed_average env
                  (withdrawn_amounts accountId (db w) (stamps w))
         end;
       RiskEngine.failedAttempts24h :=
         Js.float_of_Z
           (Z.of_nat (failed_attempts accountId (instant - 24 * 60 * 60 * 1000)
                        (db w) (stamps w)));
       RiskEngine.lastIp :=
         match last_success accountId (db w) (stamps w) with
         | Some ra => RiskEngine.ip (ra_metadata ra)
         | None => None
         end;
       RiskEngine.currentAmount := currentAmount |}
  /\ db w' = db w
  /\ map stmt (skipn (List.length (issued w)) (issued w'))
     = [CountRecentTokens accountId (instant - 10 * 60 * 1000);
        AverageAmount accountId;
        CountFailedAttempts accountId (instant - 24 * 60 * 60 * 1000);
        LastSuccessAttempt accountId].
Proof.
  intros H instant. unfold getRiskContext in H.
  apply bind_returns in H. destruct H as (now' & w1 & Hnow & H).
  inversion Hnow; subst now' w1; clear Hnow. fold instant in H.
  apply bind_returns in H. destruct H as (n1 & w2 & Hq1 & H).
  apply query_returns in Hq1. destruct Hq1 as (-> & Hd1 & Hs1 & Hi1).
  apply bind_returns in H. destruct H as (amounts & w3 & Hq2 & H).
  apply query_returns in Hq2. destruct Hq2 as (-> & Hd2 & Hs2 & Hi2).
  apply bind_returns in H. destruct H as (n3 & w4 & Hq3 & H).
  apply query_returns in Hq3. destruct Hq3 as (-> & Hd3 & Hs3 & Hi3).
  apply bind_returns in H. destruct H as (found & w5 & Hq4 & H).
  apply query_returns in Hq4. destruct Hq4 as (-> & Hd4 & Hs4 & Hi4).
  inversion H; subst; clear H.
  rewrite Hd4, Hd3, Hd2, Hd1, Hs3, Hs2, Hs1. cbn [db stamps].
  split; [reflexivity |]. split; [reflexivity |].
  rewrite Hi4, Hi3, Hi2, Hi1. cbn [issued].
  rewrite <- !app_assoc, skipn_exact. reflexivity.
Qed.

Lemma joined_attempts (d : Db) (accountId : string)
    (x : nat * RedemptionAttempt) :
  In x (joined d accountId) ->
  In (snd x) (redemption_attempts d)
  /\ exists t, In t (tokens d) /\ id t = ra_token_id (snd x)
               /\ account_id t = accountId.
Proof.
  unfold joined, ranked. intros H. apply in_flat_map in H.
  destruct H as (ra & Hra & Hx). apply in_map_iff in Hx.
  destruct Hx as (t & <- & Ht). apply filter_In in Ht.
  destruct Ht as [Ht Hcond]. apply andb_prop in Hcond.
  destruct Hcond as [Hid Hacc].
  split.
  - destruct ra as [n r]. apply in_combine_r in Hra. exact Hra.
  - exists t. split; [exact Ht |].
    split; [apply Pos.eqb_eq; exact Hid | apply String.eqb_eq; exact Hacc].
Qed.

Lemma filter_drops_all {A : Type} (f : A -> bool) (l : list A) :
  (forall x, In x l -> f x = false) -> filter f l = [].
Proof.
  induction l as [| x l IH]; intros H; cbn; [reflexivity |].
  rewrite (H x (or_introl eq_refl)). apply IH.
  intros y Hy. apply H. right. exact Hy.
Qed.

Lemma no_failed_attempts (d : Db) (s : Stamps) (accountId : string)
    (since : Z) :
  Forall succeeded (redemption_attempts d) ->
  failed_attempts accountId since d s = 0%nat.
Proof.
  intros Hall. unfold failed_attempts.
  rewrite filter_drops_all; [reflexivity |].
  intros x Hx. apply joined_attempts in Hx. destruct Hx as [Hin _].
  rewrite Forall_forall in Hall. rewrite (Hall _ Hin). reflexivity.
Qed.

Lemma no_tokens_no_join (d : Db) (accountId : string) :
  Forall (fun t => account_id t <> accountId) (tokens d) ->
  joined d accountId = [].
Proof.
  intros Hnone. destruct (joined d accountId) as [| x l] eqn:E;
    [reflexivity |].
  assert (Hx : In x (joined d accountId)) by (rewrite E; left; reflexivity).
  apply joined_attempts in Hx. destruct Hx as (_ & t & Ht & _ & Hacc).
  rewrite Forall_forall in Hnone. contradiction (Hnone t Ht Hacc).
Qed.

(** **** The attempts that the service records *)

Lemma attempts_succeeded_step (env : TokenService.Env) (c : History.Call)
    (w w1 : TokenService.World) (a : History.Answer) :
  Forall succeeded (redemption_attempts (TokenService.db w)) ->
  History.call env c w = (a, w1) ->
  Forall succeeded (redemption_attempts (TokenService.db w1)).
Proof.
  intros Hall.
  destruct c as [accountId amount_ | fullToken agentId metadata];
    cbn [History.call].
  - destruct (generateWithdrawalToken env accountId amount_ w)
      as [o w2] eqn:Hmint.
    apply mint_effect in Hmint.
    assert (Hsame : redemption_attempts (TokenService.db w2)
                    = redemption_attempts (TokenService.db w)).
    { destruct Hmint as [(-> & _) | (k & w0 & _ & _ & _ & -> & _)];
        reflexivity. }
    destruct o; intros H; inversion H; subst; rewrite Hsame; exact Hall.
  - destruct (redeemWithdrawalToken env fullToken agentId metadata w)
      as [o w2] eqn:Hredeem.
    apply redeem_db_cases in Hredeem.
    assert (Hnext : Forall succeeded
                      (redemption_attempts (TokenService.db w2))).
    { destruct Hredeem as [(-> & _)
                          | (p & c & t & _ & _ & _ & _ & _ & _ & _ & ->)];
        [exact Hall |].
      cbn [redeemed redemption_attempts]. apply Forall_app.
      split; [exact Hall |]. constructor; [reflexivity | constructor]. }
    destruct o; intros H; inversion H; subst; exact Hnext.
Qed.

Lemma attempts_succeeded (env : TokenService.Env)
    (calls : list History.Call) :
  forall (w w' : TokenService.World) (answers : list History.Answer),
    Forall succeeded (redemption_attempts (TokenService.db w)) ->
    History.replay env calls w = (answers, w') ->
    Forall succeeded (redemption_attempts (TokenService.db w')).
Proof.
  induction calls as [| c rest IH]; intros w w' answers Hall;
    cbn [History.replay].
  - intros H. inversion H; subst. exact Hall.
  - destruct (History.call env c w) as [a w1] eqn:Hcall.
    destruct (History.replay env rest w1) as [answers' w2] eqn:Hrun.
    intros H. inversion H; subst.
    apply (IH w1 w' answers'); [| exact Hrun].
    exact (attempts_succeeded_step env c w w1 a Hall Hcall).
Qed.

(** The reasons of an evaluation on a context without failed
    attempts. *)
Lemma no_abuse_reason (context : RiskEngine.Context)
    (metadata : RiskEngine.Metadata) :
  RiskEngine.failedAttempts24h context = 0%float ->
  forallb (fun r => negb (abuse_reason r))
    (RiskEngine.reasons (RiskEngine.evaluateRedemption context metadata))
  = true.
Proof.
  intros Hzero.
  unfold RiskEngine.evaluateRedemption, RiskEngine.raw_signals,
    RiskEngine.ip_signal, RiskEngine.abuse_signal,
    RiskEngine.behavior_signal, RiskEngine.velocity_signal,
    RiskEngine.reasons.
  rewrite Hzero.
  change (5 <? 0)%float with false. change (2 <? 0)%float with false.
  destruct (3 <? RiskEngine.velocity10m context)%float;
    [| destruct (1 <? RiskEngine.velocity10m context)%float];
  (destruct (0 <? RiskEngine.avgAmount context)%float;
    [ destruct (2.0 <? RiskEngine.deviation_of context)%float;
      [| destruct (1.0 <? RiskEngine.deviation_of context)%float] |]);
  destruct (RiskEngine.ip_mismatch context metadata); reflexivity.
Qed.

End RiskContextSteps.

Section RiskContextGuarantees.

Import TokenService RiskContext.
Local Open Scope Z_scope.

(** **** The failed attempts are never counted *)

(** X26. [redeemWithdrawalToken] records an attempt only when it succeeds.
    So after any history of mintings and redemptions, on a table of
    attempts that held successful ones only, the context that
    [getRiskContext] returns, for any account, at any instant and
    whatever the instants of creation of the rows, counts no failed
    attempt: [failedAttempts24h] is 0, and the evaluation of that
    context never gives a reason about failed attempts. The gathering
    of the context has sent its four queries and left the database as
    it was. *)
Theorem failed_attempts_are_never_counted (env : TokenService.Env)
    (cenv : Env) (calls : list History.Call)
    (w w' : TokenService.World) (answers : list History.Answer)
    (rw rw' : World) (accountId agentId : string) (currentAmount : float)
    (context : RiskEngine.Context) (metadata : RiskEngine.Metadata) :
  Forall succeeded (redemption_attempts (TokenService.db w)) ->
  History.replay env calls w = (answers, w') ->
  db rw = TokenService.db w' ->
  getRiskContext cenv accountId agentId currentAmount rw
  = (Return context, rw') ->
  RiskEngine.failedAttempts24h context = 0%float
  /\ forallb (fun r => negb (abuse_reason r))
       (RiskEngine.reasons (RiskEngine.evaluateRedemption context metadata))
     = true
  /\ db rw' = db rw
  /\ List.length (issued rw') = (4 + List.length (issued rw))%nat.
Proof.
  intros Hall Hreplay Hdb Hcontext.
  pose proof (attempts_succeeded env calls w w' answers Hall Hreplay)
    as Hall'.
  rewrite <- Hdb in Hall'.
  destruct (context_returned _ _ _ _ _ _ _ Hcontext) as (Hc & Hsame & Hsent).
  assert (Hzero : RiskEngine.failedAttempts24h context = 0%float).
  { rewrite Hc. cbn [RiskEngine.failedAttempts24h].
    rewrite (no_failed_attempts _ _ _ _ Hall'). reflexivity. }
  split; [exact Hzero |].
  split; [apply no_abuse_reason; exact Hzero |].
  split; [exact Hsame |].
  apply (f_equal (@List.length _)) in Hsent.
  rewrite length_map, length_skipn in Hsent. cbn [List.length] in Hsent.
  lia.
Qed.

(** X26, on the history of the scenario. *)
Lemma failed_attempts_are_never_counted_witness :
  RiskEngine.failedAttempts24h
    (match fst (getRiskContext env0 Scenario.account "atm-1" 500
                  after_history) with
     | Return c => c
     | Throw _ => Explain.unknown
     end) = 0%float
  /\ forallb (fun r => negb (abuse_reason r))
       (RiskEngine.reasons
          (RiskEngine.evaluateRedemption
             (match fst (getRiskContext env0 Scenario.account "atm-1" 500
                           after_history) with
              | Return c => c
              | Throw _ => Explain.unknown
              end) RiskEngine.no_metadata))
     = true
  /\ db (snd (getRiskContext env0 Scenario.account "atm-1" 500
                after_history)) = db after_history
  /\ List.length (issued (snd (getRiskContext env0 Scenario.account "atm-1"
                                 500 after_history)))
     = (4 + List.length (issued after_history))%nat.
Proof.
  apply (failed_attempts_are_never_counted Scenario.env0 env0
           Episodes.history0 Scenario.w0
           (snd (History.replay Scenario.env0 Episodes.history0 Scenario.w0))
           (fst (History.replay Scenario.env0 Episodes.history0 Scenario.w0))
           after_history
           (snd (getRiskContext env0 Scenario.account "atm-1" 500
                   after_history))
           Scenario.account "atm-1" 500).
  - constructor.
  - vm_compute. reflexivity.
  - reflexivity.
  - vm_compute. reflexivity.
Defined.

(** **** A first withdrawal *)

(** X27. For an account that has no token and no ledger entry, the context
    gathered holds no signal: no recent token, an average of 0, no
    failed attempt, no last IP. The evaluation of that context scores 0
    and approves, with no reason, whatever the amount asked for and the
    metadata of the request: the first withdrawal of an account is
    never challenged on its amount. *)
Theorem first_withdrawal_is_approved (cenv : Env) (w w' : World)
    (accountId agentId : string) (currentAmount : float)
    (context : RiskEngine.Context) (metadata : RiskEngine.Metadata) :
  Forall (fun t => account_id t <> accountId) (tokens (db w)) ->
  Forall (fun tx => tx_account_id tx <> accountId) (transactions (db w)) ->
  getRiskContext cenv accountId agentId currentAmount w
  = (Return context, w') ->
  context = {| RiskEngine.velocity10m := 0; RiskEngine.avgAmount := 0;
               RiskEngine.failedAttempts24h := 0;
               RiskEngine.lastIp := None;
               RiskEngine.currentAmount := currentAmount |}
  /\ RiskEngine.evaluateRedemption context metadata
     = {| RiskEngine.score := 0; RiskEngine.decision := RiskEngine.APPROVE;
          RiskEngine.reasons := [] |}.
Proof.
  intros Htokens Htx Hcontext.
  destruct (context_returned _ _ _ _ _ _ _ Hcontext) as (Hc & _ & _).
  assert (Hjoin := no_tokens_no_join (db w) accountId Htokens).
  assert (Hrecent : forall since,
             recent_tokens accountId since (db w) (stamps w) = 0%nat).
  { intros since. unfold recent_tokens. rewrite filter_drops_all;
      [reflexivity |].
    intros t Ht. rewrite Forall_forall in Htokens.
    apply andb_false_iff. left. apply String.eqb_neq.
    exact (Htokens t Ht). }
  assert (Hamounts : withdrawn_amounts accountId (db w) (stamps w) = []).
  { unfold withdrawn_amounts. rewrite filter_drops_all; [reflexivity |].
    intros tx Hin. rewrite Forall_forall in Htx.
    apply andb_false_iff. left. apply andb_false_iff. left.
    apply String.eqb_neq. exact (Htx tx Hin). }
  assert (Hfailed : forall since,
             failed_attempts accountId since (db w) (stamps w) = 0%nat).
  { intros since. unfold failed_attempts. rewrite Hjoin. reflexivity. }
  assert (Hlast : last_success accountId (db w) (stamps w) = None).
  { unfold last_success. rewrite Hjoin. reflexivity. }
  rewrite Hrecent, Hamounts, Hfailed, Hlast in Hc.
  assert (Hcontext0 :
            context
            = {| RiskEngine.velocity10m := 0; RiskEngine.avgAmount := 0;
                 RiskEngine.failedAttempts24h := 0;
                 RiskEngine.lastIp := None;
                 RiskEngine.currentAmount := currentAmount |})
    by (rewrite Hc; reflexivity).
  split; [exact Hcontext0 |]. rewrite Hcontext0.
  unfold RiskEngine.evaluateRedemption, RiskEngine.raw_signals,
    RiskEngine.ip_signal, RiskEngine.abuse_signal,
    RiskEngine.behavior_signal, RiskEngine.velocity_signal,
    RiskEngine.ip_mismatch.
  cbn [RiskEngine.velocity10m RiskEngine.avgAmount
       RiskEngine.failedAttempts24h RiskEngine.lastIp].
  reflexivity.
Qed.

(** X27, on an empty database. *)
Lemma first_withdrawal_is_approved_witness :
  (match fst (getRiskContext env0 Scenario.account "atm-1" 1000000
                {| db := Scenario.empty_db; stamps := stamps after_history;
                   issued := []; fault := fun _ => None;
                   clock := clock after_history; clock_reads := 0 |}) with
   | Return c => c
   | Throw _ => Explain.unknown
   end)
  = {| RiskEngine.velocity10m := 0; RiskEngine.avgAmount := 0;
       RiskEngine.failedAttempts24h := 0; RiskEngine.lastIp := None;
       RiskEngine.currentAmount := 1000000 |}
  /\ RiskEngine.evaluateRedemption
       (match fst (getRiskContext env0 Scenario.account "atm-1" 1000000
                     {| db := Scenario.empty_db;
                        stamps := stamps after_history;
                        issued := []; fault := fun _ => None;
                        clock := clock after_history; clock_reads := 0 |})
        with
        | Return c => c
        | Throw _ => Explain.unknown
        end) RiskEngine.no_metadata
     = {| RiskEngine.score := 0; RiskEngine.decision := RiskEngine.APPROVE;
          RiskEngine.reasons := [] |}.
Proof.
  apply (first_withdrawal_is_approved env0
           {| db := Scenario.empty_db; stamps := stamps after_history;
              issued := []; fault := fun _ => None;
              clock := clock after_history; clock_reads := 0 |}
           (snd (getRiskContext env0 Scenario.account "atm-1" 1000000
                   {| db := Scenario.empty_db;
                      stamps := stamps after_history;
                      issued := []; fault := fun _ => None;
                      clock := clock after_history; clock_reads := 0 |}))
           Scenario.account "atm-1" 1000000).
  - constructor.
  - constructor.
  - vm_compute. reflexivity.
Defined.

End RiskContextGuarantees.
